(** * healthcheck: a process-health probe

    A shallow embedding of the Go package [healthcheck] (address
    formatter, interface selection, TCP and HTTP probes) and of the
    polling loop of its command, with the properties of its
    specification stated and proved over the embedding.

    Conventions.
    - A Go [[]byte] holding an address is a [list byte]; Go strings and
      the byte buffers that are turned into strings are [string]s.
    - Go [int], [uint] and [uint32] values are [Z]; where the source
      converts or may wrap, the reduction is written out.
    - A run-time panic (index out of range) is [None] in the [option]
      monad; the fuel of a loop is [None] as well, and the theorems show
      that neither occurs.
    - Calls into the world outside (interface addresses, dialling,
      URL parsing, HTTP) are fields of a [World] record; what the
      program does there is returned as a list of [Event]s in program
      order.

    The file has three parts: the program, the vocabulary of the
    specification, and the proofs. *)

From Stdlib Require Import ZArith List Bool Lia.
From Stdlib Require Import Strings.String Strings.Ascii Strings.Byte.
From Stdlib Require DecimalString HexadecimalString DecimalPos DecimalN.
Import ListNotations.

Local Open Scope string_scope.
Local Open Scope Z_scope.

(** * Part I: the program *)

(** ** The panic monad *)

Definition bind {A B : Type} (m : option A) (k : A -> option B) : option B :=
  match m with
  | Some a => k a
  | None => None
  end.

Notation "x <- m ;; k" := (bind m (fun x => k))
  (at level 100, m at next level, right associativity).
Notation "' p <- m ;; k" := (bind m (fun p => k))
  (at level 100, p pattern, m at next level, right associativity).

(** ** Go primitives used by the package *)

(** Conversions, [len], indexing and slicing as the language defines
  them. *)
Module Go.

(** [uint(b)], [uint32(b)] of a byte. *)
Definition u8 (b : byte) : Z := Z.of_N (Byte.to_N b).

(** [byte(v)] of an unsigned integer: the low eight bits. *)
Definition to_byte (v : Z) : ascii := ascii_of_N (Z.to_N (v mod 256)).

(** Unsigned 64-bit and 32-bit results. *)
Definition uint (v : Z) : Z := v mod 2 ^ 64.
Definition uint32 (v : Z) : Z := v mod 2 ^ 32.

(** [len(s)] *)
Definition len {A : Type} (s : list A) : Z := Z.of_nat (List.length s).

(** [s[i]] on a slice or array: panics out of range. *)
Definition index {A : Type} (s : list A) (i : Z) : option A :=
  if (i <? 0) || (len s <=? i) then None else nth_error s (Z.to_nat i).

(** [s[i]] on a string. *)
Definition str_index (s : string) (i : Z) : option ascii :=
  if i <? 0 then None else String.get (Z.to_nat i) s.

(** [s[i] = c] on a slice or array: panics out of range. *)
Fixpoint set_nth {A : Type} (s : list A) (n : nat) (c : A) : list A :=
  match s, n with
  | [], _ => []
  | _ :: t, O => c :: t
  | x :: t, S m => x :: set_nth t m c
  end.

Definition store {A : Type} (s : list A) (i : Z) (c : A) : option (list A) :=
  if (i <? 0) || (len s <=? i) then None else Some (set_nth s (Z.to_nat i) c).

(** [s[i:]] on an array: panics when [i] is outside [0..len(s)]. *)
Definition slice_from {A : Type} (s : list A) (i : Z) : option (list A) :=
  if (i <? 0) || (len s <? i) then None else Some (skipn (Z.to_nat i) s).

End Go.

(** ** Package net: the parts of [net.IP] the package calls *)

(** After the package net of Go's standard library. *)
Module net.

Definition IP := list byte.

Definition IPv4len : Z := 4.
Definition IPv6len : Z := 16.

Definition isZeros (p : IP) : bool := forallb (fun b => Go.u8 b =? 0) p.

Definition byte_is (ip : IP) (i : nat) (v : Z) : bool :=
  match nth_error ip i with
  | Some b => Go.u8 b =? v
  | None => false
  end.

(** [ip.To4()]: [None] is Go's nil slice. A 4-byte address is returned
    as it is, a 16-byte address with the prefix 0:0:0:0:0:ffff gives
    its last four bytes. *)
Definition To4 (ip : IP) : option IP :=
  if Go.len ip =? IPv4len then Some ip
  else if (Go.len ip =? IPv6len) && isZeros (firstn 10 ip)
          && byte_is ip 10 255 && byte_is ip 11 255
  then Some (skipn 12 ip)
  else None.

(** [len(p)] of a possibly nil slice. *)
Definition len_opt (p : option IP) : Z :=
  match p with
  | Some q => Go.len q
  | None => 0
  end.

Definition IPv6loopback : IP :=
  [x00; x00; x00; x00; x00; x00; x00; x00;
   x00; x00; x00; x00; x00; x00; x00; x01].

Definition bytes_eqb (p q : IP) : bool :=
  if list_eq_dec Byte.byte_eq_dec p q then true else false.

(** [ip.IsLoopback()] *)
Definition IsLoopback (ip : IP) : bool :=
  match To4 ip with
  | Some ip4 => byte_is ip4 0 127
  | None => bytes_eqb ip IPv6loopback
  end.

End net.

(** ** Package strings: [LastIndex], [HasSuffix], [TrimSuffix] *)

(** After the package strings of Go's standard library. *)
Module strings.

(** The index of the last place of [s] where [substr] starts, counted
    from [i] for the head of [s]; -1 when there is none. *)
Fixpoint LastIndex_from (s substr : string) (i : Z) : Z :=
  match s with
  | EmptyString => if String.prefix substr s then i else -1
  | String _ s' =>
      let r := LastIndex_from s' substr (i + 1) in
      if r >=? 0 then r
      else if String.prefix substr s then i else -1
  end.

Definition LastIndex (s substr : string) : Z := LastIndex_from s substr 0.

Fixpoint HasSuffix (s suffix : string) : bool :=
  String.eqb s suffix
  || match s with
     | EmptyString => false
     | String _ s' => HasSuffix s' suffix
     end.

Definition TrimSuffix (s suffix : string) : string :=
  if HasSuffix s suffix
  then String.substring 0 (String.length s - String.length suffix) s
  else s.

End strings.

(** ** The address formatter (healthcheck.go) *)

Definition hexDigit : string := "0123456789abcdef".

(** The loop of [appendInt]: digits are written into [buf] from the
    right, [i] is the next free position. *)
Fixpoint appendInt_loop (fuel : nat) (buf : list ascii) (i val : Z)
  : option (list ascii * Z * Z) :=
  match fuel with
  | O => None
  | S fuel' =>
      if 10 <=? val then
        let q := val / 10 in
        buf' <- Go.store buf i (Go.to_byte (Go.uint (48 + val - q * 10))) ;;
        appendInt_loop fuel' buf' (i - 1) q
      else Some (buf, i, val)
  end.

(** [appendInt]: [buf] is the array [[20]byte], filled from its last
    position; [buf[i:]] is appended to [a]. *)
Definition appendInt (a : string) (val : Z) : option string :=
  if val =? 0 then Some (a ++ "0")
  else
    let buf := repeat zero 20 in
    let i := Go.len buf - 1 in
    '(buf, i, val) <- appendInt_loop 21 buf i val ;;
    buf <- Go.store buf i (Go.to_byte (Go.uint (48 + val))) ;;
    tail <- Go.slice_from buf i ;;
    Some (a ++ string_of_list_ascii tail).

(** [convertIPv4]: the buffer [b] starts empty on the array [a]; its
    capacity does not show in the result. *)
Definition convertIPv4 (ip : net.IP) : option string :=
  let b := "" in
  x <- Go.index ip 0 ;;
  b <- appendInt b (Go.u8 x) ;;
  let b := b ++ "." in
  x <- Go.index ip 1 ;;
  b <- appendInt b (Go.u8 x) ;;
  let b := b ++ "." in
  x <- Go.index ip 2 ;;
  b <- appendInt b (Go.u8 x) ;;
  let b := b ++ "." in
  x <- Go.index ip 3 ;;
  b <- appendInt b (Go.u8 x) ;;
  Some b.

(** The loop [for j := 7; j >= 0; j--] of [appendHex]; the argument is
    [j + 1]. *)
Fixpoint appendHex_loop (n : nat) (dst : string) (i : Z) : option string :=
  match n with
  | O => Some dst
  | S j =>
      let v := Z.shiftr i (Z.of_nat j * 4) in
      if v >? 0 then
        c <- Go.str_index hexDigit (Z.land v 15) ;;
        appendHex_loop j (dst ++ String c "") i
      else appendHex_loop j dst i
  end.

(** [appendHex] of a [uint32]. *)
Definition appendHex (dst : string) (i : Z) : option string :=
  if i =? 0 then Some (dst ++ "0") else appendHex_loop 8 dst i.

(** The inner loop of the search for zero groups:
    [for j < IPv6len && ip[j] == 0 && ip[j+1] == 0 { j += 2 }]. *)
Fixpoint zero_run_end (fuel : nat) (ip : net.IP) (j : Z) : option Z :=
  match fuel with
  | O => None
  | S fuel' =>
      if j <? net.IPv6len then
        x <- Go.index ip j ;;
        if Go.u8 x =? 0 then
          y <- Go.index ip (j + 1) ;;
          if Go.u8 y =? 0 then zero_run_end fuel' ip (j + 2) else Some j
        else Some j
      else Some j
  end.

(** The outer loop: the longest run of zero groups found so far is
    [e0, e1). *)
Fixpoint find_zero_run (fuel : nat) (ip : net.IP) (i e0 e1 : Z) : option (Z * Z) :=
  match fuel with
  | O => None
  | S fuel' =>
      if i <? net.IPv6len then
        j <- zero_run_end 9 ip i ;;
        if (j >? i) && (j - i >? e1 - e0)
        then find_zero_run fuel' ip (j + 2) i j
        else find_zero_run fuel' ip (i + 2) e0 e1
      else Some (e0, e1)
  end.

(** [(uint32(ip[i])<<8)|uint32(ip[i+1])] followed by [appendHex]. *)
Definition append_group (ip : net.IP) (i : Z) (b : string) : option string :=
  x <- Go.index ip i ;;
  y <- Go.index ip (i + 1) ;;
  appendHex b (Z.lor (Go.uint32 (Z.shiftl (Go.u8 x) 8)) (Go.u8 y)).

(** The loop that writes the groups. *)
Fixpoint write_groups (fuel : nat) (ip : net.IP) (e0 e1 i : Z) (b : string)
  : option string :=
  match fuel with
  | O => None
  | S fuel' =>
      if i <? net.IPv6len then
        if i =? e0 then
          let b := b ++ "::" in
          let i := e1 in
          if i >=? net.IPv6len then Some b
          else
            b <- append_group ip i b ;;
            write_groups fuel' ip e0 e1 (i + 2) b
        else
          let b := if i >? 0 then b ++ ":" else b in
          b <- append_group ip i b ;;
          write_groups fuel' ip e0 e1 (i + 2) b
      else Some b
  end.

(** [convertIPv6]: the search, the test that a run of one group is not
    compressed, and the writing. *)
Definition convertIPv6 (ip : net.IP) : option string :=
  ' (e0, e1) <- find_zero_run 9 ip 0 (-1) (-1) ;;
  let '(e0, e1) := if e1 - e0 <=? 2 then (-1, -1) else (e0, e1) in
  write_groups 9 ip e0 e1 0 "".

(** The loop of [hexString] over [b], [i] the index of [tn]. *)
Fixpoint hexString_loop (b : list byte) (i : Z) (s : list ascii)
  : option (list ascii) :=
  match b with
  | [] => Some s
  | tn :: rest =>
      hi <- Go.str_index hexDigit (Z.shiftr (Go.u8 tn) 4) ;;
      lo <- Go.str_index hexDigit (Z.land (Go.u8 tn) 15) ;;
      s <- Go.store s (i * 2) hi ;;
      s <- Go.store s (i * 2 + 1) lo ;;
      hexString_loop rest (i + 1) s
  end.

(** [hexString]: [s] is made with [len(b)*2] zero bytes. *)
Definition hexString (b : list byte) : option string :=
  s <- hexString_loop b 0 (repeat zero (Z.to_nat (Go.len b * 2))) ;;
  Some (string_of_list_ascii s).

(** [IPString] *)
Definition IPString (ip : net.IP) : option string :=
  let p := ip in
  if Go.len ip =? 0 then Some "<nil>"
  else
    let p4 := net.To4 p in
    if net.len_opt p4 =? net.IPv4len then
      match p4 with
      | Some q => convertIPv4 q
      | None => None
      end
    else if negb (Go.len p =? net.IPv6len) then
      h <- hexString ip ;;
      Some ("?" ++ h)
    else convertIPv6 ip.

(** ** Errors, configuration and the world outside *)

Record HealthCheckError := { Code : Z; Message : string }.

(** Go's [error] returned by the checks: [None] is nil. *)
Definition error := option HealthCheckError.

(** An error value of the host: one whose type implements [net.Error]
    answers [Timeout()], any other has only its text. *)
Inductive GoError :=
| NetError (timeout : bool) (text : string)
| OtherError (text : string).

Definition Error (e : GoError) : string :=
  match e with
  | NetError _ text => text
  | OtherError text => text
  end.

(** [err, ok := err.(net.Error); ok && err.Timeout()] *)
Definition is_timeout (e : GoError) : bool :=
  match e with
  | NetError t _ => t
  | OtherError _ => false
  end.

Record HealthCheck :=
  { network : string; uri : string; port : string; timeout : Z }.

Definition NewHealthCheck (network uri port : string) (timeout : Z) : HealthCheck :=
  {| network := network; uri := uri; port := port; timeout := timeout |}.

(** [net.Interface]; the fields the package does not read are left
    out. *)
Record Interface := { Index : Z; Name : string }.

Record IPNet := { IP : net.IP; Mask : list byte }.

(** A [net.Addr] with its dynamic type: [*net.IPNet], or another type
    that holds an address, as [*net.IPAddr]. *)
Inductive Addr :=
| IPNetAddr (n : IPNet)
| IPAddr (ip : net.IP) (zone : string).

(** A connection, told apart by its descriptor. *)
Record Conn := { fd : Z }.

(** [url.URL] and [http.Request], with the fields the probe sets. *)
Record URL := { Scheme : string; Host : string; Path : string; RawQuery : string }.

Record Request :=
  { Method : string;
    ReqURL : URL;
    Proto : string;
    ProtoMajor : Z;
    ProtoMinor : Z;
    Header : list (string * list string);
    ReqBody : option (list byte);
    ReqHost : string }.

(** What one [Read] of a body returns: the count and the error. *)
Definition ReadResult : Type := Z * option GoError.

(** A response: the body is the results of its successive [Read]s; past
    their end every [Read] returns [io.EOF]. *)
Record Response := { StatusCode : Z; Body : list ReadResult }.

Definition io_EOF : GoError := OtherError "EOF".

(** The world outside the program during one check: the calls into
    the packages net, net/url and net/http and what they return. *)
Record World :=
  { Addrs : Interface -> list Addr + GoError;
    DialTimeout : string -> string -> Z -> Conn + GoError;
    url_Parse : string -> URL + GoError;
    client_Do : Z -> Request -> Response + GoError }.

(** What the program does to the world, in program order. *)
Inductive Event :=
| EvAddrs (intf : Interface)
| EvDial (network address : string) (timeout : Z)
| EvConnClose (c : Conn)
| EvDo (timeout : Z) (req : Request)
| EvRead (r : ReadResult)
| EvBodyClose
| EvSleep (d : Z).

(** A computation that may panic and that reports its events. *)
Definition Run (A : Type) : Type := option (A * list Event).

Definition ret {A : Type} (a : A) : Run A := Some (a, []).

Definition emit (e : Event) : Run unit := Some (tt, [e]).

Definition lift {A : Type} (o : option A) : Run A :=
  match o with
  | Some a => Some (a, [])
  | None => None
  end.

Definition bindR {A B : Type} (m : Run A) (k : A -> Run B) : Run B :=
  match m with
  | None => None
  | Some (a, t) =>
      match k a with
      | None => None
      | Some (b, t') => Some (b, (t ++ t')%list)
      end
  end.

Notation "x <~ m ;; k" := (bindR m (fun x => k))
  (at level 100, m at next level, right associativity).
Notation "m ;;; k" := (bindR m (fun _ => k))
  (at level 100, right associativity).

(** ** The probes and the interface selection (healthcheck.go) *)

Definition failure (code : Z) (message : string) : error :=
  Some {| Code := code; Message := message |}.

(** [PortHealthCheck] *)
Definition PortHealthCheck (w : World) (h : HealthCheck) (ip : net.IP) : Run error :=
  s <~ lift (IPString ip) ;;
  let address := s ++ ":" ++ port h in
  emit (EvDial (network h) address (timeout h)) ;;;
  match DialTimeout w (network h) address (timeout h) with
  | inl conn =>
      emit (EvConnClose conn) ;;;
      ret None
  | inr err =>
      if is_timeout err
      then ret (failure 64 ("timeout when making TCP connection: " ++ Error err))
      else ret (failure 4 ("failure to make TCP connection: " ++ Error err))
  end.

(** [noopReadAll]: read until a [Read] returns an error. *)
Fixpoint noopReadAll (r : list ReadResult) : Run unit :=
  match r with
  | [] => emit (EvRead (0, Some io_EOF))
  | (n, err) :: rest =>
      emit (EvRead (n, err)) ;;;
      match err with
      | Some _ => ret tt
      | None => noopReadAll rest
      end
  end.

(** Lines 92 to 94 of [HTTPHealthCheck]: the host without a trailing
    colon. *)
Definition strip_trailing_colon (host : string) : string :=
  if strings.LastIndex host ":" >? strings.LastIndex host "]"
  then strings.TrimSuffix host ":"
  else host.

(** [http.StatusOK] and [strconv.Itoa]. *)
Definition http_StatusOK : Z := 200.

Definition Itoa (i : Z) : string :=
  DecimalString.NilZero.string_of_int (Z.to_int i).

(** [u.Host = host] *)
Definition set_Host (u : URL) (host : string) : URL :=
  {| Scheme := Scheme u; Host := host; Path := Path u; RawQuery := RawQuery u |}.

(** The request of [HTTPHealthCheck] for the URL [u]. *)
Definition get_request (u : URL) : Request :=
  {| Method := "GET";
     ReqURL := u;
     Proto := "HTTP/1.1";
     ProtoMajor := 1;
     ProtoMinor := 1;
     Header := [];
     ReqBody := None;
     ReqHost := Host u |}.

(** [HTTPHealthCheck] *)
Definition HTTPHealthCheck (w : World) (h : HealthCheck) (ip : net.IP) : Run error :=
  s <~ lift (IPString ip) ;;
  match url_Parse w ("http://" ++ s ++ ":" ++ port h ++ uri h) with
  | inr err => ret (failure (-1) ("failed to parse URL: " ++ Error err))
  | inl u =>
      let u := set_Host u (strip_trailing_colon (Host u)) in
      let req := get_request u in
      emit (EvDo (timeout h) req) ;;;
      match client_Do w (timeout h) req with
      | inl resp =>
          noopReadAll (Body resp) ;;;
          emit EvBodyClose ;;;
          if StatusCode resp =? http_StatusOK then ret None
          else ret (failure 6 ("failure to get valid HTTP status code: "
                               ++ Itoa (StatusCode resp)))
      | inr err =>
          if is_timeout err
          then ret (failure 65 ("timeout when making HTTP request: " ++ Error err))
          else ret (failure 5 ("failure to make HTTP request: " ++ Error err))
      end
  end.

(** The inner loop of [CheckInterfaces] over the addresses of one
    interface: [Some r] when the function returned [r]. *)
Fixpoint check_addrs (healthcheck : net.IP -> Run error) (addrs : list Addr)
  : Run (option error) :=
  match addrs with
  | [] => ret None
  | a :: rest =>
      match a with
      | IPNetAddr ipnet =>
          if negb (net.IsLoopback (IP ipnet))
             && match net.To4 (IP ipnet) with Some _ => true | None => false end
          then
            err <~ healthcheck (IP ipnet) ;;
            ret (Some err)
          else check_addrs healthcheck rest
      | IPAddr _ _ => check_addrs healthcheck rest
      end
  end.

(** The outer loop of [CheckInterfaces] over the interfaces. *)
Fixpoint check_interfaces (w : World) (healthcheck : net.IP -> Run error)
  (interfaces : list Interface) : Run error :=
  match interfaces with
  | [] => ret (failure 3 "failure to find suitable interface")
  | intf :: rest =>
      emit (EvAddrs intf) ;;;
      match Addrs w intf with
      | inr _ => check_interfaces w healthcheck rest
      | inl addrs =>
          r <~ check_addrs healthcheck addrs ;;
          match r with
          | Some err => ret err
          | None => check_interfaces w healthcheck rest
          end
      end
  end.

(** [CheckInterfaces] *)
Definition CheckInterfaces (w : World) (h : HealthCheck)
  (interfaces : list Interface) : Run error :=
  let healthcheck :=
    if Z.of_nat (String.length (uri h)) =? 0
    then PortHealthCheck w h
    else HTTPHealthCheck w h in
  check_interfaces w healthcheck interfaces.

(** ** The command (cmd/healthcheck/main.go) *)

Module main.

(** The flag variables of the command. *)
Record Flags :=
  { network : string;
    uri : string;
    port : string;
    timeout : Z;
    readinessInterval : Z;
    livenessInterval : Z }.

(** The machine the command runs on: the result of [net.Interfaces()]
    and the world during the check number [n]. *)
Record Machine :=
  { Interfaces : list Interface + GoError;
    world_at : nat -> World }.

(** The [error] that [realMain] returns. *)
Inductive MainError :=
| CheckError (e : HealthCheckError)
| ErrorString (text : string).

Definition of_check (err : error) : option MainError :=
  match err with
  | Some e => Some (CheckError e)
  | None => None
  end.

(** What [realMain] has done after a number of turns of its loop:
    returned, panicked, or still in the loop. *)
Inductive Outcome :=
| Returned (err : option MainError) (trace : list Event)
| Panicked
| Running (trace : list Event).

(** The loop of the readiness mode; [n] is the number of the next
    check and [fuel] the turns allowed. *)
Fixpoint readiness (fuel : nat) (check : nat -> Run error) (interval : Z)
  (n : nat) (trace : list Event) : Outcome :=
  match fuel with
  | O => Running trace
  | S fuel' =>
      match check n with
      | None => Panicked
      | Some (None, t) => Returned None (trace ++ t)%list
      | Some (Some _, t) =>
          readiness fuel' check interval (S n)
                    (trace ++ t ++ [EvSleep interval])%list
      end
  end.

(** The loop of the liveness mode. *)
Fixpoint liveness (fuel : nat) (check : nat -> Run error) (interval : Z)
  (n : nat) (trace : list Event) : Outcome :=
  match fuel with
  | O => Running trace
  | S fuel' =>
      match check n with
      | None => Panicked
      | Some (Some e, t) => Returned (Some (CheckError e)) (trace ++ t)%list
      | Some (None, t) =>
          liveness fuel' check interval (S n)
                   (trace ++ t ++ [EvSleep interval])%list
      end
  end.

(** [realMain]; [newHealthCheck] is not defined in the file and is a
    parameter. *)
Definition realMain
  (newHealthCheck : string -> string -> string -> Z -> HealthCheck)
  (m : Machine) (flags : Flags) (fuel : nat) : Outcome :=
  match Interfaces m with
  | inr err =>
      Returned (Some (ErrorString ("failure to get interfaces: " ++ Error err))) []
  | inl interfaces =>
      let h := newHealthCheck (network flags) (uri flags) (port flags)
                              (timeout flags) in
      let check := fun n => CheckInterfaces (world_at m n) h interfaces in
      if readinessInterval flags >? 0 then
        readiness fuel check (readinessInterval flags) 0 []
      else if livenessInterval flags >? 0 then
        liveness fuel check (livenessInterval flags) 0 []
      else
        match check 0%nat with
        | None => Panicked
        | Some (err, t) => Returned (of_check err) t
        end
  end.

(** The end of the process: what was written to the standard output
    and the status of the exit; or the crash of a panic; or no end
    yet, when [realMain] is still in its loop. *)
Inductive Process :=
| Exited (stdout : string) (code : Z) (trace : list Event)
| Crashed
| Alive (trace : list Event).

(** [main], after [flag.Parse()] has set the flags. *)
Definition main
  (newHealthCheck : string -> string -> string -> Z -> HealthCheck)
  (m : Machine) (flags : Flags) (fuel : nat) : Process :=
  match realMain newHealthCheck m flags fuel with
  | Returned (Some (CheckError e)) t =>
      Exited ("healthcheck failed: " ++ Message e) (Code e) t
  | Returned (Some (ErrorString text)) t =>
      Exited ("healthcheck failed(unknown error)" ++ text) 127 t
  | Returned None t => Exited "healthcheck passed" 0 t
  | Panicked => Crashed
  | Running t => Alive t
  end.

End main.

(** ** The earlier command (unnamed/part_001) *)

(** The command before the package existed: it exits from inside its
  checks. [ipnet.IP.String()] of the standard library and
  [client.Get] are parameters. *)
Module legacy.

Record Flags :=
  { network : string; uri : string; port : string; timeout : Z }.

Record Env :=
  { Interfaces : list Interface + GoError;
    world : World;
    client_Get : Z -> string -> Response + GoError;
    IP_String : net.IP -> string }.

(** A call either ends the process, with the lines printed and the
    status, or returns, with the lines printed. *)
Inductive Proc (A : Type) :=
| Exit (lines : list string) (code : Z)
| Next (a : A) (lines : list string).

Arguments Exit {A} lines code.
Arguments Next {A} a lines.

Definition bindP {A B : Type} (m : Proc A) (k : A -> Proc B) : Proc B :=
  match m with
  | Exit lines code => Exit lines code
  | Next a lines =>
      match k a with
      | Exit lines' code => Exit (lines ++ lines')%list code
      | Next b lines' => Next b (lines ++ lines')%list
      end
  end.

(** [fmt.Println] and [os.Exit] *)
Definition Println (line : string) : Proc unit := Next tt [line].

Definition os_Exit {A : Type} (code : Z) : Proc A := Exit [] code.

(** [failHealthCheck] *)
Definition failHealthCheck (code : Z) (reason : string) : Proc unit :=
  bindP (Println ("healthcheck failed: " ++ reason))
        (fun _ => os_Exit code).

(** [portHealthCheck] *)
Definition portHealthCheck (env : Env) (flags : Flags) (ip : string) : Proc unit :=
  let addr := ip ++ ":" ++ port flags in
  match DialTimeout (world env) (network flags) addr (timeout flags) with
  | inl conn =>
      bindP (Println "healthcheck passed") (fun _ => os_Exit 0)
  | inr err =>
      if is_timeout err
      then failHealthCheck 64 "timeout when making tcp connection"
      else failHealthCheck 4 "failure to make TCP request"
  end.

(** [httpHealthCheck] *)
Definition httpHealthCheck (env : Env) (flags : Flags) (ip : string) : Proc unit :=
  let addr := "http://" ++ ip ++ ":" ++ port flags ++ uri flags in
  match client_Get env (timeout flags) addr with
  | inl resp =>
      if StatusCode resp =? http_StatusOK
      then bindP (Println "healthcheck passed") (fun _ => os_Exit 0)
      else failHealthCheck 6 "failure to get valid HTTP status code"
  | inr err =>
      if is_timeout err
      then failHealthCheck 65 "timeout when making HTTP request"
      else failHealthCheck 5 "failure to make HTTP request"
  end.

(** The inner loop of [main] over the addresses of an interface. *)
Fixpoint addrs_loop (env : Env) (flags : Flags) (addrs : list Addr) : Proc unit :=
  match addrs with
  | [] => Next tt []
  | a :: rest =>
      bindP
        match a with
        | IPNetAddr ipnet =>
            if negb (net.IsLoopback (IP ipnet)) then
              match net.To4 (IP ipnet) with
              | Some _ =>
                  if Z.of_nat (String.length (uri flags)) >? 0
                  then httpHealthCheck env flags (IP_String env (IP ipnet))
                  else portHealthCheck env flags (IP_String env (IP ipnet))
              | None => Next tt []
              end
            else Next tt []
        | IPAddr _ _ => Next tt []
        end
        (fun _ => addrs_loop env flags rest)
  end.

(** The outer loop of [main] over the interfaces. *)
Fixpoint interfaces_loop (env : Env) (flags : Flags)
  (interfaces : list Interface) : Proc unit :=
  match interfaces with
  | [] => Next tt []
  | intf :: rest =>
      match Addrs (world env) intf with
      | inr _ => interfaces_loop env flags rest
      | inl addrs =>
          bindP (addrs_loop env flags addrs)
                (fun _ => interfaces_loop env flags rest)
      end
  end.

(** [main], after [flag.Parse()]. *)
Definition main (env : Env) (flags : Flags) : Proc unit :=
  match Interfaces env with
  | inr _ => failHealthCheck 1 "failure to get interfaces"
  | inl interfaces =>
      bindP (interfaces_loop env flags interfaces)
            (fun _ => failHealthCheck 3 "failure to find suitable interface")
  end.

End legacy.

(** ** The helper of the tests (cmd/healthcheck/healthcheck_test.go) *)

(** [getNonLoopbackIP]: [None] when the test fails for want of an
    address. The inner loop over the addresses of an interface first. *)
Fixpoint first_IPv4 (IP_String : net.IP -> string) (addrs : list Addr)
  : option string :=
  match addrs with
  | [] => None
  | a :: rest =>
      match a with
      | IPNetAddr ipnet =>
          if negb (net.IsLoopback (IP ipnet)) then
            match net.To4 (IP ipnet) with
            | Some _ => Some (IP_String (IP ipnet))
            | None => first_IPv4 IP_String rest
            end
          else first_IPv4 IP_String rest
      | IPAddr _ _ => first_IPv4 IP_String rest
      end
  end.

Fixpoint getNonLoopbackIP (IP_String : net.IP -> string) (w : World)
  (interfaces : list Interface) : option string :=
  match interfaces with
  | [] => None
  | intf :: rest =>
      match Addrs w intf with
      | inr _ => getNonLoopbackIP IP_String w rest
      | inl addrs =>
          match first_IPv4 IP_String addrs with
          | Some s => Some s
          | None => getNonLoopbackIP IP_String w rest
          end
      end
  end.

(** * Part II: the vocabulary of the specification *)

(** ** Numerals *)

Definition decimal (n : Z) : string :=
  DecimalString.NilZero.string_of_uint (N.to_uint (Z.to_N n)).

Definition hex (n : Z) : string :=
  HexadecimalString.NilZero.string_of_uint (N.to_hex_uint (Z.to_N n)).

Definition dec_digit (c : ascii) : option Z :=
  let n := Z.of_N (N_of_ascii c) in
  if (48 <=? n) && (n <=? 57) then Some (n - 48) else None.

Definition hex_digit (c : ascii) : option Z :=
  let n := Z.of_N (N_of_ascii c) in
  if (48 <=? n) && (n <=? 57) then Some (n - 48)
  else if (97 <=? n) && (n <=? 102) then Some (n - 87)
  else None.

Fixpoint numeral_value (digit : ascii -> option Z) (base acc : Z) (s : string)
  : option Z :=
  match s with
  | EmptyString => Some acc
  | String c s' =>
      match digit c with
      | Some d => numeral_value digit base (acc * base + d) s'
      | None => None
      end
  end.

(** Not empty, and a leading zero only in "0" itself. *)
Definition no_leading_zero (s : string) : bool :=
  match s with
  | EmptyString => false
  | String c EmptyString => true
  | String c _ => negb (Ascii.eqb c "0")
  end.

Definition numeral_text (digit : ascii -> option Z) (base : Z) (s : string) (n : Z)
  : bool :=
  no_leading_zero s &&
  match numeral_value digit base 0 s with
  | Some v => v =? n
  | None => false
  end.

Definition decimal_text : string -> Z -> bool := numeral_text dec_digit 10.
Definition hex_text : string -> Z -> bool := numeral_text hex_digit 16.

Definition dotted (a b c d : byte) : string :=
  decimal (Go.u8 a) ++ "." ++ decimal (Go.u8 b) ++ "."
  ++ decimal (Go.u8 c) ++ "." ++ decimal (Go.u8 d).

(** The lowercase hexadecimal digit of value [d]. *)
Definition hex_char (d : Z) : ascii :=
  ascii_of_N (Z.to_N (if d <? 10 then 48 + d else 87 + d)).

(** Two digits per byte, the high one first. *)
Definition two_hex (b : byte) : list ascii :=
  [hex_char (Go.u8 b / 16); hex_char (Go.u8 b mod 16)].

Definition hex_dump (p : list byte) : string :=
  string_of_list_ascii (flat_map two_hex p).

(** The value of a sequence of decimal digits after the digits of value
    [acc]. *)
Fixpoint digits_value (d : Decimal.uint) (acc : Z) : Z :=
  match d with
  | Decimal.Nil => acc
  | Decimal.D0 d => digits_value d (acc * 10 + 0)
  | Decimal.D1 d => digits_value d (acc * 10 + 1)
  | Decimal.D2 d => digits_value d (acc * 10 + 2)
  | Decimal.D3 d => digits_value d (acc * 10 + 3)
  | Decimal.D4 d => digits_value d (acc * 10 + 4)
  | Decimal.D5 d => digits_value d (acc * 10 + 5)
  | Decimal.D6 d => digits_value d (acc * 10 + 6)
  | Decimal.D7 d => digits_value d (acc * 10 + 7)
  | Decimal.D8 d => digits_value d (acc * 10 + 8)
  | Decimal.D9 d => digits_value d (acc * 10 + 9)
  end.

(** The text of an integer in decimal: a numeral, behind a minus sign
    when the integer is negative. *)
Definition integer_text (s : string) (n : Z) : bool :=
  if n <? 0 then
    match s with
    | String c s' => Ascii.eqb c "-" && decimal_text s' (- n)
    | EmptyString => false
    end
  else decimal_text s n.

(** ** Occurrences of a text *)

(** The number of places of [s] at which [p] starts. *)
Fixpoint occurrences (p s : string) : nat :=
  match s with
  | EmptyString => if String.prefix p s then 1 else 0
  | String _ s' => ((if String.prefix p s then 1 else 0) + occurrences p s')%nat
  end.

Fixpoint colon_free (s : string) : bool :=
  match s with
  | EmptyString => true
  | String c s' => negb (Ascii.eqb c ":") && colon_free s'
  end.

(** [s] does not begin with a colon. *)
Definition starts_plain (s : string) : bool :=
  match s with
  | EmptyString => true
  | String c _ => negb (Ascii.eqb c ":")
  end.

(** ** Groups and runs of zero groups *)

(** The eight 16-bit groups of a 16-byte address, and which are zero. *)
Definition group_value (ip : net.IP) (k : nat) : Z :=
  256 * Go.u8 (nth (2 * k) ip x00) + Go.u8 (nth (2 * k + 1) ip x00).

Definition groups (ip : net.IP) : list Z := map (group_value ip) (seq 0 8).

Definition zero_groups (ip : net.IP) : list bool :=
  map (fun g => g =? 0) (groups ip).

Definition zero_at (z : list bool) (k : nat) : bool := nth k z false.

Definition zero_run (z : list bool) (s l : nat) : bool :=
  if (1 <=? l)%nat && (s + l <=? 8)%nat then
    forallb (zero_at z) (seq s l)
    && ((s =? 0)%nat || negb (zero_at z (s - 1)))
    && negb (zero_at z (s + l))
  else false.

(** The longest run, and the earliest among the longest. *)
Definition longest_run (z : list bool) (s l : nat) : Prop :=
  zero_run z s l = true /\
  forall s' l', zero_run z s' l' = true ->
    (l' < l)%nat \/ (l' = l /\ (s <= s')%nat).

(** No two neighbouring groups are both zero. *)
Definition no_zero_pair (z : list bool) : Prop :=
  forall k, zero_at z k = true -> zero_at z (S k) = false.

(** Boolean forms over the eight groups, for evaluation. *)
Definition longest_run_b (z : list bool) (s l : nat) : bool :=
  if zero_run z s l then
    forallb (fun s' =>
      forallb (fun l' =>
        implb (zero_run z s' l')
              ((l' <? l)%nat || ((l' =? l)%nat && (s <=? s')%nat)))
        (seq 0 9)) (seq 0 9)
  else false.

Definition no_zero_pair_b (z : list bool) : bool :=
  forallb (fun k => negb (zero_at z k && zero_at z (S k))) (seq 0 8).

(** The separator written before group [k]. *)
Definition sep (k : nat) : string := if (k =? 0)%nat then "" else ":".

(** What the loop writes for the groups [k], ..., [k + m - 1] when none
    of them starts the compressed run. *)
Fixpoint segment (ip : net.IP) (k m : nat) : string :=
  match m with
  | O => ""
  | S m' => sep k ++ hex (group_value ip k) ++ segment ip (S k) m'
  end.

(** ** Reading a body *)

(** The reads of a body up to the first error: every [Read] before the
    last returned no error, the last one did, and they are the first
    results of the body (followed by [io.EOF]) in order. *)
Definition read_to_error (body : list ReadResult) (events : list Event) : Prop :=
  exists before last rest,
    events = (map EvRead before ++ [EvRead last])%list
    /\ Forall (fun r : ReadResult => snd r = None) before
    /\ snd last <> None
    /\ (body ++ [(0, Some io_EOF)])%list = (before ++ last :: rest)%list.

(** The reads went on, without error, until one returned [io.EOF]: the
    body was read to its end. *)
Definition drained (reads : list Event) : Prop :=
  exists before n,
    reads = (map EvRead before ++ [EvRead (n, Some io_EOF)])%list
    /\ Forall (fun r : ReadResult => snd r = None) before.

(** No [Read] of the body fails before its end: an error, when there
    is one, is [io.EOF]. *)
Definition reads_to_end (body : list ReadResult) : Prop :=
  Forall (fun r : ReadResult => snd r = None \/ snd r = Some io_EOF) body.

(** ** Suitable addresses *)

Definition addr_IP (a : Addr) : net.IP :=
  match a with
  | IPNetAddr n => IP n
  | IPAddr ip _ => ip
  end.

(** Not a loopback address, and expressible in four bytes. *)
Definition suitable (ip : net.IP) : bool :=
  negb (net.IsLoopback ip)
  && match net.To4 ip with Some _ => true | None => false end.

(** The addresses the loop accepts: those of dynamic type [*net.IPNet]
    that are suitable. *)
Definition qualifies (a : Addr) : bool :=
  match a with
  | IPNetAddr n => suitable (IP n)
  | IPAddr _ _ => false
  end.

(** The addresses of an interface, none when the lookup fails. *)
Definition lookup (w : World) (intf : Interface) : list Addr :=
  match Addrs w intf with
  | inl addrs => addrs
  | inr _ => []
  end.

(** All addresses in interface-enumeration order. *)
Definition listed (w : World) (interfaces : list Interface) : list Addr :=
  flat_map (lookup w) interfaces.

(** The interfaces up to and including the first with an accepted
    address. *)
Fixpoint inspected (w : World) (interfaces : list Interface) : list Interface :=
  match interfaces with
  | [] => []
  | intf :: rest =>
      intf :: if existsb qualifies (lookup w intf) then [] else inspected w rest
  end.

(** The probe that [CheckInterfaces] selects. *)
Definition probe_of (w : World) (h : HealthCheck) : net.IP -> Run error :=
  if Z.of_nat (String.length (uri h)) =? 0
  then PortHealthCheck w h
  else HTTPHealthCheck w h.

(** The events that start a probe: a dial or an HTTP request. *)
Definition is_probe (e : Event) : bool :=
  match e with
  | EvDial _ _ _ | EvDo _ _ => true
  | _ => false
  end.

Definition probes (t : list Event) : nat := List.length (filter is_probe t).

(** C3, as stated: the first suitable address of any type would be the
    one probed. *)
Definition first_address_probed (w : World) (h : HealthCheck)
  (interfaces : list Interface) : Prop :=
  match find (fun a => suitable (addr_IP a)) (listed w interfaces) with
  | Some a =>
      exists r t0 tp,
        probe_of w h (addr_IP a) = Some (r, tp)
        /\ CheckInterfaces w h interfaces = Some (r, (t0 ++ tp)%list)
  | None =>
      exists t,
        CheckInterfaces w h interfaces
        = Some (failure 3 "failure to find suitable interface", t)
  end.

(** ** Modes and histories of the command *)

Module poll.

Import main.

(** The modes of the specification. *)
Inductive Mode :=
| SingleShot
| Readiness (interval : Z)
| Liveness (interval : Z).

Definition mode_of (flags : Flags) : Mode :=
  if readinessInterval flags >? 0 then Readiness (readinessInterval flags)
  else if livenessInterval flags >? 0 then Liveness (livenessInterval flags)
  else SingleShot.

(** The events of the first [k] checks, each followed by a sleep. *)
Definition history (t : nat -> list Event) (interval : Z) (k : nat) : list Event :=
  flat_map (fun j => (t j ++ [EvSleep interval])%list) (seq 0 k).

End poll.

(** ** Reading a text back *)

(** [s] begins with a character other than '0'. *)
Definition starts_nonzero (s : string) : bool :=
  match s with
  | EmptyString => false
  | String c _ => negb (Ascii.eqb c "0")
  end.

(** [s] does not contain the character [x]. *)
Fixpoint free_of (x : ascii) (s : string) : bool :=
  match s with
  | EmptyString => true
  | String c s' => negb (Ascii.eqb c x) && free_of x s'
  end.

(** Pairs of lowercase hexadecimal digits, read back as bytes. *)
Fixpoint decode_hex (s : string) : option (list Z) :=
  match s with
  | EmptyString => Some []
  | String h (String l rest) =>
      match hex_digit h, hex_digit l, decode_hex rest with
      | Some a, Some b, Some r => Some (16 * a + b :: r)
      | _, _, _ => None
      end
  | String _ EmptyString => None
  end.

Definition nonempty (s : string) : bool :=
  match s with
  | EmptyString => false
  | String _ _ => true
  end.

(** A field: not empty and without colon. *)
Definition word (s : string) : Prop := s <> "" /\ colon_free s = true.

(** The fields of [s] between its colons. *)
Fixpoint fields (s : string) : list string :=
  match s with
  | EmptyString => [""]
  | String c s' =>
      if Ascii.eqb c ":" then "" :: fields s'
      else match fields s' with
           | f :: fs => String c f :: fs
           | [] => [String c ""]
           end
  end.

(** The fields before the first empty one, and those from it on. *)
Fixpoint fields_before (l : list string) : list string :=
  match l with
  | [] => []
  | f :: fs => if nonempty f then f :: fields_before fs else []
  end.

Fixpoint fields_from (l : list string) : list string :=
  match l with
  | [] => []
  | f :: fs => if nonempty f then fields_from fs else l
  end.

Fixpoint parse_groups (l : list string) : option (list Z) :=
  match l with
  | [] => Some []
  | f :: fs =>
      match numeral_value hex_digit 16 0 f, parse_groups fs with
      | Some v, Some vs => Some (v :: vs)
      | _, _ => None
      end
  end.

(** The eight groups that a colon-hexadecimal text stands for: the
    fields are the groups, and an empty field stands for the zero
    groups that are missing. *)
Definition decode_ipv6 (text : string) : option (list Z) :=
  let fs := fields text in
  if forallb nonempty fs then parse_groups fs
  else
    match parse_groups (fields_before fs),
          parse_groups (filter nonempty (fields_from fs)) with
    | Some p, Some q =>
        Some (p ++ repeat 0 (8 - List.length p - List.length q) ++ q)%list
    | _, _ => None
    end.

(** ** What a check returns *)

(** The result is nil or a failure whose code is in [codes]. *)
Definition code_in (r : error) (codes : list Z) : Prop :=
  match r with
  | None => True
  | Some e => In (Code e) codes
  end.

(** The codes of the failures that a check can return. *)
Definition check_codes : list Z := [-1; 3; 4; 5; 6; 64; 65].

(** ** The earlier command *)

(** The reason that the earlier command prints with a status. *)
Definition legacy_reason (code : Z) : string :=
  if code =? 1 then "failure to get interfaces"
  else if code =? 3 then "failure to find suitable interface"
  else if code =? 4 then "failure to make TCP request"
  else if code =? 5 then "failure to make HTTP request"
  else if code =? 6 then "failure to get valid HTTP status code"
  else if code =? 64 then "timeout when making tcp connection"
  else if code =? 65 then "timeout when making HTTP request"
  else "".

(** How the earlier command ends: one line, and the status that goes
    with it. *)
Definition legacy_end (p : legacy.Proc unit) : Prop :=
  p = legacy.Exit ["healthcheck passed"] 0
  \/ exists code,
       In code [1; 3; 4; 5; 6; 64; 65]
       /\ p = legacy.Exit ["healthcheck failed: " ++ legacy_reason code] code.

(** The check that the earlier command makes of an address. *)
Definition legacy_probe (env : legacy.Env) (flags : legacy.Flags)
  : string -> legacy.Proc unit :=
  if Z.of_nat (String.length (legacy.uri flags)) >? 0
  then legacy.httpHealthCheck env flags
  else legacy.portHealthCheck env flags.

(** The flags and the surroundings of the earlier command that go with
    those of the command. *)
Definition legacy_flags (flags : main.Flags) : legacy.Flags :=
  {| legacy.network := main.network flags;
     legacy.uri := main.uri flags;
     legacy.port := main.port flags;
     legacy.timeout := main.timeout flags |}.

Definition legacy_env (m : main.Machine)
  (client_Get : Z -> string -> Response + GoError)
  (IP_String : net.IP -> string) : legacy.Env :=
  {| legacy.Interfaces := main.Interfaces m;
     legacy.world := main.world_at m 0;
     legacy.client_Get := client_Get;
     legacy.IP_String := IP_String |}.

(** A text of addresses that agrees with [IPString]. *)
Definition IPString_text (ip : net.IP) : string :=
  match IPString ip with
  | Some s => s
  | None => ""
  end.

(** ** Tables checked by evaluation *)

Definition all_bytes : list byte :=
  flat_map (fun n => match Byte.of_N (N.of_nat n) with
                     | Some b => [b]
                     | None => []
                     end) (seq 0 256).

Definition option_eqb (a b : option string) : bool :=
  match a, b with
  | Some x, Some y => String.eqb x y
  | None, None => true
  | _, _ => false
  end.

(** The value [appendHex] is called with, for the bytes [x] and [y]. *)
Definition group_bits (x y : byte) : Z :=
  Z.lor (Go.uint32 (Z.shiftl (Go.u8 x) 8)) (Go.u8 y).

Definition group_check (x y : byte) : bool :=
  let g := 256 * Go.u8 x + Go.u8 y in
  (group_bits x y =? g)
  && option_eqb (appendHex "" (group_bits x y)) (Some (hex g))
  && hex_text (hex g) g.

Definition nibble_check (b : byte) : bool :=
  match Go.str_index hexDigit (Z.shiftr (Go.u8 b) 4),
        Go.str_index hexDigit (Z.land (Go.u8 b) 15) with
  | Some hi, Some lo =>
      Ascii.eqb hi (hex_char (Go.u8 b / 16))
      && Ascii.eqb lo (hex_char (Go.u8 b mod 16))
      && match hex_digit hi, hex_digit lo with
         | Some h, Some l => 16 * h + l =? Go.u8 b
         | _, _ => false
         end
  | _, _ => false
  end.

(** An address with the zero groups [z]. *)
Definition pattern_address (z : list bool) : net.IP :=
  flat_map (fun b : bool => if b then [x00; x00] else [x00; x01]) z.

Fixpoint patterns (n : nat) : list (list bool) :=
  match n with
  | O => [[]]
  | S m => flat_map (fun t => [true :: t; false :: t]) (patterns m)
  end.

Definition in_range (s l : nat) (e0 e1 : Z) : bool :=
  (e0 =? 2 * Z.of_nat s) && (e1 =? 2 * Z.of_nat (s + l)).

(** What the search returns on the pattern [z]: the longest run when
    there is one, a difference of at most 2 when no two neighbouring
    groups are zero, and in any case either a longest run or -1, -1. *)
Definition search_check (z : list bool) : bool :=
  (if list_eq_dec bool_dec (zero_groups (pattern_address z)) z then true else false)
  && match find_zero_run 9 (pattern_address z) 0 (-1) (-1) with
     | None => false
     | Some (e0, e1) =>
         forallb (fun s =>
           forallb (fun l => if in_range s l e0 e1 then true
                            else negb (longest_run_b z s l))
                   (seq 0 9)) (seq 0 9)
         && implb (no_zero_pair_b z) (e1 - e0 <=? 2)
         && (((e0 =? -1) && (e1 =? -1))
             || existsb (fun s =>
                  existsb (fun l => if in_range s l e0 e1
                                   then longest_run_b z s l else false)
                          (seq 0 9)) (seq 0 9))
     end.

Definition octet_length_check (b : byte) : bool :=
  let n := String.length (decimal (Go.u8 b)) in
  (1 <=? n)%nat && (n <=? 3)%nat.

Definition octet_dot_check (b : byte) : bool := free_of "." (decimal (Go.u8 b)).

(** ** Sample inputs *)

(** 2001:db8:0:1:0:1:0:1 *)
Definition sample_uncompressed : net.IP :=
  [x20; x01; x0d; xb8; x00; x00; x00; x01; x00; x00; x00; x01; x00; x00; x00; x01].

(** 2001:db8:0:0:1:0:0:1 *)
Definition sample_compressed : net.IP :=
  [x20; x01; x0d; xb8; x00; x00; x00; x00; x00; x01; x00; x00; x00; x00; x00; x01].

(** An interface with the anycast address 10.0.0.1 (a [*net.IPAddr])
    before the unicast address 10.0.0.2/24 (a [*net.IPNet]); only
    10.0.0.2:8080 accepts connections. *)
Definition eth0 : Interface := {| Index := 2; Name := "eth0" |}.

Definition anycast_first : World :=
  {| Addrs := fun _ =>
       inl [IPAddr [x0a; x00; x00; x01] "";
            IPNetAddr {| IP := [x0a; x00; x00; x02];
                         Mask := [xff; xff; xff; x00] |}];
     DialTimeout := fun _ address _ =>
       if String.eqb address "10.0.0.2:8080"
       then inl {| fd := 3 |}
       else inr (NetError false "connect: connection refused");
     url_Parse := fun _ => inr (OtherError "not called");
     client_Do := fun _ _ => inr (OtherError "not called") |}.

Definition port_8080 : HealthCheck := NewHealthCheck "tcp" "" "8080" 1000000000.

(** A machine on which 10.0.0.2:8080 refuses connections during the
    checks 0 and 1 and accepts them from the check 2 on. *)
Definition refusing : World :=
  {| Addrs := fun _ =>
       inl [IPNetAddr {| IP := [x0a; x00; x00; x02];
                         Mask := [xff; xff; xff; x00] |}];
     DialTimeout := fun _ _ _ =>
       inr (NetError false "connect: connection refused");
     url_Parse := fun _ => inr (OtherError "not called");
     client_Do := fun _ _ => inr (OtherError "not called") |}.

Definition accepting : World :=
  {| Addrs := Addrs refusing;
     DialTimeout := fun _ _ _ => inl {| fd := 3 |};
     url_Parse := url_Parse refusing;
     client_Do := client_Do refusing |}.

Definition late_server : main.Machine :=
  {| main.Interfaces := inl [eth0];
     main.world_at := fun n => if (n <? 2)%nat then refusing else accepting |}.

Definition readiness_flags : main.Flags :=
  {| main.network := "tcp";
     main.uri := "";
     main.port := "8080";
     main.timeout := 1000000000;
     main.readinessInterval := 500000000;
     main.livenessInterval := -1 |}.

Definition liveness_flags : main.Flags :=
  {| main.network := "tcp";
     main.uri := "";
     main.port := "8080";
     main.timeout := 1000000000;
     main.readinessInterval := -1;
     main.livenessInterval := 500000000 |}.

Definition refused_4 : HealthCheckError :=
  {| Code := 4;
     Message := "failure to make TCP connection: connect: connection refused" |}.

Definition dial_8080 : Event := EvDial "tcp" "10.0.0.2:8080" 1000000000.

(** A machine on which 10.0.0.2:8080 accepts connections during the
    checks 0 and 1 and refuses them from the check 2 on. *)
Definition failing_server : main.Machine :=
  {| main.Interfaces := inl [eth0];
     main.world_at := fun n => if (n <? 2)%nat then accepting else refusing |}.

(** A world in which http://10.0.0.2:8080/api/_ping answers 200 with
    a body of two bytes, and the check for it. *)
Definition ping_url : URL :=
  {| Scheme := "http"; Host := "10.0.0.2:8080"; Path := "/api/_ping";
     RawQuery := "" |}.

Definition ping_200 : World :=
  {| Addrs := Addrs refusing;
     DialTimeout := DialTimeout refusing;
     url_Parse := fun _ => inl ping_url;
     client_Do := fun _ _ => inl {| StatusCode := 200; Body := [(2, None)] |} |}.

Definition ping_check : HealthCheck :=
  NewHealthCheck "tcp" "/api/_ping" "8080" 1000000000.

Definition no_interfaces : main.Machine :=
  {| main.Interfaces := inr (OtherError "route ip+net: netlinkrib: too many open files");
     main.world_at := fun _ => refusing |}.

Definition single_shot_flags : main.Flags :=
  {| main.network := "tcp";
     main.uri := "";
     main.port := "8080";
     main.timeout := 1000000000;
     main.readinessInterval := -1;
     main.livenessInterval := -1 |}.

(** The address 10.0.0.2, and worlds in which the dial to it times out,
    the URL does not parse, and the request is answered with 500, times
    out, is refused, or is answered with 200 and a body whose second
    [Read] fails. *)
Definition ip_10_0_0_2 : net.IP := [x0a; x00; x00; x02].

Definition timing_out : World :=
  {| Addrs := Addrs refusing;
     DialTimeout := fun _ _ _ =>
       inr (NetError true "dial tcp 10.0.0.2:8080: i/o timeout");
     url_Parse := url_Parse refusing;
     client_Do := client_Do refusing |}.

Definition bad_url : World :=
  {| Addrs := Addrs refusing;
     DialTimeout := DialTimeout refusing;
     url_Parse := fun _ => inr (OtherError "invalid URL escape");
     client_Do := client_Do refusing |}.

Definition answering (r : Response + GoError) : World :=
  {| Addrs := Addrs refusing;
     DialTimeout := DialTimeout refusing;
     url_Parse := fun _ => inl ping_url;
     client_Do := fun _ _ => r |}.

Definition ping_500 : World :=
  answering (inl {| StatusCode := 500; Body := [] |}).

Definition ping_timeout : World :=
  answering (inr (NetError true "Client.Timeout exceeded while awaiting headers")).

Definition ping_refused : World :=
  answering (inr (NetError false "connect: connection refused")).

Definition body_timeout : GoError :=
  NetError true "Client.Timeout exceeded while reading body".

Definition cut_short : World :=
  answering (inl {| StatusCode := 200;
                    Body := [(512, None); (0, Some body_timeout)] |}).

(** * Part III: proofs *)

(** ** Strings *)

Lemma append_assoc (a b c : string) : (a ++ b) ++ c = a ++ (b ++ c).
Proof. induction a as [|x a IH]; simpl; [reflexivity | now rewrite IH]. Qed.

Lemma append_nil_r (a : string) : a ++ "" = a.
Proof. induction a as [|x a IH]; simpl; [reflexivity | now rewrite IH]. Qed.

Lemma append_length (a b : string) :
  String.length (a ++ b) = (String.length a + String.length b)%nat.
Proof. induction a as [|x a IH]; simpl; [reflexivity | now rewrite IH]. Qed.

Lemma string_of_list_ascii_length (l : list ascii) :
  String.length (string_of_list_ascii l) = List.length l.
Proof. induction l as [|x l IH]; simpl; [reflexivity | now rewrite IH]. Qed.

(** ** Bytes *)

Lemma all_bytes_complete (b : byte) : In b all_bytes.
Proof.
  assert (H : existsb (Byte.eqb b) all_bytes = true)
    by (destruct b; vm_compute; reflexivity).
  apply existsb_exists in H. destruct H as [c [Hin Heq]].
  apply Byte.byte_dec_bl in Heq. now subst.
Qed.

Lemma forall_bytes (P : byte -> bool) :
  forallb P all_bytes = true -> forall b, P b = true.
Proof.
  intros H b. rewrite forallb_forall in H. apply H, all_bytes_complete.
Qed.

Lemma u8_range (b : byte) : 0 <= Go.u8 b <= 255.
Proof.
  unfold Go.u8. pose proof (Byte.to_N_bounded b). lia.
Qed.

(** ** Decimal octets *)

Lemma option_eqb_eq a b : option_eqb a b = true -> a = b.
Proof.
  destruct a, b; simpl; try discriminate; try reflexivity.
  intros H. apply String.eqb_eq in H. now subst.
Qed.

(** [appendInt] appends to [a] what it writes after the empty buffer. *)
Lemma appendInt_prefix (a : string) (val : Z) :
  appendInt a val = option_map (fun s => a ++ s) (appendInt "" val).
Proof.
  unfold appendInt. destruct (val =? 0); [reflexivity|].
  cbv zeta.
  destruct (appendInt_loop 21 _ _ val) as [[[buf i] v]|]; [|reflexivity].
  cbn [bind].
  destruct (Go.store buf i _) as [buf'|]; [|reflexivity]. cbn [bind].
  destruct (Go.slice_from buf' i) as [t|]; reflexivity.
Qed.

Lemma appendInt_octet (a : string) (b : byte) :
  appendInt a (Go.u8 b) = Some (a ++ decimal (Go.u8 b)).
Proof.
  rewrite appendInt_prefix.
  assert (H : appendInt "" (Go.u8 b) = Some (decimal (Go.u8 b))).
  { apply option_eqb_eq. revert b. apply forall_bytes. vm_compute. reflexivity. }
  now rewrite H.
Qed.

Lemma decimal_octet_text (b : byte) :
  decimal_text (decimal (Go.u8 b)) (Go.u8 b) = true.
Proof. revert b. apply forall_bytes. vm_compute. reflexivity. Qed.

Lemma convertIPv4_spec (a b c d : byte) :
  convertIPv4 [a; b; c; d]
  = Some (decimal (Go.u8 a) ++ "." ++ decimal (Go.u8 b) ++ "."
          ++ decimal (Go.u8 c) ++ "." ++ decimal (Go.u8 d)).
Proof.
  unfold convertIPv4. cbn [Go.index Go.len List.length].
  change (Go.index [a; b; c; d] 0) with (Some a).
  change (Go.index [a; b; c; d] 1) with (Some b).
  change (Go.index [a; b; c; d] 2) with (Some c).
  change (Go.index [a; b; c; d] 3) with (Some d).
  cbn [bind]. rewrite appendInt_octet. cbn [bind].
  rewrite appendInt_octet. cbn [bind].
  rewrite appendInt_octet. cbn [bind].
  rewrite appendInt_octet.
  cbn [append]. now rewrite !append_assoc.
Qed.

(** ** Hexadecimal groups *)

Lemma appendHex_loop_prefix (n : nat) (a d : string) (i : Z) :
  appendHex_loop n (a ++ d) i
  = option_map (fun s => a ++ s) (appendHex_loop n d i).
Proof.
  revert d. induction n as [|j IH]; intros d; cbn [appendHex_loop].
  - reflexivity.
  - cbv zeta. destruct (Z.shiftr i (Z.of_nat j * 4) >? 0); [|apply IH].
    destruct (Go.str_index hexDigit _) as [c|]; cbn [bind]; [|reflexivity].
    rewrite <- IH. now rewrite append_assoc.
Qed.

Lemma appendHex_prefix (a : string) (i : Z) :
  appendHex a i = option_map (fun s => a ++ s) (appendHex "" i).
Proof.
  unfold appendHex. destruct (i =? 0); [reflexivity|].
  rewrite <- appendHex_loop_prefix. now rewrite append_nil_r.
Qed.

Lemma group_check_table :
  forallb (fun x => forallb (group_check x) all_bytes) all_bytes = true.
Proof. vm_compute. reflexivity. Qed.

Lemma group_check_all (x y : byte) : group_check x y = true.
Proof.
  pose proof (forall_bytes _ group_check_table x) as H. cbv beta in H.
  exact (forall_bytes _ H y).
Qed.

Lemma group_bits_value (x y : byte) :
  group_bits x y = 256 * Go.u8 x + Go.u8 y.
Proof.
  pose proof (group_check_all x y) as H. unfold group_check in H.
  cbv zeta in H. rewrite !andb_true_iff in H. destruct H as [[H _] _].
  now apply Z.eqb_eq in H.
Qed.

Lemma appendHex_group (b : string) (x y : byte) :
  appendHex b (group_bits x y) = Some (b ++ hex (256 * Go.u8 x + Go.u8 y)).
Proof.
  pose proof (group_check_all x y) as H. unfold group_check in H.
  cbv zeta in H. rewrite !andb_true_iff in H. destruct H as [[_ H] _].
  apply option_eqb_eq in H. rewrite appendHex_prefix, H. reflexivity.
Qed.

Lemma hex_group_text (x y : byte) :
  hex_text (hex (256 * Go.u8 x + Go.u8 y)) (256 * Go.u8 x + Go.u8 y) = true.
Proof.
  pose proof (group_check_all x y) as H. unfold group_check in H.
  cbv zeta in H. rewrite !andb_true_iff in H. now destruct H as [_ H].
Qed.

(** ** Sixteen-byte addresses: indexing and the zero groups *)

Lemma index_nth {A : Type} (s : list A) (n : nat) (d : A) :
  (n < List.length s)%nat -> Go.index s (Z.of_nat n) = Some (nth n s d).
Proof.
  intros H. unfold Go.index, Go.len.
  replace (Z.of_nat n <? 0) with false by (symmetry; apply Z.ltb_ge; lia).
  replace (Z.of_nat (List.length s) <=? Z.of_nat n) with false
    by (symmetry; apply Z.leb_gt; lia).
  cbn [orb]. rewrite Nat2Z.id. now apply nth_error_nth'.
Qed.

Lemma zero_run_end_past (ip : net.IP) (fuel k : nat) :
  (8 <= k)%nat ->
  zero_run_end (S fuel) ip (2 * Z.of_nat k) = Some (2 * Z.of_nat k).
Proof.
  intros H. cbn [zero_run_end].
  replace (2 * Z.of_nat k <? net.IPv6len) with false
    by (symmetry; apply Z.ltb_ge; unfold net.IPv6len; lia).
  reflexivity.
Qed.

Section Address16.

Variable ip : net.IP.
Hypothesis ip_len : List.length ip = 16%nat.

Lemma index_even (k : nat) :
  (k < 8)%nat -> Go.index ip (2 * Z.of_nat k) = Some (nth (2 * k) ip x00).
Proof.
  intros H. replace (2 * Z.of_nat k) with (Z.of_nat (2 * k)) by lia.
  apply index_nth. lia.
Qed.

Lemma index_odd (k : nat) :
  (k < 8)%nat -> Go.index ip (2 * Z.of_nat k + 1) = Some (nth (2 * k + 1) ip x00).
Proof.
  intros H. replace (2 * Z.of_nat k + 1) with (Z.of_nat (2 * k + 1)) by lia.
  apply index_nth. lia.
Qed.

Lemma append_group_spec (k : nat) (b : string) :
  (k < 8)%nat ->
  append_group ip (2 * Z.of_nat k) b = Some (b ++ hex (group_value ip k)).
Proof.
  intros H. unfold append_group.
  rewrite (index_even k H), (index_odd k H). cbn [bind].
  apply appendHex_group.
Qed.

Lemma groups_length : List.length (groups ip) = 8%nat.
Proof. unfold groups. now rewrite length_map, length_seq. Qed.

Lemma nth_groups (k : nat) :
  (k < 8)%nat -> nth k (groups ip) 0 = group_value ip k.
Proof.
  intros H. unfold groups.
  rewrite nth_indep with (d' := group_value ip 0%nat)
    by (rewrite length_map, length_seq; lia).
  rewrite map_nth. now rewrite seq_nth by lia.
Qed.

Lemma nth_zero_groups (k : nat) :
  (k < 8)%nat -> nth k (zero_groups ip) false = (group_value ip k =? 0).
Proof.
  intros H. unfold zero_groups.
  rewrite nth_indep with (d' := (0 =? 0))
    by (rewrite length_map, groups_length; lia).
  rewrite (map_nth (fun g => g =? 0)). now rewrite nth_groups.
Qed.

(** One test of the inner loop. *)
Lemma zero_run_end_step (fuel k : nat) :
  (k < 8)%nat ->
  zero_run_end (S fuel) ip (2 * Z.of_nat k)
  = if nth k (zero_groups ip) false
    then zero_run_end fuel ip (2 * Z.of_nat (S k))
    else Some (2 * Z.of_nat k).
Proof.
  intros H. cbn [zero_run_end].
  replace (2 * Z.of_nat k <? net.IPv6len) with true
    by (symmetry; apply Z.ltb_lt; unfold net.IPv6len; lia).
  rewrite (index_even k H), (index_odd k H). cbn [bind].
  rewrite (nth_zero_groups k H). unfold group_value.
  pose proof (u8_range (nth (2 * k) ip x00)) as Hx.
  pose proof (u8_range (nth (2 * k + 1) ip x00)) as Hy.
  replace (2 * Z.of_nat k + 2) with (2 * Z.of_nat (S k)) by lia.
  destruct (Z.eqb_spec (Go.u8 (nth (2 * k) ip x00)) 0) as [Ex|Ex];
    destruct (Z.eqb_spec (Go.u8 (nth (2 * k + 1) ip x00)) 0) as [Ey|Ey];
    destruct (Z.eqb_spec
                (256 * Go.u8 (nth (2 * k) ip x00)
                 + Go.u8 (nth (2 * k + 1) ip x00)) 0) as [Eg|Eg];
    try reflexivity; lia.
Qed.

(** The inner loop stops at the start of a group. *)
Lemma zero_run_end_even (fuel k : nat) (j : Z) :
  zero_run_end fuel ip (2 * Z.of_nat k) = Some j ->
  exists k', j = 2 * Z.of_nat k'.
Proof.
  revert k. induction fuel as [|fuel IH]; intros k; [discriminate|].
  destruct (Nat.lt_ge_cases k 8) as [Hk|Hk].
  - rewrite (zero_run_end_step fuel k Hk).
    destruct (nth k (zero_groups ip) false).
    + apply IH.
    + intros [= <-]. now exists k.
  - rewrite (zero_run_end_past ip fuel k Hk). intros [= <-]. now exists k.
Qed.

End Address16.

(** The two search loops read the address only through its zero groups. *)
Section SamePattern.

Variables ip ip' : net.IP.
Hypothesis ip_len : List.length ip = 16%nat.
Hypothesis ip'_len : List.length ip' = 16%nat.
Hypothesis same : zero_groups ip = zero_groups ip'.

Lemma zero_run_end_same (fuel k : nat) :
  zero_run_end fuel ip (2 * Z.of_nat k) = zero_run_end fuel ip' (2 * Z.of_nat k).
Proof.
  revert k. induction fuel as [|fuel IH]; intros k; [reflexivity|].
  destruct (Nat.lt_ge_cases k 8) as [Hk|Hk].
  - rewrite (zero_run_end_step ip ip_len fuel k Hk).
    rewrite (zero_run_end_step ip' ip'_len fuel k Hk).
    rewrite same, IH. reflexivity.
  - rewrite (zero_run_end_past ip fuel k Hk).
    now rewrite (zero_run_end_past ip' fuel k Hk).
Qed.

Lemma find_zero_run_same (fuel k : nat) (e0 e1 : Z) :
  find_zero_run fuel ip (2 * Z.of_nat k) e0 e1
  = find_zero_run fuel ip' (2 * Z.of_nat k) e0 e1.
Proof.
  revert k e0 e1. induction fuel as [|fuel IH]; intros k e0 e1; [reflexivity|].
  cbn [find_zero_run]. rewrite <- zero_run_end_same.
  destruct (2 * Z.of_nat k <? net.IPv6len); [|reflexivity].
  destruct (zero_run_end 9 ip (2 * Z.of_nat k)) as [j|] eqn:Ej; [|reflexivity].
  cbn [bind].
  destruct (zero_run_end_even ip ip_len 9 k j Ej) as [k' ->].
  replace (2 * Z.of_nat k' + 2) with (2 * Z.of_nat (S k')) by lia.
  replace (2 * Z.of_nat k + 2) with (2 * Z.of_nat (S k)) by lia.
  now rewrite !IH.
Qed.

End SamePattern.

(** ** Runs of zero groups *)

Lemma zero_run_bounds (z : list bool) (s l : nat) :
  zero_run z s l = true -> (1 <= l /\ s + l <= 8)%nat.
Proof.
  unfold zero_run.
  destruct ((1 <=? l)%nat && (s + l <=? 8)%nat) eqn:E; [|discriminate].
  intros _. apply andb_true_iff in E. destruct E as [H1 H2].
  apply Nat.leb_le in H1. apply Nat.leb_le in H2. lia.
Qed.

Lemma longest_run_reflect (z : list bool) (s l : nat) :
  longest_run z s l -> longest_run_b z s l = true.
Proof.
  intros [Hrun Hmax]. unfold longest_run_b. rewrite Hrun.
  apply forallb_forall. intros s' _. apply forallb_forall. intros l' _.
  destruct (zero_run z s' l') eqn:E; [|reflexivity]. cbn [implb].
  destruct (Hmax s' l' E) as [H|[H1 H2]].
  - apply Nat.ltb_lt in H. now rewrite H.
  - apply Nat.eqb_eq in H1. apply Nat.leb_le in H2.
    rewrite H1, H2. now rewrite orb_true_r.
Qed.

Lemma no_zero_pair_reflect (z : list bool) :
  no_zero_pair z -> no_zero_pair_b z = true.
Proof.
  intros H. apply forallb_forall. intros k _.
  destruct (zero_at z k) eqn:E; [|reflexivity].
  now rewrite (H k E).
Qed.

Lemma longest_run_decide (z : list bool) (s l : nat) :
  longest_run_b z s l = true -> longest_run z s l.
Proof.
  unfold longest_run_b. destruct (zero_run z s l) eqn:Hrun; [|discriminate].
  intros H. split; [exact Hrun|]. intros s' l' Hrun'.
  pose proof (zero_run_bounds z s' l' Hrun') as Hb.
  rewrite forallb_forall in H.
  assert (Hs : In s' (seq 0 9)) by (apply in_seq; lia).
  specialize (H s' Hs). rewrite forallb_forall in H.
  assert (Hl : In l' (seq 0 9)) by (apply in_seq; lia).
  specialize (H l' Hl). cbv beta in H. rewrite Hrun' in H. cbn [implb] in H.
  apply orb_true_iff in H. destruct H as [H|H].
  - left. now apply Nat.ltb_lt.
  - right. apply andb_true_iff in H. destruct H as [H1 H2].
    apply Nat.eqb_eq in H1. apply Nat.leb_le in H2. now split.
Qed.

(** A run of at least two groups that is the only such run is the
    longest. *)
Lemma only_run_longest (z : list bool) (s l : nat) :
  zero_run z s l = true -> (2 <= l)%nat ->
  (forall s' l', zero_run z s' l' = true -> (2 <= l')%nat -> s' = s /\ l' = l) ->
  longest_run z s l.
Proof.
  intros Hrun Hl Honly. split; [exact Hrun|]. intros s' l' Hrun'.
  destruct (Nat.lt_ge_cases l' 2) as [H|H]; [left; lia|].
  destruct (Honly s' l' Hrun' H) as [-> ->]. right. split; [reflexivity|lia].
Qed.

Lemma no_zero_pair_decide (z : list bool) :
  List.length z = 8%nat -> no_zero_pair_b z = true -> no_zero_pair z.
Proof.
  intros Hlen H k Hk. unfold no_zero_pair_b in H. rewrite forallb_forall in H.
  destruct (Nat.lt_ge_cases k 8) as [Hlt|Hge].
  - assert (Hin : In k (seq 0 8)) by (apply in_seq; lia).
    specialize (H k Hin). cbv beta in H. rewrite Hk in H.
    now apply negb_true_iff in H.
  - unfold zero_at in Hk. rewrite nth_overflow in Hk by lia. discriminate.
Qed.

(** ** The search for the longest run, on all 256 patterns *)

Lemma patterns_complete (z : list bool) : In z (patterns (List.length z)).
Proof.
  induction z as [|b z IH]; cbn [List.length patterns].
  - now left.
  - apply in_flat_map. exists z. split; [exact IH|].
    destruct b; cbn; auto.
Qed.

Lemma search_check_table : forallb search_check (patterns 8) = true.
Proof. vm_compute. reflexivity. Qed.

Lemma search_check_all (z : list bool) :
  List.length z = 8%nat -> search_check z = true.
Proof.
  intros H. pose proof (patterns_complete z) as Hin. rewrite H in Hin.
  pose proof search_check_table as T. rewrite forallb_forall in T. now apply T.
Qed.

(** ** Writing the groups *)

Lemma firstn_seq_min (n start len : nat) :
  firstn n (seq start len) = seq start (Nat.min n len).
Proof.
  revert start len. induction n as [|n IH]; intros start [|len]; cbn; try reflexivity.
  now rewrite IH.
Qed.

Lemma concat_cons2 (d x y : string) (r : list string) :
  String.concat d (x :: y :: r) = x ++ d ++ String.concat d (y :: r).
Proof. reflexivity. Qed.

Section Writing.

Variable ip : net.IP.
Hypothesis ip_len : List.length ip = 16%nat.

Lemma write_groups_segment (m k fuel : nat) (e0 e1 : Z) (b : string) :
  (k + m <= 8)%nat ->
  (forall j, (k <= j < k + m)%nat -> e0 <> 2 * Z.of_nat j) ->
  write_groups (m + fuel) ip e0 e1 (2 * Z.of_nat k) b
  = write_groups fuel ip e0 e1 (2 * Z.of_nat (k + m)) (b ++ segment ip k m).
Proof.
  revert k b. induction m as [|m IH]; intros k b Hk Hne.
  - cbn [segment Nat.add]. now rewrite append_nil_r, Nat.add_0_r.
  - cbn [Nat.add write_groups segment].
    replace (2 * Z.of_nat k <? net.IPv6len) with true
      by (symmetry; apply Z.ltb_lt; unfold net.IPv6len; lia).
    replace (2 * Z.of_nat k =? e0) with false
      by (symmetry; apply Z.eqb_neq; intros E; apply (Hne k); lia).
    replace (if 2 * Z.of_nat k >? 0 then b ++ ":" else b) with (b ++ sep k).
    2:{ unfold sep. destruct k as [|k]; cbn [Nat.eqb].
        - now rewrite append_nil_r.
        - replace (2 * Z.of_nat (S k) >? 0) with true; [reflexivity|].
          symmetry. apply Z.gtb_lt. lia. }
    rewrite (append_group_spec ip ip_len k) by lia. cbn [bind].
    replace (2 * Z.of_nat k + 2) with (2 * Z.of_nat (S k)) by lia.
    rewrite IH by (try lia; intros j Hj; apply Hne; lia).
    replace (S k + m)%nat with (k + S m)%nat by lia.
    now rewrite !append_assoc.
Qed.

Lemma write_groups_done (fuel : nat) (e0 e1 : Z) (b : string) :
  write_groups (S fuel) ip e0 e1 (2 * Z.of_nat 8) b = Some b.
Proof. reflexivity. Qed.

(** Without a compressed run all eight groups are written. *)
Lemma write_groups_plain :
  write_groups 9 ip (-1) (-1) 0 "" = Some (segment ip 0 8).
Proof.
  change 9%nat with (8 + 1)%nat. change 0 with (2 * Z.of_nat 0) at 1.
  rewrite write_groups_segment by (try lia; intros j Hj; lia).
  cbn [Nat.add]. now rewrite write_groups_done.
Qed.

(** With the run [s, s + l) compressed. *)
Lemma write_groups_compressed (s l : nat) :
  (1 <= l)%nat -> (s + l <= 8)%nat ->
  write_groups 9 ip (2 * Z.of_nat s) (2 * Z.of_nat (s + l)) 0 ""
  = Some (segment ip 0 s ++ "::"
          ++ match (8 - (s + l))%nat with
             | O => ""
             | S m => hex (group_value ip (s + l)) ++ segment ip (S (s + l)) m
             end).
Proof.
  intros Hl Hs.
  replace 9%nat with (s + S (8 - s))%nat by lia.
  change 0 with (2 * Z.of_nat 0) at 1.
  rewrite write_groups_segment by (try lia; intros j Hj; lia).
  cbn [Nat.add append write_groups].
  replace (2 * Z.of_nat s <? net.IPv6len) with true
    by (symmetry; apply Z.ltb_lt; unfold net.IPv6len; lia).
  rewrite Z.eqb_refl.
  destruct (8 - (s + l))%nat as [|m] eqn:Em.
  - replace (2 * Z.of_nat (s + l) >=? net.IPv6len) with true
      by (symmetry; apply Z.geb_le; unfold net.IPv6len; lia).
    reflexivity.
  - replace (2 * Z.of_nat (s + l) >=? net.IPv6len) with false
      by (unfold net.IPv6len, Z.geb;
          destruct (Z.compare_spec (2 * Z.of_nat (s + l)) 16);
          try reflexivity; lia).
    rewrite (append_group_spec ip ip_len (s + l)) by lia. cbn [bind].
    replace (2 * Z.of_nat (s + l) + 2) with (2 * Z.of_nat (S (s + l))) by lia.
    replace (8 - s)%nat with (m + S l)%nat by lia.
    rewrite write_groups_segment by (try lia; intros j Hj; lia).
    replace (S (s + l) + m)%nat with 8%nat by lia.
    rewrite write_groups_done. now rewrite !append_assoc.
Qed.

(** The segments are the groups joined by ':'. *)
Lemma concat_segment (m k : nat) :
  String.concat ":" (map hex (map (group_value ip) (seq k (S m))))
  = hex (group_value ip k) ++ segment ip (S k) m.
Proof.
  revert k. induction m as [|m IH]; intros k.
  - cbn. now rewrite append_nil_r.
  - specialize (IH (S k)). cbn [seq map] in IH |- *.
    rewrite concat_cons2, IH. reflexivity.
Qed.

Lemma concat_segment_0 (m : nat) :
  String.concat ":" (map hex (map (group_value ip) (seq 0 m))) = segment ip 0 m.
Proof.
  destruct m as [|m]; [reflexivity|].
  rewrite concat_segment. cbn [segment sep Nat.eqb append]. reflexivity.
Qed.

Lemma firstn_groups (s : nat) :
  (s <= 8)%nat -> firstn s (groups ip) = map (group_value ip) (seq 0 s).
Proof.
  intros H. unfold groups. rewrite firstn_map, firstn_seq_min.
  now rewrite Nat.min_l.
Qed.

Lemma skipn_groups (t : nat) :
  (t <= 8)%nat -> skipn t (groups ip) = map (group_value ip) (seq t (8 - t)).
Proof.
  intros H. unfold groups. rewrite skipn_map, skipn_seq. reflexivity.
Qed.

End Writing.

(** ** What the search finds *)

Lemma pattern_address_length (z : list bool) :
  List.length (pattern_address z) = (2 * List.length z)%nat.
Proof.
  induction z as [|b z IH]; [reflexivity|].
  unfold pattern_address in *. cbn [flat_map]. rewrite length_app, IH.
  destruct b; cbn [List.length]; lia.
Qed.

Lemma zero_groups_length (ip : net.IP) : List.length (zero_groups ip) = 8%nat.
Proof. unfold zero_groups, groups. now rewrite !length_map, length_seq. Qed.

Lemma in_seq_0_9 (n : nat) : (n <= 8)%nat -> In n (seq 0 9).
Proof. intros H. apply in_seq. lia. Qed.

Section Search.

Variable ip : net.IP.
Hypothesis ip_len : List.length ip = 16%nat.

Lemma search_on_pattern :
  find_zero_run 9 ip 0 (-1) (-1)
  = find_zero_run 9 (pattern_address (zero_groups ip)) 0 (-1) (-1).
Proof.
  pose proof (search_check_all (zero_groups ip) (zero_groups_length ip)) as T.
  unfold search_check in T. apply andb_true_iff in T. destruct T as [T _].
  destruct (list_eq_dec bool_dec
              (zero_groups (pattern_address (zero_groups ip)))
              (zero_groups ip)) as [E|];
    [|discriminate].
  apply (find_zero_run_same ip (pattern_address (zero_groups ip)) ip_len)
    with (k := 0%nat).
  - rewrite pattern_address_length. now rewrite zero_groups_length.
  - now rewrite E.
Qed.

Lemma search_result :
  exists e0 e1,
    find_zero_run 9 ip 0 (-1) (-1) = Some (e0, e1) /\
    (forall s l, longest_run (zero_groups ip) s l ->
       e0 = 2 * Z.of_nat s /\ e1 = 2 * Z.of_nat (s + l)) /\
    (no_zero_pair (zero_groups ip) -> e1 - e0 <= 2) /\
    ((e0 = -1 /\ e1 = -1) \/
     exists s l, (1 <= l)%nat /\ (s + l <= 8)%nat /\
                 e0 = 2 * Z.of_nat s /\ e1 = 2 * Z.of_nat (s + l)).
Proof.
  rewrite search_on_pattern.
  pose proof (search_check_all (zero_groups ip) (zero_groups_length ip)) as T.
  unfold search_check in T. apply andb_true_iff in T. destruct T as [_ T].
  destruct (find_zero_run 9 (pattern_address (zero_groups ip)) 0 (-1) (-1))
    as [[e0 e1]|];
    [|discriminate].
  rewrite !andb_true_iff in T. destruct T as [[T1 T2] T3].
  exists e0, e1. split; [reflexivity|]. repeat split.
  - pose proof (longest_run_reflect (zero_groups ip) s l H) as B.
    destruct H as [Hrun _]. apply zero_run_bounds in Hrun.
    rewrite forallb_forall in T1. specialize (T1 s (in_seq_0_9 s ltac:(lia))).
    rewrite forallb_forall in T1. specialize (T1 l (in_seq_0_9 l ltac:(lia))).
    cbv beta in T1. rewrite B in T1.
    destruct (in_range s l e0 e1) eqn:R; [|discriminate].
    unfold in_range in R. apply andb_true_iff in R. destruct R as [R _].
    now apply Z.eqb_eq in R.
  - pose proof (longest_run_reflect (zero_groups ip) s l H) as B.
    destruct H as [Hrun _]. apply zero_run_bounds in Hrun.
    rewrite forallb_forall in T1. specialize (T1 s (in_seq_0_9 s ltac:(lia))).
    rewrite forallb_forall in T1. specialize (T1 l (in_seq_0_9 l ltac:(lia))).
    cbv beta in T1. rewrite B in T1.
    destruct (in_range s l e0 e1) eqn:R; [|discriminate].
    unfold in_range in R. apply andb_true_iff in R. destruct R as [_ R].
    now apply Z.eqb_eq in R.
  - intros H. rewrite (no_zero_pair_reflect (zero_groups ip) H) in T2. cbn [implb] in T2.
    now apply Z.leb_le in T2.
  - apply orb_true_iff in T3. destruct T3 as [T3|T3].
    + apply andb_true_iff in T3. destruct T3 as [A B].
      apply Z.eqb_eq in A. apply Z.eqb_eq in B. now left.
    + right. apply existsb_exists in T3. destruct T3 as [s [_ T3]].
      apply existsb_exists in T3. destruct T3 as [l [_ T3]].
      destruct (in_range s l e0 e1) eqn:R; [|discriminate].
      unfold longest_run_b in T3.
      destruct (zero_run (zero_groups ip) s l) eqn:Hrun; [|discriminate].
      apply zero_run_bounds in Hrun.
      unfold in_range in R. apply andb_true_iff in R. destruct R as [R1 R2].
      apply Z.eqb_eq in R1. apply Z.eqb_eq in R2.
      exists s, l. repeat split; try assumption; lia.
Qed.

End Search.

(** ** Occurrences of the double colon *)

Lemma prefix_colons_other (c : ascii) (s : string) :
  Ascii.eqb c ":" = false -> String.prefix "::" (String c s) = false.
Proof.
  intros H. cbn [String.prefix].
  destruct (ascii_dec ":" c) as [E|E]; [|reflexivity].
  subst c. discriminate.
Qed.

Lemma occurrences_word_app (w s : string) :
  colon_free w = true -> occurrences "::" (w ++ s) = occurrences "::" s.
Proof.
  induction w as [|c w IH]; intros H; [reflexivity|].
  cbn [colon_free] in H. apply andb_true_iff in H. destruct H as [Hc Hw].
  apply negb_true_iff in Hc.
  cbn [append occurrences]. rewrite (prefix_colons_other c _ Hc).
  now rewrite IH.
Qed.

Lemma occurrences_colon (s : string) :
  starts_plain s = true ->
  occurrences "::" (":" ++ s) = occurrences "::" s.
Proof.
  intros H. cbn [append occurrences].
  replace (String.prefix "::" (String ":" s)) with false; [reflexivity|].
  destruct s as [|c s]; [reflexivity|].
  cbn [starts_plain] in H. apply negb_true_iff in H.
  cbn [String.prefix]. destruct (ascii_dec ":" ":") as [_|N]; [|now elim N].
  destruct (ascii_dec ":" c) as [E|E]; [|reflexivity].
  subst c. discriminate.
Qed.

Lemma occurrences_double_colon (s : string) :
  starts_plain s = true ->
  occurrences "::" ("::" ++ s) = S (occurrences "::" s).
Proof.
  intros H. change ("::" ++ s) with (String ":" (":" ++ s)).
  cbn [occurrences]. rewrite (occurrences_colon s H).
  replace (String.prefix "::" (String ":" (":" ++ s))) with true; [reflexivity|].
  cbn [append String.prefix].
  destruct (ascii_dec ":" ":") as [_|N]; [|now elim N].
  now destruct s.
Qed.

Lemma starts_plain_app (w s : string) :
  w <> "" -> colon_free w = true -> starts_plain (w ++ s) = true.
Proof.
  destruct w as [|c w]; [congruence|]. intros _ H.
  cbn [colon_free] in H. apply andb_true_iff in H. now destruct H.
Qed.

Lemma numeral_colon_free (s : string) :
  forall acc v, numeral_value hex_digit 16 acc s = Some v -> colon_free s = true.
Proof.
  induction s as [|c s IH]; intros acc v H; [reflexivity|].
  cbn [numeral_value] in H. cbn [colon_free].
  destruct (hex_digit c) as [d|] eqn:D; [|discriminate].
  rewrite (IH _ _ H), andb_true_r.
  destruct (Ascii.eqb_spec c ":") as [E|E]; [|reflexivity].
  subst c. discriminate.
Qed.

Lemma hex_text_word (s : string) (n : Z) :
  hex_text s n = true -> s <> "" /\ colon_free s = true.
Proof.
  unfold hex_text, numeral_text. intros H. apply andb_true_iff in H.
  destruct H as [H1 H2]. split.
  - destruct s; [discriminate|congruence].
  - destruct (numeral_value hex_digit 16 0 s) as [v|] eqn:E; [|discriminate].
    exact (numeral_colon_free s 0 v E).
Qed.

Lemma group_text (ip : net.IP) (k : nat) :
  hex_text (hex (group_value ip k)) (group_value ip k) = true.
Proof. unfold group_value. apply hex_group_text. Qed.

Lemma groups_text (ip : net.IP) :
  Forall (fun g => hex_text (hex g) g = true) (groups ip).
Proof.
  unfold groups. apply Forall_map, Forall_forall. intros k _. apply group_text.
Qed.

Lemma occurrences_segment (ip : net.IP) (m k : nat) (s : string) :
  occurrences "::" (segment ip k m ++ s) = occurrences "::" s.
Proof.
  revert k. induction m as [|m IH]; intros k; [reflexivity|].
  cbn [segment]. rewrite !append_assoc.
  destruct (hex_text_word _ _ (group_text ip k)) as [Hne Hcf].
  assert (E : occurrences "::" (hex (group_value ip k) ++ segment ip (S k) m ++ s)
              = occurrences "::" s)
    by (now rewrite occurrences_word_app, IH).
  unfold sep. destruct (k =? 0)%nat.
  - exact E.
  - rewrite occurrences_colon; [exact E|]. now apply starts_plain_app.
Qed.

(** ** [IPString] on sixteen-byte addresses *)

Lemma IPString_16 (ip : net.IP) :
  List.length ip = 16%nat -> net.To4 ip = None -> IPString ip = convertIPv6 ip.
Proof.
  intros Hlen H4. unfold IPString. cbv zeta. rewrite H4.
  unfold Go.len. rewrite Hlen. reflexivity.
Qed.

(** An address that [To4] accepts starts with two zero groups. *)
Lemma To4_zero_pair (ip q : net.IP) :
  List.length ip = 16%nat -> net.To4 ip = Some q ->
  zero_at (zero_groups ip) 0 = true /\ zero_at (zero_groups ip) 1 = true.
Proof.
  intros Hlen H. unfold zero_at.
  rewrite !(nth_zero_groups ip Hlen) by lia. unfold group_value.
  do 16 (destruct ip as [|? ip]; try discriminate).
  destruct ip; try discriminate. clear Hlen.
  unfold net.To4 in H. cbn -[Go.u8] in H. cbn [nth Nat.mul Nat.add].
  destruct (Z.eqb_spec (Go.u8 b) 0) as [E0|]; [|discriminate].
  destruct (Z.eqb_spec (Go.u8 b0) 0) as [E1|]; [|discriminate].
  destruct (Z.eqb_spec (Go.u8 b1) 0) as [E2|]; [|discriminate].
  destruct (Z.eqb_spec (Go.u8 b2) 0) as [E3|]; [|discriminate].
  rewrite E0, E1, E2, E3. split; reflexivity.
Qed.

Lemma no_zero_pair_To4 (ip : net.IP) :
  List.length ip = 16%nat -> no_zero_pair (zero_groups ip) -> net.To4 ip = None.
Proof.
  intros Hlen H. destruct (net.To4 ip) as [q|] eqn:E; [|reflexivity].
  destruct (To4_zero_pair ip q Hlen E) as [H0 H1].
  rewrite (H 0%nat H0) in H1. discriminate.
Qed.

Lemma convertIPv6_plain (ip : net.IP) :
  List.length ip = 16%nat -> no_zero_pair (zero_groups ip) ->
  convertIPv6 ip = Some (String.concat ":" (map hex (groups ip))).
Proof.
  intros Hlen H. unfold convertIPv6.
  destruct (search_result ip Hlen) as (e0 & e1 & E & _ & Hle & _).
  rewrite E. cbn [bind]. specialize (Hle H).
  replace (e1 - e0 <=? 2) with true by (symmetry; now apply Z.leb_le).
  rewrite (write_groups_plain ip Hlen).
  unfold groups. now rewrite concat_segment_0.
Qed.

Lemma convertIPv6_compressed (ip : net.IP) (s l : nat) :
  List.length ip = 16%nat -> longest_run (zero_groups ip) s l -> (2 <= l)%nat ->
  convertIPv6 ip
  = Some (segment ip 0 s ++ "::"
          ++ match (8 - (s + l))%nat with
             | O => ""
             | S m => hex (group_value ip (s + l)) ++ segment ip (S (s + l)) m
             end).
Proof.
  intros Hlen H Hl. unfold convertIPv6.
  destruct (search_result ip Hlen) as (e0 & e1 & E & Hrun & _ & _).
  rewrite E. cbn [bind]. destruct (Hrun s l H) as [-> ->].
  replace (2 * Z.of_nat (s + l) - 2 * Z.of_nat s <=? 2) with false
    by (symmetry; apply Z.leb_gt; lia).
  destruct H as [H _]. apply zero_run_bounds in H.
  apply (write_groups_compressed ip Hlen); lia.
Qed.

Lemma compressed_text (ip : net.IP) (s l : nat) :
  (s + l <= 8)%nat ->
  String.concat ":" (map hex (firstn s (groups ip))) ++ "::"
    ++ String.concat ":" (map hex (skipn (s + l) (groups ip)))
  = segment ip 0 s ++ "::"
    ++ match (8 - (s + l))%nat with
       | O => ""
       | S m => hex (group_value ip (s + l)) ++ segment ip (S (s + l)) m
       end.
Proof.
  intros H. rewrite firstn_groups, skipn_groups by lia.
  rewrite concat_segment_0.
  destruct (8 - (s + l))%nat as [|m]; [reflexivity|].
  now rewrite concat_segment.
Qed.

(** ** [hexString] *)

Lemma nibble_check_all (b : byte) : nibble_check b = true.
Proof. revert b. apply forall_bytes. vm_compute. reflexivity. Qed.

Lemma nibbles (b : byte) :
  Go.str_index hexDigit (Z.shiftr (Go.u8 b) 4) = Some (hex_char (Go.u8 b / 16)) /\
  Go.str_index hexDigit (Z.land (Go.u8 b) 15) = Some (hex_char (Go.u8 b mod 16)).
Proof.
  pose proof (nibble_check_all b) as H. unfold nibble_check in H.
  destruct (Go.str_index hexDigit (Z.shiftr (Go.u8 b) 4)) as [hi|]; [|discriminate].
  destruct (Go.str_index hexDigit (Z.land (Go.u8 b) 15)) as [lo|]; [|discriminate].
  rewrite !andb_true_iff in H. destruct H as [[H1 H2] _].
  apply Ascii.eqb_eq in H1. apply Ascii.eqb_eq in H2. now subst.
Qed.

Lemma store_app {A : Type} (pre t : list A) (x c : A) (n : nat) :
  List.length pre = n ->
  Go.store (pre ++ x :: t)%list (Z.of_nat n) c = Some (pre ++ c :: t)%list.
Proof.
  intros H. unfold Go.store, Go.len. rewrite length_app. cbn [List.length].
  replace (Z.of_nat n <? 0) with false by (symmetry; apply Z.ltb_ge; lia).
  replace (Z.of_nat (List.length pre + S (List.length t)) <=? Z.of_nat n)
    with false by (symmetry; apply Z.leb_gt; lia).
  cbn [orb]. rewrite Nat2Z.id. f_equal. subst n.
  induction pre as [|y pre IH]; cbn; [reflexivity|now rewrite IH].
Qed.

Lemma hexString_loop_spec (b : list byte) :
  forall (pre : list ascii) (i : nat),
    List.length pre = (2 * i)%nat ->
    hexString_loop b (Z.of_nat i) (pre ++ repeat zero (2 * List.length b))%list
    = Some (pre ++ flat_map two_hex b)%list.
Proof.
  induction b as [|tn rest IH]; intros pre i Hpre.
  - reflexivity.
  - cbn [hexString_loop]. destruct (nibbles tn) as [-> ->]. cbn [bind].
    replace (2 * List.length (tn :: rest))%nat
      with (S (S (2 * List.length rest))) by (cbn [List.length]; lia).
    cbn [repeat].
    replace (Z.of_nat i * 2) with (Z.of_nat (2 * i)) by lia.
    rewrite store_app by assumption. cbn [bind].
    replace (Z.of_nat (2 * i) + 1) with (Z.of_nat (S (2 * i))) by lia.
    set (hi := hex_char (Go.u8 tn / 16)). set (z := repeat zero (2 * List.length rest)).
    change (pre ++ hi :: zero :: z)%list with (pre ++ [hi] ++ zero :: z)%list.
    rewrite app_assoc.
    rewrite store_app by (rewrite length_app; cbn [List.length]; lia).
    cbn [bind].
    replace (Z.of_nat i + 1) with (Z.of_nat (S i)) by lia.
    replace ((pre ++ [hi]) ++ hex_char (Go.u8 tn mod 16) :: z)%list
      with ((pre ++ two_hex tn) ++ z)%list
      by (unfold two_hex; fold hi; now rewrite <- !app_assoc).
    subst z.
    rewrite IH by (rewrite length_app; cbn [List.length two_hex]; lia).
    cbn [flat_map]. now rewrite <- app_assoc.
Qed.

Lemma hexString_spec (b : list byte) : hexString b = Some (hex_dump b).
Proof.
  unfold hexString, Go.len.
  replace (Z.to_nat (Z.of_nat (List.length b) * 2)) with (2 * List.length b)%nat
    by lia.
  pose proof (hexString_loop_spec b [] 0%nat eq_refl) as H.
  cbn [app Z.of_nat] in H. rewrite H. reflexivity.
Qed.

Lemma hex_dump_length (b : list byte) :
  String.length (hex_dump b) = (2 * List.length b)%nat.
Proof.
  unfold hex_dump. rewrite string_of_list_ascii_length.
  induction b as [|x b IH]; [reflexivity|].
  cbn [flat_map List.length two_hex app]. cbn [List.length]. lia.
Qed.

(** ** The address formatter: theorems *)

Lemma colon_free_app (a b : string) :
  colon_free (a ++ b) = colon_free a && colon_free b.
Proof.
  induction a as [|c a IH]; [reflexivity|].
  cbn [append colon_free]. now rewrite IH, andb_assoc.
Qed.

Lemma decimal_colon_free (b : byte) : colon_free (decimal (Go.u8 b)) = true.
Proof. revert b. apply forall_bytes. vm_compute. reflexivity. Qed.

Lemma IPString_4 (a b c d : byte) : IPString [a; b; c; d] = Some (dotted a b c d).
Proof. unfold IPString. cbn -[convertIPv4]. apply convertIPv4_spec. Qed.

(** C7. The text of a 4-byte address is its four octets in decimal,
    joined by '.'; every octet text is a decimal numeral of the octet's
    value, between 0 and 255, without leading zeros (0 is "0"). *)
Theorem IPString_dotted_decimal (a b c d : byte) :
  IPString [a; b; c; d]
  = Some (decimal (Go.u8 a) ++ "." ++ decimal (Go.u8 b) ++ "."
          ++ decimal (Go.u8 c) ++ "." ++ decimal (Go.u8 d))
  /\ Forall (fun x => decimal_text (decimal (Go.u8 x)) (Go.u8 x) = true
                      /\ 0 <= Go.u8 x <= 255
                      /\ (Go.u8 x = 0 -> decimal (Go.u8 x) = "0"))
            [a; b; c; d].
Proof.
  split; [apply IPString_4|].
  repeat constructor; try apply decimal_octet_text; try apply u8_range;
    intros ->; reflexivity.
Qed.

(** C10. A 16-byte address of the IPv4-mapped form is written as the
    4-byte address of its last four bytes: dotted decimal, without any
    colon. *)
Theorem IPString_ipv4_mapped (a b c d : byte) :
  let ip := [x00; x00; x00; x00; x00; x00; x00; x00; x00; x00; xff; xff;
             a; b; c; d] in
  IPString ip = IPString [a; b; c; d]
  /\ IPString ip = Some (dotted a b c d)
  /\ colon_free (dotted a b c d) = true.
Proof.
  cbv zeta.
  assert (E : IPString [x00; x00; x00; x00; x00; x00; x00; x00; x00; x00;
                        xff; xff; a; b; c; d] = Some (dotted a b c d)).
  { unfold IPString. cbn -[convertIPv4]. apply convertIPv4_spec. }
  rewrite E, IPString_4. split; [reflexivity|split; [reflexivity|]].
  unfold dotted. rewrite !colon_free_app, !decimal_colon_free. reflexivity.
Qed.

(** C9. The empty address is written "<nil>"; an address of any other
    length than 4 and 16 is written as '?' and two lowercase
    hexadecimal digits for each byte, in order. *)
Theorem IPString_other_lengths :
  IPString [] = Some "<nil>"
  /\ forall ip : net.IP,
       ip <> [] -> List.length ip <> 4%nat -> List.length ip <> 16%nat ->
       IPString ip = Some ("?" ++ hex_dump ip)
       /\ hex_dump ip = string_of_list_ascii (flat_map two_hex ip)
       /\ String.length ("?" ++ hex_dump ip) = (1 + 2 * List.length ip)%nat.
Proof.
  split; [reflexivity|]. intros ip Hne H4 H16.
  split; [|split; [reflexivity|]].
  - unfold IPString, net.To4, Go.len, net.IPv4len, net.IPv6len. cbv zeta.
    replace (Z.of_nat (List.length ip) =? 0) with false
      by (symmetry; apply Z.eqb_neq; destruct ip; [congruence|cbn; lia]).
    replace (Z.of_nat (List.length ip) =? 4) with false
      by (symmetry; apply Z.eqb_neq; lia).
    replace (Z.of_nat (List.length ip) =? 16) with false
      by (symmetry; apply Z.eqb_neq; lia).
    cbn [andb net.len_opt Z.eqb negb]. now rewrite hexString_spec.
  - cbn [append String.length]. now rewrite hex_dump_length.
Qed.

(** An address of three bytes. *)
Lemma IPString_other_lengths_witness :
  IPString [x00; x01; xab] = Some "?0001ab"
  /\ String.length "?0001ab" = 7%nat.
Proof.
  destruct IPString_other_lengths as [_ H].
  destruct (H [x00; x01; xab]) as (E & _ & L);
    [discriminate | cbn; lia | cbn; lia |].
  split; [exact E | exact L].
Defined.

(** C6. A 16-byte address without two neighbouring zero groups is
    written as its eight groups in lowercase hexadecimal without
    leading zeros, joined by ':'; "::" does not occur, and a zero group
    is written "0". *)
Theorem IPString_ipv6_uncompressed (ip : net.IP) :
  List.length ip = 16%nat ->
  no_zero_pair (zero_groups ip) ->
  IPString ip = Some (String.concat ":" (map hex (groups ip)))
  /\ List.length (groups ip) = 8%nat
  /\ Forall (fun g => hex_text (hex g) g = true) (groups ip)
  /\ occurrences "::" (String.concat ":" (map hex (groups ip))) = 0%nat
  /\ (forall k, (k < 8)%nat -> nth k (groups ip) 0 = 0 ->
                nth k (map hex (groups ip)) "" = "0").
Proof.
  intros Hlen H. split; [|split; [|split; [|split]]].
  - rewrite (IPString_16 ip Hlen (no_zero_pair_To4 ip Hlen H)).
    now apply convertIPv6_plain.
  - apply groups_length.
  - apply groups_text.
  - unfold groups. rewrite concat_segment_0.
    rewrite <- (append_nil_r (segment ip 0 8)).
    now rewrite occurrences_segment.
  - intros k Hk E.
    rewrite nth_indep with (d' := hex 0)
      by (rewrite length_map, groups_length; lia).
    rewrite map_nth, E. reflexivity.
Qed.

(** 2001:db8:0:1:0:1:0:1 has no two neighbouring zero groups. *)
Lemma IPString_ipv6_uncompressed_witness :
  no_zero_pair (zero_groups sample_uncompressed)
  /\ IPString sample_uncompressed = Some "2001:db8:0:1:0:1:0:1".
Proof.
  assert (H : no_zero_pair (zero_groups sample_uncompressed))
    by (apply no_zero_pair_decide; vm_compute; reflexivity).
  split; [exact H|].
  exact (proj1 (IPString_ipv6_uncompressed sample_uncompressed eq_refl H)).
Defined.

(** C5. When the longest run of zero groups of a 16-byte address that
    [To4] rejects, the earliest among the longest, has at least two
    groups, that run is written "::": the text is the groups before it
    joined by ':', then "::", then the groups after it joined by ':',
    every group in lowercase hexadecimal without leading zeros; "::"
    occurs once. *)
Theorem IPString_ipv6_compressed (ip : net.IP) (s l : nat) :
  List.length ip = 16%nat ->
  net.To4 ip = None ->
  longest_run (zero_groups ip) s l ->
  (2 <= l)%nat ->
  let text := String.concat ":" (map hex (firstn s (groups ip))) ++ "::"
              ++ String.concat ":" (map hex (skipn (s + l) (groups ip))) in
  IPString ip = Some text
  /\ Forall (fun g => hex_text (hex g) g = true) (groups ip)
  /\ occurrences "::" text = 1%nat.
Proof.
  intros Hlen H4 H Hl. cbv zeta.
  assert (Hb : (s + l <= 8)%nat)
    by (destruct H as [H _]; apply zero_run_bounds in H; lia).
  rewrite (compressed_text ip s l Hb). split; [|split].
  - rewrite (IPString_16 ip Hlen H4). now apply convertIPv6_compressed.
  - apply groups_text.
  - rewrite occurrences_segment.
    destruct (8 - (s + l))%nat as [|m]; [reflexivity|].
    destruct (hex_text_word _ _ (group_text ip (s + l)%nat)) as [Hne Hcf].
    rewrite occurrences_double_colon by (now apply starts_plain_app).
    rewrite occurrences_word_app by assumption.
    rewrite <- (append_nil_r (segment ip (S (s + l)) m)).
    now rewrite occurrences_segment.
Qed.

(** In 2001:db8:0:0:1:0:0:1 two runs of two zero groups tie; the first
    is compressed. *)
Lemma IPString_ipv6_compressed_witness :
  longest_run (zero_groups sample_compressed) 2 2
  /\ IPString sample_compressed = Some "2001:db8::1:0:0:1".
Proof.
  assert (H : longest_run (zero_groups sample_compressed) 2 2)
    by (apply longest_run_decide; vm_compute; reflexivity).
  split; [exact H|].
  exact (proj1 (IPString_ipv6_compressed sample_compressed 2 2
                  eq_refl eq_refl H (le_n 2))).
Defined.

(** ** [IPString] never panics *)

Lemma convertIPv6_total (ip : net.IP) :
  List.length ip = 16%nat -> exists s, convertIPv6 ip = Some s.
Proof.
  intros Hlen. unfold convertIPv6.
  destruct (search_result ip Hlen) as (e0 & e1 & E & _ & _ & Hcase).
  rewrite E. cbn [bind].
  destruct (e1 - e0 <=? 2) eqn:Hle.
  - rewrite (write_groups_plain ip Hlen). now eexists.
  - apply Z.leb_gt in Hle.
    destruct Hcase as [[-> ->]|(s & l & Hl & Hs & -> & ->)]; [lia|].
    rewrite (write_groups_compressed ip Hlen s l Hl Hs). now eexists.
Qed.

Lemma To4_length (ip q : net.IP) : net.To4 ip = Some q -> List.length q = 4%nat.
Proof.
  unfold net.To4, Go.len, net.IPv4len, net.IPv6len.
  destruct (Z.eqb_spec (Z.of_nat (List.length ip)) 4) as [E|E].
  - intros [= <-]. lia.
  - destruct (Z.eqb_spec (Z.of_nat (List.length ip)) 16) as [E'|E'];
      cbn [andb]; [|discriminate].
    destruct (net.isZeros (firstn 10 ip) && net.byte_is ip 10 255
              && net.byte_is ip 11 255); [|discriminate].
    intros [= Hq]. change (skipn 12 ip = q) in Hq.
    rewrite <- Hq, length_skipn. lia.
Qed.

Lemma To4_other_lengths (ip : net.IP) :
  List.length ip <> 4%nat -> List.length ip <> 16%nat -> net.To4 ip = None.
Proof.
  intros H4 H16. unfold net.To4, Go.len, net.IPv4len, net.IPv6len.
  replace (Z.of_nat (List.length ip) =? 4) with false
    by (symmetry; apply Z.eqb_neq; lia).
  replace (Z.of_nat (List.length ip) =? 16) with false
    by (symmetry; apply Z.eqb_neq; lia).
  reflexivity.
Qed.

(** The text of an address that [To4] accepts. *)
Lemma IPString_To4 (ip : net.IP) (a b c d : byte) :
  net.To4 ip = Some [a; b; c; d] -> IPString ip = Some (dotted a b c d).
Proof.
  intros H. unfold IPString. cbv zeta. rewrite H.
  destruct (Go.len ip =? 0) eqn:E0.
  - apply Z.eqb_eq in E0. unfold Go.len in E0.
    destruct ip; [vm_compute in H; discriminate | cbn [List.length] in E0; lia].
  - cbn -[convertIPv4]. apply convertIPv4_spec.
Qed.

Lemma IPString_total (ip : net.IP) : exists s, IPString ip = Some s.
Proof.
  destruct (net.To4 ip) as [q|] eqn:E4.
  - pose proof (To4_length ip q E4) as Hq.
    do 4 (destruct q as [|? q]; try discriminate).
    destruct q; try discriminate.
    rewrite (IPString_To4 ip _ _ _ _ E4). now eexists.
  - destruct (Nat.eq_dec (List.length ip) 16) as [H16|H16].
    + rewrite (IPString_16 ip H16 E4). now apply convertIPv6_total.
    + unfold IPString. cbv zeta. rewrite E4.
      destruct (Go.len ip =? 0); [now eexists|].
      cbn [net.len_opt Z.eqb].
      replace (Go.len ip =? net.IPv6len) with false
        by (symmetry; apply Z.eqb_neq; unfold Go.len, net.IPv6len; lia).
      cbn [negb]. rewrite hexString_spec. cbn [bind]. now eexists.
Qed.

(** ** The trailing colon of the host *)

Lemma LastIndex_from_colon (h : string) (i : Z) :
  0 <= i ->
  strings.LastIndex_from (h ++ ":") ":" i = i + Z.of_nat (String.length h).
Proof.
  revert i. induction h as [|c h IH]; intros i Hi.
  - cbn. destruct (i + 1 >=? 0); lia.
  - cbn [append strings.LastIndex_from String.length]. cbv zeta.
    rewrite IH by lia.
    replace (i + 1 + Z.of_nat (String.length h) >=? 0) with true
      by (symmetry; apply Z.geb_le; lia).
    lia.
Qed.

Lemma LastIndex_from_bracket (h : string) (i : Z) :
  0 <= i ->
  strings.LastIndex_from (h ++ ":") "]" i < i + Z.of_nat (String.length h).
Proof.
  revert i. induction h as [|c h IH]; intros i Hi.
  - cbn. lia.
  - cbn [append strings.LastIndex_from String.length]. cbv zeta.
    specialize (IH (i + 1) ltac:(lia)).
    destruct (strings.LastIndex_from (h ++ ":") "]" (i + 1) >=? 0); [lia|].
    destruct (String.prefix "]" (String c (h ++ ":"))); lia.
Qed.

Lemma HasSuffix_iff (s t : string) :
  strings.HasSuffix s t = true <-> exists h, s = h ++ t.
Proof.
  split.
  - induction s as [|c s IH]; cbn [strings.HasSuffix]; intros H.
    + rewrite orb_false_r in H. apply String.eqb_eq in H. subst t. now exists "".
    + apply orb_true_iff in H. destruct H as [H|H].
      * apply String.eqb_eq in H. subst t. now exists "".
      * destruct (IH H) as [h ->]. now exists (String c h).
  - intros [h ->]. induction h as [|c h IH].
    + cbn [append]. destruct t; cbn [strings.HasSuffix];
        now rewrite String.eqb_refl.
    + cbn [append strings.HasSuffix]. now rewrite IH, orb_true_r.
Qed.

Lemma substring_app (h t : string) :
  String.substring 0 (String.length h) (h ++ t) = h.
Proof.
  induction h as [|c h IH]; cbn [String.length append String.substring].
  - now destruct t.
  - now rewrite IH.
Qed.

Lemma TrimSuffix_app (h t : string) : strings.TrimSuffix (h ++ t) t = h.
Proof.
  unfold strings.TrimSuffix.
  replace (strings.HasSuffix (h ++ t) t) with true
    by (symmetry; apply HasSuffix_iff; now exists h).
  rewrite append_length, Nat.add_sub. apply substring_app.
Qed.

Lemma last_colon_after_bracket (h : string) :
  strings.LastIndex (h ++ ":") ":" > strings.LastIndex (h ++ ":") "]".
Proof.
  unfold strings.LastIndex.
  rewrite LastIndex_from_colon by lia.
  pose proof (LastIndex_from_bracket h 0 ltac:(lia)). lia.
Qed.

Lemma strip_trailing_colon_app (h : string) : strip_trailing_colon (h ++ ":") = h.
Proof.
  unfold strip_trailing_colon.
  replace (strings.LastIndex (h ++ ":") ":" >? strings.LastIndex (h ++ ":") "]")
    with true
    by (symmetry; apply Z.gtb_lt; pose proof (last_colon_after_bracket h); lia).
  apply TrimSuffix_app.
Qed.

(** C8. The trailing colon of a host is removed exactly when the last
    ':' comes after the last ']' (which is always so for a host that
    ends in ':'); a host that does not end in ':' is unchanged, and so
    is one whose last ':' is not after its last ']'. *)
Theorem strip_trailing_colon_spec :
  (forall h,
      strip_trailing_colon (h ++ ":") = h
      <-> strings.LastIndex (h ++ ":") ":" > strings.LastIndex (h ++ ":") "]")
  /\ (forall host,
         (forall h, host <> h ++ ":") -> strip_trailing_colon host = host)
  /\ (forall host,
         strings.LastIndex host ":" <= strings.LastIndex host "]" ->
         strip_trailing_colon host = host).
Proof.
  split; [|split].
  - intros h. split; intros _.
    + apply last_colon_after_bracket.
    + apply strip_trailing_colon_app.
  - intros host H. unfold strip_trailing_colon, strings.TrimSuffix.
    destruct (strings.HasSuffix host ":") eqn:E.
    + apply HasSuffix_iff in E. destruct E as [h E]. now elim (H h).
    + now destruct (_ >? _).
  - intros host H. unfold strip_trailing_colon.
    replace (strings.LastIndex host ":" >? strings.LastIndex host "]") with false;
      [reflexivity|].
    symmetry. rewrite Z.gtb_ltb. apply Z.ltb_ge. exact H.
Qed.

(** A host with a trailing colon, one without, and a bracketed one. *)
Lemma strip_trailing_colon_spec_witness :
  strip_trailing_colon "10.0.0.1:" = "10.0.0.1"
  /\ strip_trailing_colon "10.0.0.1" = "10.0.0.1"
  /\ strip_trailing_colon "[fe80::1]" = "[fe80::1]".
Proof.
  destruct strip_trailing_colon_spec as (A & B & C).
  split; [|split].
  - apply (A "10.0.0.1"). vm_compute. reflexivity.
  - apply B. intros h E.
    assert (H : strings.HasSuffix "10.0.0.1" ":" = true)
      by (apply HasSuffix_iff; now exists h).
    vm_compute in H. discriminate.
  - apply C. vm_compute. discriminate.
Defined.

(** ** Decimal numerals of any size *)

Lemma digits_numeral (d : Decimal.uint) (acc : Z) :
  numeral_value dec_digit 10 acc (DecimalString.NilEmpty.string_of_uint d)
  = Some (digits_value d acc).
Proof.
  revert acc. induction d; intros acc; cbn [DecimalString.NilEmpty.string_of_uint
    numeral_value digits_value]; [reflexivity|..];
    match goal with
    | |- context [dec_digit ?c] =>
        let v := eval vm_compute in (dec_digit c) in
        change (dec_digit c) with v
    end; apply IHd.
Qed.

Lemma of_uint_acc_value (d : Decimal.uint) (acc : positive) :
  Z.pos (Pos.of_uint_acc d acc) = digits_value d (Z.pos acc).
Proof.
  revert acc. induction d; intros acc; cbn [Pos.of_uint_acc digits_value];
    [reflexivity|..]; rewrite IHd; f_equal; lia.
Qed.

Lemma of_uint_value (d : Decimal.uint) :
  Z.of_N (Pos.of_uint d) = digits_value d 0.
Proof.
  induction d; cbn [Pos.of_uint digits_value]; [reflexivity|exact IHd|..];
    cbn [Z.of_N]; rewrite of_uint_acc_value; reflexivity.
Qed.

Lemma nzhead_head (d : Decimal.uint) :
  match Decimal.nzhead d with
  | Decimal.D0 _ => False
  | _ => True
  end.
Proof. induction d; cbn [Decimal.nzhead]; auto. Qed.

Lemma unorm_no_leading_zero (d : Decimal.uint) :
  no_leading_zero (DecimalString.NilEmpty.string_of_uint (Decimal.unorm d)) = true.
Proof.
  unfold Decimal.unorm. pose proof (nzhead_head d) as H.
  destruct (Decimal.nzhead d) as [|u|u|u|u|u|u|u|u|u|u]; try reflexivity;
    try contradiction;
    cbn [DecimalString.NilEmpty.string_of_uint no_leading_zero];
    destruct (DecimalString.NilEmpty.string_of_uint u); reflexivity.
Qed.

Lemma to_uint_text (n : N) :
  DecimalString.NilZero.string_of_uint (N.to_uint n)
  = DecimalString.NilEmpty.string_of_uint (N.to_uint n).
Proof.
  unfold DecimalString.NilZero.string_of_uint.
  destruct n as [|p]; [reflexivity|].
  cbn [N.to_uint]. pose proof (DecimalPos.Unsigned.to_uint_nonnil p) as H.
  now destruct (Pos.to_uint p).
Qed.

(** The decimal numeral of any natural number has its value and no
    leading zero. *)
Lemma decimal_numeral (n : Z) : 0 <= n -> decimal_text (decimal n) n = true.
Proof.
  intros H. unfold decimal_text, numeral_text, decimal.
  rewrite to_uint_text. set (m := Z.to_N n).
  assert (Hn : DecimalString.NilEmpty.string_of_uint (N.to_uint m)
               = DecimalString.NilEmpty.string_of_uint (Decimal.unorm (N.to_uint m))).
  { rewrite <- DecimalN.Unsigned.to_of. now rewrite DecimalN.Unsigned.of_to. }
  rewrite Hn at 1. rewrite unorm_no_leading_zero, digits_numeral.
  rewrite <- of_uint_value.
  change (Pos.of_uint (N.to_uint m)) with (N.of_uint (N.to_uint m)).
  rewrite DecimalN.Unsigned.of_to. unfold m. rewrite Z2N.id by exact H.
  now rewrite Z.eqb_refl.
Qed.

(** [strconv.Itoa] writes the decimal text of its argument. *)
Lemma Itoa_text (i : Z) : integer_text (Itoa i) i = true.
Proof.
  unfold integer_text, Itoa. destruct i as [|p|p].
  - reflexivity.
  - change (Z.pos p <? 0) with false. cbv iota.
    change (DecimalString.NilZero.string_of_int (Z.to_int (Z.pos p)))
      with (decimal (Z.pos p)).
    apply decimal_numeral. lia.
  - change (Z.neg p <? 0) with true. cbv iota.
    change (DecimalString.NilZero.string_of_int (Z.to_int (Z.neg p)))
      with (String "-" (decimal (Z.pos p))).
    cbv iota. change (Ascii.eqb "-" "-") with true. cbn [andb Z.opp].
    apply decimal_numeral. lia.
Qed.

(** ** The probes *)

(** C1. The connection probe dials the text of the address, a colon
    and the port. When the dial succeeds the connection is closed and
    the probe returns nil; when it fails with an error that implements
    [net.Error] and whose [Timeout()] is true the probe returns a failure
    of code 64, and with any other error a failure of code 4, each with
    its message and the text of the error. *)
Theorem PortHealthCheck_outcomes (w : World) (h : HealthCheck) (ip : net.IP) :
  exists s,
    IPString ip = Some s /\
    let address := s ++ ":" ++ port h in
    let dial := EvDial (network h) address (timeout h) in
    (forall conn,
        DialTimeout w (network h) address (timeout h) = inl conn ->
        PortHealthCheck w h ip = Some (None, [dial; EvConnClose conn]))
    /\ (forall detail,
           DialTimeout w (network h) address (timeout h)
           = inr (NetError true detail) ->
           PortHealthCheck w h ip
           = Some (Some {| Code := 64;
                           Message := "timeout when making TCP connection: "
                                      ++ detail |},
                   [dial]))
    /\ (forall detail,
           DialTimeout w (network h) address (timeout h)
           = inr (NetError false detail) ->
           PortHealthCheck w h ip
           = Some (Some {| Code := 4;
                           Message := "failure to make TCP connection: "
                                      ++ detail |},
                   [dial]))
    /\ (forall detail,
           DialTimeout w (network h) address (timeout h)
           = inr (OtherError detail) ->
           PortHealthCheck w h ip
           = Some (Some {| Code := 4;
                           Message := "failure to make TCP connection: "
                                      ++ detail |},
                   [dial])).
Proof.
  destruct (IPString_total ip) as [s E]. exists s. split; [exact E|].
  cbv zeta. unfold PortHealthCheck. rewrite E. cbn [lift bindR].
  split; [|split; [|split]]; intros x Hx; rewrite Hx; reflexivity.
Qed.

(** The three outcomes, on 10.0.0.2 with port 8080. *)
Lemma PortHealthCheck_outcomes_witness :
  PortHealthCheck accepting port_8080 ip_10_0_0_2
  = Some (None, [dial_8080; EvConnClose {| fd := 3 |}])
  /\ PortHealthCheck timing_out port_8080 ip_10_0_0_2
     = Some (Some {| Code := 64;
                     Message := "timeout when making TCP connection: dial tcp 10.0.0.2:8080: i/o timeout" |},
             [dial_8080])
  /\ PortHealthCheck refusing port_8080 ip_10_0_0_2
     = Some (Some refused_4, [dial_8080]).
Proof.
  split; [|split].
  - destruct (PortHealthCheck_outcomes accepting port_8080 ip_10_0_0_2)
      as (s & E & H & _).
    vm_compute in E. injection E as <-. exact (H _ eq_refl).
  - destruct (PortHealthCheck_outcomes timing_out port_8080 ip_10_0_0_2)
      as (s & E & _ & H & _).
    vm_compute in E. injection E as <-. exact (H _ eq_refl).
  - destruct (PortHealthCheck_outcomes refusing port_8080 ip_10_0_0_2)
      as (s & E & _ & _ & H & _).
    vm_compute in E. injection E as <-. exact (H _ eq_refl).
Defined.

Lemma noopReadAll_spec (body : list ReadResult) :
  exists events,
    noopReadAll body = Some (tt, events) /\ read_to_error body events.
Proof.
  induction body as [|[n err] body IH].
  - exists [EvRead (0, Some io_EOF)]. split; [reflexivity|].
    exists [], (0, Some io_EOF), []. repeat split; [constructor|discriminate].
  - cbn [noopReadAll]. destruct err as [e|].
    + exists [EvRead (n, Some e)]. split; [reflexivity|].
      exists [], (n, Some e), (body ++ [(0, Some io_EOF)])%list.
      repeat split; [constructor|discriminate].
    + destruct IH as (events & E & before & last & rest & -> & Hb & Hl & Hp).
      exists (EvRead (n, None) :: map EvRead before ++ [EvRead last])%list.
      split; [cbn [emit bindR]; now rewrite E|].
      exists ((n, None) :: before), last, rest.
      repeat split; [now constructor|exact Hl|].
      cbn [app]. now rewrite Hp.
Qed.

(** A body whose reads fail only with [io.EOF] is read to its end. *)
Lemma read_to_error_drained (body : list ReadResult) (reads : list Event) :
  reads_to_end body -> read_to_error body reads -> drained reads.
Proof.
  intros Hbody (before & last & rest & -> & Hbefore & Hlast & Hsplit).
  assert (Hall : Forall (fun r : ReadResult => snd r = None \/ snd r = Some io_EOF)
                   (body ++ [(0, Some io_EOF)])%list).
  { apply Forall_app. split; [exact Hbody|]. constructor; [now right|constructor]. }
  rewrite Hsplit in Hall. apply Forall_app in Hall. destruct Hall as [_ Hall].
  inversion Hall as [|? ? Hl _]; subst.
  destruct last as [n err]. cbn [snd] in *.
  destruct Hl as [Hl|Hl]; [congruence|]. subst err.
  exists before, n. now split.
Qed.

(** C2, as the code has it. The HTTP probe parses
    http://address:port/uri; a parse error gives a failure of code -1.
    Otherwise one GET request without body is made. On a response the
    body is read until a [Read] returns an error, and closed; a body
    whose reads fail only with [io.EOF] is thereby read to its end.
    Then status 200 gives nil and any other status a failure of code 6
    with the status in decimal. A request error that implements
    [net.Error] and whose [Timeout()] is true gives a failure of code
    65, any other request error one of code 5. *)
Theorem HTTPHealthCheck_outcomes (w : World) (h : HealthCheck) (ip : net.IP) :
  exists s,
    IPString ip = Some s /\
    let target := "http://" ++ s ++ ":" ++ port h ++ uri h in
    (forall timeout detail,
        url_Parse w target = inr (NetError timeout detail) ->
        HTTPHealthCheck w h ip
        = Some (Some {| Code := -1;
                        Message := "failed to parse URL: " ++ detail |}, []))
    /\ (forall detail,
           url_Parse w target = inr (OtherError detail) ->
           HTTPHealthCheck w h ip
           = Some (Some {| Code := -1;
                           Message := "failed to parse URL: " ++ detail |}, []))
    /\ (forall u,
           url_Parse w target = inl u ->
           let req := get_request (set_Host u (strip_trailing_colon (Host u))) in
           let do := EvDo (timeout h) req in
           Method req = "GET" /\ ReqBody req = None
           /\ (forall resp,
                  client_Do w (timeout h) req = inl resp ->
                  exists reads,
                    read_to_error (Body resp) reads
                    /\ (reads_to_end (Body resp) -> drained reads)
                    /\ (StatusCode resp = 200 ->
                        HTTPHealthCheck w h ip
                        = Some (None, (do :: reads ++ [EvBodyClose])%list))
                    /\ (StatusCode resp <> 200 ->
                        exists d,
                          integer_text d (StatusCode resp) = true
                          /\ HTTPHealthCheck w h ip
                             = Some (Some {| Code := 6;
                                             Message := "failure to get valid HTTP status code: "
                                                        ++ d |},
                                     (do :: reads ++ [EvBodyClose])%list)))
           /\ (forall detail,
                  client_Do w (timeout h) req = inr (NetError true detail) ->
                  HTTPHealthCheck w h ip
                  = Some (Some {| Code := 65;
                                  Message := "timeout when making HTTP request: "
                                             ++ detail |},
                          [do]))
           /\ (forall detail,
                  client_Do w (timeout h) req = inr (NetError false detail) ->
                  HTTPHealthCheck w h ip
                  = Some (Some {| Code := 5;
                                  Message := "failure to make HTTP request: "
                                             ++ detail |},
                          [do]))
           /\ (forall detail,
                  client_Do w (timeout h) req = inr (OtherError detail) ->
                  HTTPHealthCheck w h ip
                  = Some (Some {| Code := 5;
                                  Message := "failure to make HTTP request: "
                                             ++ detail |},
                          [do]))).
Proof.
  destruct (IPString_total ip) as [s E]. exists s. split; [exact E|].
  cbv zeta. unfold HTTPHealthCheck. rewrite E. cbn [lift bindR].
  split; [|split].
  - intros timeout detail H. rewrite H. reflexivity.
  - intros detail H. rewrite H. reflexivity.
  - intros u H. rewrite H. cbv zeta.
    split; [reflexivity|]. split; [reflexivity|].
    split; [|split; [|split]]; try (intros detail Hd; rewrite Hd; reflexivity).
    intros resp Hresp. rewrite Hresp.
    destruct (noopReadAll_spec (Body resp)) as (reads & R & Hreads).
    exists reads. split; [exact Hreads|].
    split; [intros Hbody; now apply (read_to_error_drained (Body resp))|].
    cbn [emit bindR]. rewrite R. unfold http_StatusOK. split.
    + intros ->. reflexivity.
    + intros Hne. exists (Itoa (StatusCode resp)).
      split; [apply Itoa_text|].
      destruct (Z.eqb_spec (StatusCode resp) 200) as [H200|_]; [contradiction|].
      reflexivity.
Qed.

(** The outcomes on 10.0.0.2 with port 8080 and the URI /api/_ping. *)
Lemma HTTPHealthCheck_outcomes_witness :
  HTTPHealthCheck bad_url ping_check ip_10_0_0_2
  = Some (Some {| Code := -1;
                  Message := "failed to parse URL: invalid URL escape" |}, [])
  /\ (exists reads,
         drained reads
         /\ HTTPHealthCheck ping_200 ping_check ip_10_0_0_2
            = Some (None,
                    (EvDo 1000000000 (get_request ping_url)
                     :: reads ++ [EvBodyClose])%list))
  /\ (exists reads d,
         integer_text d 500 = true
         /\ HTTPHealthCheck ping_500 ping_check ip_10_0_0_2
            = Some (Some {| Code := 6;
                            Message := "failure to get valid HTTP status code: "
                                       ++ d |},
                    (EvDo 1000000000 (get_request ping_url)
                     :: reads ++ [EvBodyClose])%list))
  /\ HTTPHealthCheck ping_timeout ping_check ip_10_0_0_2
     = Some (Some {| Code := 65;
                     Message := "timeout when making HTTP request: Client.Timeout exceeded while awaiting headers" |},
             [EvDo 1000000000 (get_request ping_url)])
  /\ HTTPHealthCheck ping_refused ping_check ip_10_0_0_2
     = Some (Some {| Code := 5;
                     Message := "failure to make HTTP request: connect: connection refused" |},
             [EvDo 1000000000 (get_request ping_url)]).
Proof.
  split; [|split; [|split; [|split]]].
  - destruct (HTTPHealthCheck_outcomes bad_url ping_check ip_10_0_0_2)
      as (s & E & _ & H & _).
    exact (H _ eq_refl).
  - destruct (HTTPHealthCheck_outcomes ping_200 ping_check ip_10_0_0_2)
      as (s & E & _ & _ & H).
    destruct (H ping_url eq_refl) as (_ & _ & H200 & _).
    destruct (H200 _ eq_refl) as (reads & _ & D & E200 & _).
    exists reads. split; [|exact (E200 eq_refl)].
    apply D. repeat constructor.
  - destruct (HTTPHealthCheck_outcomes ping_500 ping_check ip_10_0_0_2)
      as (s & E & _ & _ & H).
    destruct (H ping_url eq_refl) as (_ & _ & Hresp & _).
    destruct (Hresp _ eq_refl) as (reads & _ & _ & _ & E500).
    destruct (E500 ltac:(discriminate)) as (d & Hd & Ed).
    exists reads, d. split; [exact Hd|exact Ed].
  - destruct (HTTPHealthCheck_outcomes ping_timeout ping_check ip_10_0_0_2)
      as (s & E & _ & _ & H).
    destruct (H ping_url eq_refl) as (_ & _ & _ & H65 & _).
    exact (H65 _ eq_refl).
  - destruct (HTTPHealthCheck_outcomes ping_refused ping_check ip_10_0_0_2)
      as (s & E & _ & _ & H).
    destruct (H ping_url eq_refl) as (_ & _ & _ & _ & H5 & _).
    exact (H5 _ eq_refl).
Defined.

(** C2, as stated, fails on [cut_short]: the response has status 200
    and the second [Read] of its body fails with a timeout. The reading
    stops there, short of the end of the body, and the probe returns
    nil. *)
Lemma HTTPHealthCheck_body_cut_short :
  HTTPHealthCheck cut_short ping_check ip_10_0_0_2
  = Some (None,
          [EvDo 1000000000 (get_request ping_url);
           EvRead (512, None); EvRead (0, Some body_timeout); EvBodyClose])
  /\ ~ drained [EvRead (512, None); EvRead (0, Some body_timeout)].
Proof.
  split; [vm_compute; reflexivity|].
  intros (before & n & E & _).
  assert (L : last [EvRead (512, None); EvRead (0, Some body_timeout)] EvBodyClose
              = EvRead (n, Some io_EOF))
    by (rewrite E; apply last_last).
  cbn in L. discriminate.
Qed.

(** ** Interface selection *)

Lemma probes_app (t u : list Event) : probes (t ++ u) = (probes t + probes u)%nat.
Proof. unfold probes. now rewrite filter_app, length_app. Qed.

Lemma probes_reads (body : list ReadResult) (events : list Event) :
  read_to_error body events -> probes events = 0%nat.
Proof.
  intros (before & last & rest & -> & _). rewrite probes_app.
  replace (probes (map EvRead before)) with 0%nat; [reflexivity|].
  induction before as [|r before IH]; [reflexivity|exact IH].
Qed.

Lemma probes_Addrs (l : list Interface) : probes (map EvAddrs l) = 0%nat.
Proof. induction l as [|i l IH]; [reflexivity|exact IH]. Qed.

Lemma PortHealthCheck_total (w : World) (h : HealthCheck) (ip : net.IP) :
  exists r t, PortHealthCheck w h ip = Some (r, t) /\ (probes t <= 1)%nat.
Proof.
  destruct (IPString_total ip) as [s E].
  unfold PortHealthCheck. rewrite E. cbn [lift bindR].
  destruct (DialTimeout w (network h) (s ++ ":" ++ port h) (timeout h))
    as [conn|err].
  - do 2 eexists. split; [reflexivity|]. cbn. lia.
  - destruct (is_timeout err); do 2 eexists; (split; [reflexivity|cbn; lia]).
Qed.

Lemma HTTPHealthCheck_total (w : World) (h : HealthCheck) (ip : net.IP) :
  exists r t, HTTPHealthCheck w h ip = Some (r, t) /\ (probes t <= 1)%nat.
Proof.
  destruct (IPString_total ip) as [s E].
  unfold HTTPHealthCheck. rewrite E. cbn [lift bindR].
  destruct (url_Parse w ("http://" ++ s ++ ":" ++ port h ++ uri h)) as [u|err].
  - cbv zeta.
    destruct (client_Do w (timeout h)
                (get_request (set_Host u (strip_trailing_colon (Host u)))))
      as [resp|err].
    + destruct (noopReadAll_spec (Body resp)) as (reads & R & Hreads).
      cbn [emit bindR]. rewrite R.
      pose proof (probes_reads _ _ Hreads) as P.
      destruct (StatusCode resp =? http_StatusOK); do 2 eexists;
        (split; [reflexivity|]); cbn [app];
        change (EvDo ?a ?b :: ?l) with ([EvDo a b] ++ l)%list;
        rewrite !probes_app, P; cbn; lia.
    + destruct (is_timeout err); do 2 eexists; (split; [reflexivity|cbn; lia]).
  - do 2 eexists. split; [reflexivity|cbn; lia].
Qed.

Lemma probe_of_total (w : World) (h : HealthCheck) (ip : net.IP) :
  exists r t, probe_of w h ip = Some (r, t) /\ (probes t <= 1)%nat.
Proof.
  unfold probe_of. destruct (_ =? 0).
  - apply PortHealthCheck_total.
  - apply HTTPHealthCheck_total.
Qed.

Lemma check_addrs_find (probe : net.IP -> Run error) (addrs : list Addr) :
  check_addrs probe addrs
  = match find qualifies addrs with
    | Some a => err <~ probe (addr_IP a) ;; ret (Some err)
    | None => ret None
    end.
Proof.
  induction addrs as [|a addrs IH]; [reflexivity|].
  cbn [check_addrs find]. destruct a as [n|ip zone]; cbn [qualifies addr_IP].
  - unfold suitable. now destruct (negb _ && _).
  - exact IH.
Qed.

Lemma find_app_first {A : Type} (f : A -> bool) (l l' : list A) :
  find f (l ++ l')
  = match find f l with
    | Some a => Some a
    | None => find f l'
    end.
Proof.
  induction l as [|x l IH]; [reflexivity|].
  cbn [app find]. now destruct (f x).
Qed.

Lemma find_existsb {A : Type} (f : A -> bool) (l : list A) :
  existsb f l = match find f l with Some _ => true | None => false end.
Proof.
  induction l as [|x l IH]; [reflexivity|].
  cbn [existsb find]. now destruct (f x).
Qed.

Lemma check_interfaces_find (w : World) (probe : net.IP -> Run error)
  (interfaces : list Interface) :
  (forall ip, exists r t, probe ip = Some (r, t)) ->
  match find qualifies (listed w interfaces) with
  | Some a =>
      exists r t,
        probe (addr_IP a) = Some (r, t)
        /\ check_interfaces w probe interfaces
           = Some (r, (map EvAddrs (inspected w interfaces) ++ t)%list)
  | None =>
      check_interfaces w probe interfaces
      = Some (failure 3 "failure to find suitable interface",
              map EvAddrs interfaces)
  end.
Proof.
  intros Htotal. induction interfaces as [|intf rest IH]; [reflexivity|].
  cbn [listed flat_map check_interfaces inspected]. fold (listed w rest).
  rewrite find_app_first, find_existsb. unfold lookup at 1 2.
  destruct (Addrs w intf) as [addrs|err].
  - rewrite check_addrs_find. fold (lookup w intf).
    destruct (find qualifies addrs) as [a|] eqn:F.
    + destruct (Htotal (addr_IP a)) as (r & t & E).
      exists r, t. split; [exact E|].
      rewrite E. cbn [emit ret bindR map app]. now rewrite !app_nil_r.
    + destruct (find qualifies (listed w rest)) as [a|].
      * destruct IH as (r & t & E & C). exists r, t. split; [exact E|].
        cbn [emit ret bindR]. rewrite C. reflexivity.
      * cbn [emit ret bindR]. rewrite IH. reflexivity.
  - cbn [find existsb]. destruct (find qualifies (listed w rest)) as [a|].
    + destruct IH as (r & t & E & C). exists r, t. split; [exact E|].
      cbn [emit bindR]. rewrite C. reflexivity.
    + cbn [emit bindR]. rewrite IH. reflexivity.
Qed.

Lemma CheckInterfaces_probe (w : World) (h : HealthCheck)
  (interfaces : list Interface) :
  CheckInterfaces w h interfaces = check_interfaces w (probe_of w h) interfaces.
Proof. unfold CheckInterfaces, probe_of. now destruct (_ =? 0). Qed.

Lemma CheckInterfaces_total (w : World) (h : HealthCheck)
  (interfaces : list Interface) :
  exists r t, CheckInterfaces w h interfaces = Some (r, t).
Proof.
  rewrite CheckInterfaces_probe.
  assert (Htotal : forall ip, exists r t, probe_of w h ip = Some (r, t)).
  { intros ip. destruct (probe_of_total w h ip) as (r & t & E & _). eauto. }
  pose proof (check_interfaces_find w (probe_of w h) interfaces Htotal) as H.
  destruct (find qualifies (listed w interfaces)).
  - destruct H as (r & t & _ & C). eauto.
  - eauto.
Qed.

(** C3, as the code has it. [CheckInterfaces] probes at most one
    address: the first address, in interface-enumeration order, that is
    of type [*net.IPNet], is not a loopback address and is expressible
    in four bytes; addresses of another type are passed over, and an
    interface whose lookup fails is skipped. The result of that probe is
    returned as it is, after the lookups of the interfaces up to the one
    that has the address and of no other; without such an address the
    result is the failure of code 3. *)
Theorem CheckInterfaces_first_qualifying (w : World) (h : HealthCheck)
  (interfaces : list Interface) :
  exists r t,
    CheckInterfaces w h interfaces = Some (r, t)
    /\ (probes t <= 1)%nat
    /\ match find qualifies (listed w interfaces) with
       | Some a =>
           exists tp,
             probe_of w h (addr_IP a) = Some (r, tp)
             /\ t = (map EvAddrs (inspected w interfaces) ++ tp)%list
       | None =>
           r = failure 3 "failure to find suitable interface"
           /\ t = map EvAddrs interfaces
       end.
Proof.
  rewrite CheckInterfaces_probe.
  assert (Htotal : forall ip, exists r t, probe_of w h ip = Some (r, t)).
  { intros ip. destruct (probe_of_total w h ip) as (r & t & E & _). eauto. }
  pose proof (check_interfaces_find w (probe_of w h) interfaces Htotal) as H.
  destruct (find qualifies (listed w interfaces)) as [a|].
  - destruct H as (r & tp & E & C).
    exists r, (map EvAddrs (inspected w interfaces) ++ tp)%list.
    split; [exact C|]. split.
    + destruct (probe_of_total w h (addr_IP a)) as (r' & t' & E' & P).
      rewrite E in E'. injection E' as <- <-.
      rewrite probes_app, probes_Addrs. exact P.
    + exists tp. now split.
  - exists (failure 3 "failure to find suitable interface"), (map EvAddrs interfaces).
    split; [exact H|]. split; [|now split].
    rewrite probes_Addrs. lia.
Qed.

(** On [anycast_first] the first suitable address is 10.0.0.1, and the
    address probed is 10.0.0.2. *)
Lemma CheckInterfaces_passes_over_IPAddr :
  find (fun a => suitable (addr_IP a)) (listed anycast_first [eth0])
  = Some (IPAddr [x0a; x00; x00; x01] "")
  /\ CheckInterfaces anycast_first port_8080 [eth0]
     = Some (None, [EvAddrs eth0;
                    EvDial "tcp" "10.0.0.2:8080" 1000000000;
                    EvConnClose {| fd := 3 |}])
  /\ ~ first_address_probed anycast_first port_8080 [eth0].
Proof.
  split; [vm_compute; reflexivity|]. split; [vm_compute; reflexivity|].
  unfold first_address_probed.
  replace (find (fun a => suitable (addr_IP a)) (listed anycast_first [eth0]))
    with (Some (IPAddr [x0a; x00; x00; x01] "")) by (vm_compute; reflexivity).
  intros (r & t0 & tp & P & C).
  vm_compute in P. vm_compute in C. congruence.
Qed.

(** ** The polling loop *)

Section Poll.

Import main poll.

Variable check : nat -> Run error.
Variable r : nat -> error.
Variable t : nat -> list Event.
Hypothesis check_outcome : forall n, check n = Some (r n, t n).

Variable interval : Z.

Lemma history_S (k : nat) :
  history t interval (S k)
  = (history t interval k ++ t k ++ [EvSleep interval])%list.
Proof.
  unfold history. rewrite seq_S, flat_map_app. cbn [flat_map Nat.add].
  now rewrite app_nil_r.
Qed.

Lemma readiness_steps (k : nat) :
  (forall j, (j < k)%nat -> r j <> None) ->
  forall fuel,
    readiness (k + fuel) check interval 0 []
    = readiness fuel check interval k (history t interval k).
Proof.
  induction k as [|k IH]; intros Hfail fuel; [reflexivity|].
  replace (S k + fuel)%nat with (k + S fuel)%nat by lia.
  rewrite IH by (intros j Hj; apply Hfail; lia).
  cbn [readiness]. rewrite check_outcome.
  destruct (r k) as [e|] eqn:E.
  - now rewrite history_S.
  - elim (Hfail k); [lia|exact E].
Qed.

Lemma liveness_steps (k : nat) :
  (forall j, (j < k)%nat -> r j = None) ->
  forall fuel,
    liveness (k + fuel) check interval 0 []
    = liveness fuel check interval k (history t interval k).
Proof.
  induction k as [|k IH]; intros Hok fuel; [reflexivity|].
  replace (S k + fuel)%nat with (k + S fuel)%nat by lia.
  rewrite IH by (intros j Hj; apply Hok; lia).
  cbn [liveness]. rewrite check_outcome.
  rewrite (Hok k) by lia. now rewrite history_S.
Qed.

Lemma readiness_returns (k fuel : nat) :
  (forall j, (j < k)%nat -> r j <> None) -> r k = None -> (k < fuel)%nat ->
  readiness fuel check interval 0 []
  = Returned None (history t interval k ++ t k)%list.
Proof.
  intros Hfail Hk Hfuel.
  replace fuel with (k + S (fuel - S k))%nat by lia.
  rewrite readiness_steps by assumption.
  cbn [readiness]. now rewrite check_outcome, Hk.
Qed.

Lemma readiness_runs (fuel : nat) :
  (forall j, r j <> None) ->
  readiness fuel check interval 0 [] = Running (history t interval fuel).
Proof.
  intros Hfail. replace fuel with (fuel + 0)%nat at 1 by lia.
  now rewrite readiness_steps by (intros j _; apply Hfail).
Qed.

Lemma liveness_returns (k fuel : nat) (e : HealthCheckError) :
  (forall j, (j < k)%nat -> r j = None) -> r k = Some e -> (k < fuel)%nat ->
  liveness fuel check interval 0 []
  = Returned (Some (CheckError e)) (history t interval k ++ t k)%list.
Proof.
  intros Hok Hk Hfuel.
  replace fuel with (k + S (fuel - S k))%nat by lia.
  rewrite liveness_steps by assumption.
  cbn [liveness]. now rewrite check_outcome, Hk.
Qed.

Lemma liveness_runs (fuel : nat) :
  (forall j, r j = None) ->
  liveness fuel check interval 0 [] = Running (history t interval fuel).
Proof.
  intros Hok. replace fuel with (fuel + 0)%nat at 1 by lia.
  now rewrite liveness_steps by (intros j _; apply Hok).
Qed.

End Poll.

(** C4. Let [r n] and [t n] be the result and the events of the check
    number [n]. In single-shot mode [realMain] makes the check number 0
    and nothing else, and returns what the check returned: nil for nil,
    and the failure itself for a failure. In readiness mode it returns
    nil at the first check that succeeds, after a sleep of one interval
    behind every failed check, and it is still in its loop after any
    number of turns while the checks fail. In liveness mode it returns
    the first failure, after a sleep behind every successful check, and
    is still in its loop after any number of turns while the checks
    succeed. *)
Theorem realMain_modes
  (newHealthCheck : string -> string -> string -> Z -> HealthCheck)
  (m : main.Machine) (flags : main.Flags) (interfaces : list Interface)
  (r : nat -> error) (t : nat -> list Event) :
  main.Interfaces m = inl interfaces ->
  (forall n,
      CheckInterfaces (main.world_at m n)
        (newHealthCheck (main.network flags) (main.uri flags)
                        (main.port flags) (main.timeout flags))
        interfaces
      = Some (r n, t n)) ->
  match poll.mode_of flags with
  | poll.SingleShot =>
      forall fuel,
        (r 0%nat = None ->
         main.realMain newHealthCheck m flags fuel
         = main.Returned None (t 0%nat))
        /\ (forall e,
               r 0%nat = Some e ->
               main.realMain newHealthCheck m flags fuel
               = main.Returned (Some (main.CheckError e)) (t 0%nat))
  | poll.Readiness interval =>
      (forall k fuel,
          (forall j, (j < k)%nat -> r j <> None) -> r k = None ->
          (k < fuel)%nat ->
          main.realMain newHealthCheck m flags fuel
          = main.Returned None (poll.history t interval k ++ t k)%list)
      /\ ((forall j, r j <> None) ->
          forall fuel,
            main.realMain newHealthCheck m flags fuel
            = main.Running (poll.history t interval fuel))
  | poll.Liveness interval =>
      (forall k fuel e,
          (forall j, (j < k)%nat -> r j = None) -> r k = Some e ->
          (k < fuel)%nat ->
          main.realMain newHealthCheck m flags fuel
          = main.Returned (Some (main.CheckError e))
                          (poll.history t interval k ++ t k)%list)
      /\ ((forall j, r j = None) ->
          forall fuel,
            main.realMain newHealthCheck m flags fuel
            = main.Running (poll.history t interval fuel))
  end.
Proof.
  intros Hm Hcheck. unfold poll.mode_of, main.realMain. rewrite Hm. cbv zeta.
  destruct (main.readinessInterval flags >? 0).
  - split.
    + intros k fuel Hfail Hk Hfuel.
      now apply (readiness_returns _ r t Hcheck).
    + intros Hfail fuel. now apply (readiness_runs _ r t Hcheck).
  - destruct (main.livenessInterval flags >? 0).
    + split.
      * intros k fuel e Hok Hk Hfuel.
        now apply (liveness_returns _ r t Hcheck).
      * intros Hok fuel. now apply (liveness_runs _ r t Hcheck).
    + intros fuel. rewrite Hcheck. split.
      * intros ->. reflexivity.
      * intros e ->. reflexivity.
Qed.

(** The checks of [late_server] and of [failing_server]. *)
Lemma late_server_checks (n : nat) :
  CheckInterfaces (main.world_at late_server n) port_8080 [eth0]
  = Some (if (n <? 2)%nat then Some refused_4 else None,
          if (n <? 2)%nat then [EvAddrs eth0; dial_8080]
          else [EvAddrs eth0; dial_8080; EvConnClose {| fd := 3 |}]).
Proof. destruct n as [|[|n]]; vm_compute; reflexivity. Qed.

Lemma failing_server_checks (n : nat) :
  CheckInterfaces (main.world_at failing_server n) port_8080 [eth0]
  = Some (if (n <? 2)%nat then None else Some refused_4,
          if (n <? 2)%nat then [EvAddrs eth0; dial_8080; EvConnClose {| fd := 3 |}]
          else [EvAddrs eth0; dial_8080]).
Proof. destruct n as [|[|n]]; vm_compute; reflexivity. Qed.

(** The three modes. Single-shot on [late_server]: one check, and its
    failure returned; on [failing_server]: one check, and nil.
    Readiness on [late_server]: two failed checks, two sleeps, and nil
    at the third check. Liveness on [failing_server]: two successful
    checks, two sleeps, and the failure of the third check. *)
Lemma realMain_modes_witness :
  main.realMain NewHealthCheck late_server single_shot_flags 0
  = main.Returned (Some (main.CheckError refused_4)) [EvAddrs eth0; dial_8080]
  /\ main.realMain NewHealthCheck failing_server single_shot_flags 0
     = main.Returned None [EvAddrs eth0; dial_8080; EvConnClose {| fd := 3 |}]
  /\ main.realMain NewHealthCheck late_server readiness_flags 3
     = main.Returned None
         [EvAddrs eth0; dial_8080; EvSleep 500000000;
          EvAddrs eth0; dial_8080; EvSleep 500000000;
          EvAddrs eth0; dial_8080; EvConnClose {| fd := 3 |}]
  /\ main.realMain NewHealthCheck failing_server liveness_flags 3
     = main.Returned (Some (main.CheckError refused_4))
         [EvAddrs eth0; dial_8080; EvConnClose {| fd := 3 |}; EvSleep 500000000;
          EvAddrs eth0; dial_8080; EvConnClose {| fd := 3 |}; EvSleep 500000000;
          EvAddrs eth0; dial_8080].
Proof.
  split; [|split; [|split]].
  - exact (proj2 (realMain_modes NewHealthCheck late_server single_shot_flags
                    [eth0] _ _ eq_refl late_server_checks 0%nat)
                 refused_4 eq_refl).
  - exact (proj1 (realMain_modes NewHealthCheck failing_server single_shot_flags
                    [eth0] _ _ eq_refl failing_server_checks 0%nat)
                 eq_refl).
  - apply (proj1 (realMain_modes NewHealthCheck late_server readiness_flags
                    [eth0] _ _ eq_refl late_server_checks) 2%nat 3%nat).
    + intros j Hj. destruct j as [|[|j]]; [discriminate|discriminate|lia].
    + reflexivity.
    + lia.
  - apply (proj1 (realMain_modes NewHealthCheck failing_server liveness_flags
                    [eth0] _ _ eq_refl failing_server_checks) 2%nat 3%nat).
    + intros j Hj. destruct j as [|[|j]]; [reflexivity|reflexivity|lia].
    + reflexivity.
    + lia.
Defined.

(** ** [appendHex] on any [uint32] *)

Lemma starts_nonzero_canonical (s : string) :
  starts_nonzero s = true -> no_leading_zero s = true.
Proof.
  destruct s as [|c [|c' s]]; cbn; [discriminate|reflexivity|auto].
Qed.

Lemma hexDigit_lookup (d : Z) :
  0 <= d < 16 ->
  exists c, Go.str_index hexDigit d = Some c
            /\ hex_digit c = Some d
            /\ (d <> 0 -> Ascii.eqb c "0" = false).
Proof.
  intros H.
  assert (E : d = 0 \/ d = 1 \/ d = 2 \/ d = 3 \/ d = 4 \/ d = 5 \/ d = 6
              \/ d = 7 \/ d = 8 \/ d = 9 \/ d = 10 \/ d = 11 \/ d = 12
              \/ d = 13 \/ d = 14 \/ d = 15) by lia.
  repeat (destruct E as [->|E]);
    try subst d; eexists; (split; [reflexivity|]);
    (split; [reflexivity|]); intros N; try reflexivity; now elim N.
Qed.

Lemma shiftr_step (i : Z) (j : nat) :
  0 <= i ->
  Z.shiftr i (Z.of_nat j * 4)
  = Z.shiftr i (4 * Z.of_nat (S j)) * 16 + Z.land (Z.shiftr i (Z.of_nat j * 4)) 15.
Proof.
  intros Hi.
  replace (4 * Z.of_nat (S j)) with (Z.of_nat j * 4 + 4) by lia.
  rewrite <- Z.shiftr_shiftr by lia.
  set (v := Z.shiftr i (Z.of_nat j * 4)).
  change 15 with (Z.ones 4). rewrite Z.land_ones by lia.
  rewrite Z.shiftr_div_pow2 by lia. change (2 ^ 4) with 16.
  pose proof (Z.div_mod v 16 ltac:(lia)). lia.
Qed.

(** The loop of [appendHex] from the digit [n - 1] down: what it
    appends continues the numeral of the digits above. *)
Lemma appendHex_loop_numeral (i : Z) (n : nat) :
  0 <= i ->
  forall dst,
  exists s,
    appendHex_loop n dst i = Some (dst ++ s)
    /\ numeral_value hex_digit 16 (Z.shiftr i (4 * Z.of_nat n)) s = Some i
    /\ (Z.shiftr i (4 * Z.of_nat n) = 0 -> 0 < i -> starts_nonzero s = true)
    /\ (String.length s <= n)%nat.
Proof.
  intros Hi. induction n as [|j IH]; intros dst.
  - exists "". rewrite append_nil_r. cbn [appendHex_loop numeral_value].
    change (4 * Z.of_nat 0) with 0. rewrite Z.shiftr_0_r.
    repeat split; [intros; lia|cbn; lia].
  - cbn [appendHex_loop]. cbv zeta.
    pose proof (shiftr_step i j Hi) as Hstep.
    set (v := Z.shiftr i (Z.of_nat j * 4)) in *.
    assert (Hv : 0 <= v) by (apply Z.shiftr_nonneg; exact Hi).
    assert (Hd : 0 <= Z.land v 15 < 16).
    { change 15 with (Z.ones 4). rewrite Z.land_ones by lia.
      apply Z.mod_pos_bound. lia. }
    assert (Hup : 0 <= Z.shiftr i (4 * Z.of_nat (S j)))
      by (apply Z.shiftr_nonneg; exact Hi).
    replace (4 * Z.of_nat j) with (Z.of_nat j * 4) in IH by lia. fold v in IH.
    destruct (Z.gtb_spec v 0) as [Hpos|Hzero].
    + destruct (hexDigit_lookup _ Hd) as (c & -> & Hc & Hc0). cbn [bind].
      destruct (IH (dst ++ String c "")) as (s & E & Hnum & _ & Hlen).
      exists (String c s). rewrite E, append_assoc. cbn [append].
      split; [reflexivity|]. split; [|split].
      * cbn [numeral_value]. rewrite Hc, <- Hstep. exact Hnum.
      * intros Hz _. cbn [starts_nonzero]. rewrite Hc0; [reflexivity|]. lia.
      * cbn [String.length]. lia.
    + assert (v = 0) by lia.
      destruct (IH dst) as (s & E & Hnum & Hnz & Hlen).
      exists s. split; [exact E|]. split; [|split].
      * replace (Z.shiftr i (4 * Z.of_nat (S j))) with v by lia. exact Hnum.
      * intros _ Hi0. now apply Hnz.
      * lia.
Qed.

(** X1. [appendHex] appends to [dst] the lowercase hexadecimal numeral of
    any [uint32]: digits of the right value, no leading zeros, at most
    eight characters. *)
Theorem appendHex_uint32 (dst : string) (i : Z) :
  0 <= i < 2 ^ 32 ->
  exists s,
    appendHex dst i = Some (dst ++ s)
    /\ hex_text s i = true
    /\ (1 <= String.length s <= 8)%nat.
Proof.
  intros [Hlo Hhi]. unfold appendHex.
  destruct (Z.eqb_spec i 0) as [->|Hne].
  - exists "0". repeat split; cbn; lia.
  - destruct (appendHex_loop_numeral i 8 Hlo dst) as (s & E & Hnum & Hnz & Hlen).
    assert (Hz : Z.shiftr i (4 * Z.of_nat 8) = 0).
    { rewrite Z.shiftr_div_pow2 by lia. apply Z.div_small. cbn. lia. }
    rewrite Hz in Hnum. specialize (Hnz Hz ltac:(lia)).
    exists s. split; [exact E|]. split.
    + unfold hex_text, numeral_text.
      rewrite (starts_nonzero_canonical s Hnz), Hnum, Z.eqb_refl. reflexivity.
    + destruct s; [discriminate Hnz|]. cbn [String.length] in *. lia.
Qed.

Lemma appendHex_uint32_witness :
  appendHex "fe80:" 48879 = Some "fe80:beef".
Proof.
  destruct (appendHex_uint32 "fe80:" 48879 ltac:(lia)) as (s & E & _).
  rewrite E. vm_compute in E. now injection E as <-.
Defined.

(** ** [appendInt] on any [uint] *)

Lemma decimal_digit_char (d : Z) :
  0 <= d < 10 ->
  dec_digit (Go.to_byte (Go.uint (48 + d))) = Some d
  /\ (d <> 0 -> Ascii.eqb (Go.to_byte (Go.uint (48 + d))) "0" = false).
Proof.
  intros H.
  assert (E : d = 0 \/ d = 1 \/ d = 2 \/ d = 3 \/ d = 4 \/ d = 5 \/ d = 6
              \/ d = 7 \/ d = 8 \/ d = 9) by lia.
  repeat (destruct E as [->|E]); try subst d;
    (split; [reflexivity|]); intros N; try reflexivity; now elim N.
Qed.

Lemma numeral_value_snoc (digit : ascii -> option Z) (base : Z)
  (s : string) (c : ascii) (d : Z) :
  digit c = Some d ->
  forall acc v,
    numeral_value digit base acc s = Some v ->
    numeral_value digit base acc (s ++ String c "") = Some (v * base + d).
Proof.
  intros Hc. induction s as [|x s IH]; intros acc v H; cbn [append numeral_value] in *.
  - injection H as <-. now rewrite Hc.
  - destruct (digit x); [|discriminate]. now apply IH.
Qed.

Lemma string_of_list_ascii_app (l l' : list ascii) :
  string_of_list_ascii (l ++ l')
  = string_of_list_ascii l ++ string_of_list_ascii l'.
Proof. induction l as [|x l IH]; cbn; [reflexivity|now rewrite IH]. Qed.

Lemma repeat_snoc {A : Type} (x : A) (n : nat) :
  repeat x (S n) = (repeat x n ++ [x])%list.
Proof. induction n as [|n IH]; [reflexivity|]. cbn [repeat app] in *. now rewrite <- IH. Qed.

(** The loop of [appendInt] with [n] free positions to the left of the
    position [n]: it stops with the leading digit in [v'] and the other
    digits [ds] written in front of [tail]. *)
Lemma appendInt_loop_digits (n : nat) :
  forall (fuel : nat) (tail : list ascii) (val : Z),
    0 <= val < 10 ^ Z.of_nat (S n) -> (n < fuel)%nat ->
    exists (m : nat) (ds : list ascii) (v' : Z),
      appendInt_loop fuel (repeat zero n ++ zero :: tail)%list (Z.of_nat n) val
      = Some ((repeat zero m ++ zero :: ds ++ tail)%list, Z.of_nat m, v')
      /\ (m + List.length ds = n)%nat
      /\ 0 <= v' < 10
      /\ (0 < val -> 0 < v')
      /\ numeral_value dec_digit 10 v' (string_of_list_ascii ds) = Some val.
Proof.
  induction n as [|n IH]; intros fuel tail val Hval Hfuel.
  - destruct fuel as [|fuel]; [lia|]. cbn [appendInt_loop].
    change (10 ^ Z.of_nat 1) with 10 in Hval.
    replace (10 <=? val) with false by (symmetry; apply Z.leb_gt; lia).
    exists 0%nat, [], val.
    split; [reflexivity|]. split; [reflexivity|]. split; [lia|].
    split; [tauto|reflexivity].
  - destruct fuel as [|fuel]; [lia|]. cbn [appendInt_loop].
    destruct (Z.leb_spec 10 val) as [Hge|Hlt].
    + cbv zeta. set (q := val / 10).
      pose proof (Z.div_mod val 10 ltac:(lia)) as Hdm. fold q in Hdm.
      pose proof (Z.mod_pos_bound val 10 ltac:(lia)) as Hm.
      replace (48 + val - q * 10) with (48 + val mod 10) by lia.
      destruct (decimal_digit_char (val mod 10) Hm) as [Hdig _].
      set (c := Go.to_byte (Go.uint (48 + val mod 10))) in *.
      rewrite store_app by apply repeat_length. cbn [bind].
      rewrite repeat_snoc, <- app_assoc. cbn [app].
      replace (Z.of_nat (S n) - 1) with (Z.of_nat n) by lia.
      assert (Hq : 0 <= q < 10 ^ Z.of_nat (S n)).
      { split; [apply Z.div_pos; lia|].
        apply Z.div_lt_upper_bound; [lia|].
        replace (Z.of_nat (S (S n))) with (Z.of_nat (S n) + 1) in Hval by lia.
        rewrite Z.pow_add_r in Hval by lia. lia. }
      destruct (IH fuel (c :: tail) q Hq ltac:(lia))
        as (m & ds & v' & E & Hlen & Hv & Hpos & Hnum).
      exists m, (ds ++ [c])%list, v'. rewrite E, <- app_assoc. cbn [app].
      split; [reflexivity|]. split; [rewrite length_app; cbn; lia|].
      split; [exact Hv|]. split; [intros _; apply Hpos; lia|].
      rewrite string_of_list_ascii_app. cbn [string_of_list_ascii].
      rewrite (numeral_value_snoc dec_digit 10 _ c _ Hdig _ _ Hnum).
      f_equal. lia.
    + exists (S n), [], val.
      split; [reflexivity|]. split; [cbn; lia|]. split; [lia|].
      split; [tauto|reflexivity].
Qed.

(** X2. [appendInt] appends to [a] the decimal numeral of any 64-bit
    [uint]: digits of the right value, no leading zeros, at most twenty
    characters, so that the array of twenty bytes is never left. *)
Theorem appendInt_uint64 (a : string) (val : Z) :
  0 <= val < 2 ^ 64 ->
  exists s,
    appendInt a val = Some (a ++ s)
    /\ decimal_text s val = true
    /\ (1 <= String.length s <= 20)%nat.
Proof.
  intros [Hlo Hhi]. unfold appendInt.
  destruct (Z.eqb_spec val 0) as [->|Hne].
  - exists "0". repeat split; cbn; lia.
  - cbv zeta. change (Go.len (repeat zero 20) - 1) with (Z.of_nat 19).
    change (repeat zero 20) with (repeat zero 19 ++ zero :: [])%list.
    assert (Hval : 0 <= val < 10 ^ Z.of_nat 20)
      by (change (10 ^ Z.of_nat 20) with 100000000000000000000;
          change (2 ^ 64) with 18446744073709551616 in Hhi; lia).
    destruct (appendInt_loop_digits 19 21 [] val Hval ltac:(lia))
      as (m & ds & v' & E & Hlen & Hv & Hpos & Hnum).
    rewrite E. cbn [bind]. rewrite app_nil_r.
    destruct (decimal_digit_char v' Hv) as [Hdig Hnz].
    set (c := Go.to_byte (Go.uint (48 + v'))) in *.
    rewrite store_app by apply repeat_length. cbn [bind].
    unfold Go.slice_from, Go.len. rewrite length_app, repeat_length.
    cbn [List.length].
    replace (Z.of_nat m <? 0) with false by (symmetry; apply Z.ltb_ge; lia).
    replace (Z.of_nat (m + S (List.length ds)) <? Z.of_nat m) with false
      by (symmetry; apply Z.ltb_ge; lia).
    cbn [orb bind]. rewrite Nat2Z.id.
    replace (skipn m (repeat zero m ++ c :: ds)) with (c :: ds)
      by (symmetry; rewrite skipn_app, repeat_length, Nat.sub_diag;
          rewrite skipn_all2 by (rewrite repeat_length; lia); reflexivity).
    exists (String c (string_of_list_ascii ds)). split; [reflexivity|].
    split.
    + unfold decimal_text, numeral_text.
      assert (Hs : starts_nonzero (String c (string_of_list_ascii ds)) = true)
        by (cbn [starts_nonzero]; rewrite Hnz; [reflexivity|];
            specialize (Hpos ltac:(lia)); lia).
      rewrite (starts_nonzero_canonical _ Hs). cbn [numeral_value andb].
      rewrite Hdig. cbn [Z.mul Z.add]. rewrite Hnum, Z.eqb_refl. reflexivity.
    + cbn [String.length]. rewrite string_of_list_ascii_length. lia.
Qed.

Lemma appendInt_uint64_witness :
  appendInt "n=" 18446744073709551615 = Some "n=18446744073709551615".
Proof.
  destruct (appendInt_uint64 "n=" 18446744073709551615 ltac:(lia)) as (s & E & _).
  rewrite E. vm_compute in E. now injection E as <-.
Defined.

(** ** The length of a text *)

Section NumeralLength.

Variable digit : ascii -> option Z.
Variable base : Z.
Hypothesis digit_nonneg : forall c d, digit c = Some d -> 0 <= d.
Hypothesis digit_zero : forall c, digit c = Some 0 -> c = "0"%char.
Hypothesis base_pos : 1 < base.

Lemma numeral_value_lower (s : string) :
forall acc v,
  0 <= acc -> numeral_value digit base acc s = Some v ->
  acc * base ^ Z.of_nat (String.length s) <= v.
Proof.
induction s as [|c s IH]; intros acc v Hacc H; cbn [numeral_value] in H.
- injection H as <-. cbn. lia.
- destruct (digit c) as [d|] eqn:D; [|discriminate].
  pose proof (digit_nonneg c d D) as Hd.
  specialize (IH (acc * base + d) v ltac:(nia) H).
  cbn [String.length]. rewrite Nat2Z.inj_succ, Z.pow_succ_r by lia.
  assert (0 < base ^ Z.of_nat (String.length s)) by (apply Z.pow_pos_nonneg; lia).
  nia.
Qed.

(** A numeral without leading zeros of a value below [base ^ k] has at
  most [k] digits. *)
Lemma numeral_length (s : string) (n : Z) (k : nat) :
numeral_text digit base s n = true -> (1 <= k)%nat ->
n < base ^ Z.of_nat k ->
(1 <= String.length s <= k)%nat.
Proof.
unfold numeral_text. intros H Hk Hn.
apply andb_true_iff in H. destruct H as [Hlead Hval].
destruct (numeral_value digit base 0 s) as [v|] eqn:E; [|discriminate].
apply Z.eqb_eq in Hval. subst v.
destruct s as [|c [|c' s]]; [discriminate| cbn; lia |].
cbn [no_leading_zero] in Hlead. apply negb_true_iff in Hlead.
cbn [numeral_value] in E.
destruct (digit c) as [d|] eqn:D; [|discriminate].
assert (Hd : 1 <= d).
{ pose proof (digit_nonneg c d D).
  destruct (Z.eq_dec d 0) as [->|]; [|lia].
  rewrite (digit_zero c D) in Hlead. discriminate. }
change (numeral_value digit base (0 * base + d) (String c' s) = Some n) in E.
assert (Hacc : 0 <= 0 * base + d) by lia.
pose proof (numeral_value_lower (String c' s) _ _ Hacc E) as L.
set (len := String.length (String c' s)) in *.
assert (Hp : 0 < base ^ Z.of_nat len) by (apply Z.pow_pos_nonneg; lia).
assert (Hlt : base ^ Z.of_nat len < base ^ Z.of_nat k) by nia.
assert (Hk' : Z.of_nat len < Z.of_nat k)
  by (apply (Z.pow_lt_mono_r_iff base); [lia|lia|exact Hlt]).
change (String.length (String c (String c' s))) with (S len). lia.
Qed.

End NumeralLength.

Lemma hex_digit_nonneg (c : ascii) (d : Z) : hex_digit c = Some d -> 0 <= d.
Proof.
  unfold hex_digit. cbv zeta.
  destruct ((48 <=? _) && (_ <=? 57)) eqn:A.
  - intros [= <-]. apply andb_true_iff in A. destruct A as [A _].
    apply Z.leb_le in A. lia.
  - destruct ((97 <=? _) && (_ <=? 102)) eqn:B; [|discriminate].
    intros [= <-]. apply andb_true_iff in B. destruct B as [B _].
    apply Z.leb_le in B. lia.
Qed.

Lemma hex_digit_zero (c : ascii) : hex_digit c = Some 0 -> c = "0"%char.
Proof.
  unfold hex_digit. cbv zeta.
  destruct ((48 <=? _) && (_ <=? 57)) eqn:A.
  - intros [= H].
    assert (E : N_of_ascii c = 48%N) by lia.
    rewrite <- (ascii_N_embedding c), E. reflexivity.
  - destruct ((97 <=? _) && (_ <=? 102)) eqn:B; [|discriminate].
    intros [= H]. apply andb_true_iff in B. destruct B as [B _].
    apply Z.leb_le in B. lia.
Qed.

Lemma group_text_length (ip : net.IP) (k : nat) :
  (1 <= String.length (hex (group_value ip k)) <= 4)%nat.
Proof.
  apply (numeral_length hex_digit 16 hex_digit_nonneg hex_digit_zero ltac:(lia)
           _ (group_value ip k)).
  - apply group_text.
  - lia.
  - unfold group_value.
    pose proof (u8_range (nth (2 * k) ip x00)).
    pose proof (u8_range (nth (2 * k + 1) ip x00)).
    change (16 ^ Z.of_nat 4) with 65536. lia.
Qed.

Lemma octet_text_length (b : byte) :
  (1 <= String.length (decimal (Go.u8 b)) <= 3)%nat.
Proof.
  assert (H : octet_length_check b = true)
    by (revert b; apply forall_bytes; vm_compute; reflexivity).
  unfold octet_length_check in H. cbv zeta in H.
  apply andb_true_iff in H. destruct H as [H1 H2].
  apply Nat.leb_le in H1. apply Nat.leb_le in H2. lia.
Qed.

Lemma dotted_length (a b c d : byte) :
  (7 <= String.length (dotted a b c d) <= 15)%nat.
Proof.
  unfold dotted. rewrite !append_length. cbn [String.length].
  pose proof (octet_text_length a). pose proof (octet_text_length b).
  pose proof (octet_text_length c). pose proof (octet_text_length d). lia.
Qed.

Lemma segment_length (ip : net.IP) (m k : nat) :
  (String.length (segment ip k m) <= 5 * m)%nat.
Proof.
  revert k. induction m as [|m IH]; intros k; [cbn; lia|].
  cbn [segment]. rewrite !append_length.
  pose proof (group_text_length ip k). specialize (IH (S k)).
  assert (String.length (sep k) <= 1)%nat by (unfold sep; destruct (k =? 0)%nat; cbn; lia).
  lia.
Qed.

Lemma segment_0_length (ip : net.IP) (m : nat) :
  (String.length (segment ip 0 (S m)) <= 4 + 5 * m)%nat.
Proof.
  cbn [segment sep Nat.eqb append]. rewrite append_length.
  pose proof (group_text_length ip 0). pose proof (segment_length ip m 1). lia.
Qed.

Lemma convertIPv6_length (ip : net.IP) :
  List.length ip = 16%nat ->
  exists s, convertIPv6 ip = Some s /\ (2 <= String.length s <= 39)%nat.
Proof.
  intros Hlen. unfold convertIPv6.
  destruct (search_result ip Hlen) as (e0 & e1 & E & _ & _ & Hcase).
  rewrite E. cbn [bind].
  destruct (e1 - e0 <=? 2) eqn:Hle.
  - rewrite (write_groups_plain ip Hlen). eexists. split; [reflexivity|].
    pose proof (segment_0_length ip 7).
    cbn [segment sep Nat.eqb append] in *. rewrite !append_length in *.
    cbn [String.length] in *.
    pose proof (group_text_length ip 0). pose proof (group_text_length ip 1). lia.
  - apply Z.leb_gt in Hle.
    destruct Hcase as [[-> ->]|(s & l & Hl & Hs & -> & ->)]; [lia|].
    rewrite (write_groups_compressed ip Hlen s l Hl Hs).
    eexists. split; [reflexivity|]. rewrite !append_length.
    change (String.length "::") with 2%nat.
    pose proof (segment_length ip s 0).
    destruct (8 - (s + l))%nat as [|m] eqn:Em.
    + cbn [String.length]. lia.
    + rewrite append_length.
      pose proof (group_text_length ip (s + l)).
      pose proof (segment_length ip m (S (s + l))). lia.
Qed.

(** X3. The text of an address fits the arrays that the conversions
    start from: an address that [To4] accepts gives 7 to 15 characters,
    any other 16-byte address 2 to 39, the length of
    "ffff:ffff:ffff:ffff:ffff:ffff:ffff:ffff". *)
Theorem IPString_fits_buffer (ip : net.IP) (s : string) :
  IPString ip = Some s ->
  (net.To4 ip <> None -> (7 <= String.length s <= 15)%nat)
  /\ (net.To4 ip = None -> List.length ip = 16%nat ->
      (2 <= String.length s <= 39)%nat).
Proof.
  intros H. split.
  - destruct (net.To4 ip) as [q|] eqn:E4; [intros _|congruence].
    pose proof (To4_length ip q E4) as Hq.
    do 4 (destruct q as [|? q]; try discriminate).
    destruct q; try discriminate.
    rewrite (IPString_To4 ip _ _ _ _ E4) in H. injection H as <-.
    apply dotted_length.
  - intros E4 Hlen. rewrite (IPString_16 ip Hlen E4) in H.
    destruct (convertIPv6_length ip Hlen) as (s' & E & L).
    rewrite E in H. now injection H as <-.
Qed.

Lemma IPString_fits_buffer_witness :
  (39 <= 39)%nat
  /\ IPString (repeat xff 16) = Some "ffff:ffff:ffff:ffff:ffff:ffff:ffff:ffff".
Proof.
  assert (E : IPString (repeat xff 16)
              = Some "ffff:ffff:ffff:ffff:ffff:ffff:ffff:ffff")
    by (vm_compute; reflexivity).
  split; [|exact E].
  exact (proj2 (proj2 (IPString_fits_buffer _ _ E) eq_refl eq_refl)).
Defined.

(** ** Texts that determine the address *)

Lemma split_unique (x : ascii) (s1 : string) :
  forall s2 r1 r2,
    free_of x s1 = true -> free_of x s2 = true ->
    s1 ++ String x r1 = s2 ++ String x r2 -> s1 = s2 /\ r1 = r2.
Proof.
  induction s1 as [|c s1 IH]; intros [|c2 s2] r1 r2 F1 F2 E; cbn [append] in E.
  - injection E as <-. now split.
  - injection E as <- _. cbn [free_of] in F2.
    rewrite Ascii.eqb_refl in F2. discriminate.
  - injection E as -> _. cbn [free_of] in F1.
    rewrite Ascii.eqb_refl in F1. discriminate.
  - injection E as <- E. cbn [free_of] in F1, F2.
    apply andb_true_iff in F1. apply andb_true_iff in F2.
    destruct (IH s2 r1 r2 (proj2 F1) (proj2 F2) E) as [-> ->]. now split.
Qed.

Lemma octet_dot_free (b : byte) : free_of "." (decimal (Go.u8 b)) = true.
Proof.
  change (octet_dot_check b = true). revert b. apply forall_bytes.
  vm_compute. reflexivity.
Qed.

Lemma u8_inj (a b : byte) : Go.u8 a = Go.u8 b -> a = b.
Proof.
  unfold Go.u8. intros H. apply N2Z.inj in H.
  pose proof (Byte.of_to_N a) as Ha. rewrite H, Byte.of_to_N in Ha.
  now injection Ha as <-.
Qed.

Lemma decimal_octet_inj (a b : byte) :
  decimal (Go.u8 a) = decimal (Go.u8 b) -> a = b.
Proof.
  intros E. apply u8_inj.
  pose proof (decimal_octet_text a) as Ha.
  pose proof (decimal_octet_text b) as Hb.
  unfold decimal_text, numeral_text in Ha, Hb. rewrite E in Ha.
  apply andb_true_iff in Ha. apply andb_true_iff in Hb.
  destruct Ha as [_ Ha]. destruct Hb as [_ Hb].
  destruct (numeral_value dec_digit 10 0 (decimal (Go.u8 b))); [|discriminate].
  apply Z.eqb_eq in Ha. apply Z.eqb_eq in Hb. congruence.
Qed.

Lemma dotted_inj (a b c d a' b' c' d' : byte) :
  dotted a b c d = dotted a' b' c' d' -> [a; b; c; d] = [a'; b'; c'; d'].
Proof.
  unfold dotted. intros E.
  apply split_unique in E; try apply octet_dot_free. destruct E as [Ea E].
  apply split_unique in E; try apply octet_dot_free. destruct E as [Eb E].
  apply split_unique in E; try apply octet_dot_free. destruct E as [Ec Ed].
  apply decimal_octet_inj in Ea, Eb, Ec, Ed. now subst.
Qed.

Lemma decode_hex_dump (b : list byte) :
  decode_hex (hex_dump b) = Some (map Go.u8 b).
Proof.
  unfold hex_dump. induction b as [|x b IH]; [reflexivity|].
  cbn [flat_map two_hex app string_of_list_ascii decode_hex map].
  pose proof (nibble_check_all x) as H. unfold nibble_check in H.
  destruct (nibbles x) as [Eh El]. rewrite Eh, El in H.
  rewrite !andb_true_iff in H. destruct H as [_ H].
  destruct (hex_digit (hex_char (Go.u8 x / 16))) as [h|]; [|discriminate].
  destruct (hex_digit (hex_char (Go.u8 x mod 16))) as [l|]; [|discriminate].
  apply Z.eqb_eq in H. now rewrite IH, H.
Qed.

Lemma index_past {A : Type} (s : list A) (n : nat) :
  (List.length s <= n)%nat -> Go.index s (Z.of_nat n) = None.
Proof.
  intros H. unfold Go.index, Go.len.
  replace (Z.of_nat (List.length s) <=? Z.of_nat n) with true
    by (symmetry; apply Z.leb_le; lia).
  now rewrite orb_true_r.
Qed.

Lemma IPString_irregular (ip : net.IP) :
  ip <> [] -> List.length ip <> 4%nat -> List.length ip <> 16%nat ->
  IPString ip = Some ("?" ++ hex_dump ip).
Proof.
  intros Hne H4 H16.
  unfold IPString. cbv zeta. rewrite (To4_other_lengths ip H4 H16).
  replace (Go.len ip =? 0) with false
    by (symmetry; apply Z.eqb_neq; unfold Go.len; destruct ip;
        [congruence|cbn [List.length]; lia]).
  cbn [net.len_opt Z.eqb].
  replace (Go.len ip =? net.IPv6len) with false
    by (symmetry; apply Z.eqb_neq; unfold Go.len, net.IPv6len; lia).
  cbn [negb]. now rewrite hexString_spec.
Qed.

Lemma map_u8_inj (p q : list byte) : map Go.u8 p = map Go.u8 q -> p = q.
Proof.
  revert q. induction p as [|a p IH]; intros [|b q] H; try discriminate.
  - reflexivity.
  - cbn [map] in H. injection H as Hab H. apply u8_inj in Hab.
    now rewrite Hab, (IH q H).
Qed.

(** X4. [IPString] never panics: whatever the bytes and their number, no
    index is out of range and no loop runs out of its bound. *)
Theorem IPString_never_panics (ip : net.IP) : IPString ip <> None.
Proof. destruct (IPString_total ip) as [s E]. congruence. Qed.

(** X5. The text of a 4-byte address determines the address: two
    addresses with the same text are the same. *)
Theorem IPString_ipv4_injective (a b c d a' b' c' d' : byte) :
  IPString [a; b; c; d] = IPString [a'; b'; c'; d'] ->
  [a; b; c; d] = [a'; b'; c'; d'].
Proof.
  rewrite !IPString_4. intros [= E]. now apply dotted_inj.
Qed.

Lemma IPString_ipv4_injective_witness :
  [x0a; x00; x00; x01] = [x0a; x00; x00; x01].
Proof.
  exact (IPString_ipv4_injective x0a x00 x00 x01 x0a x00 x00 x01 eq_refl).
Defined.

(** X6. [hexString] writes two lowercase hexadecimal digits for each
    byte, and reading the pairs back gives the bytes: the text of an
    address of irregular length loses nothing. *)
Theorem hexString_round_trip (b : list byte) :
  exists s,
    hexString b = Some s
    /\ decode_hex s = Some (map Go.u8 b)
    /\ String.length s = (2 * List.length b)%nat.
Proof.
  exists (hex_dump b). split; [apply hexString_spec|].
  split; [apply decode_hex_dump|apply hex_dump_length].
Qed.

(** X7. [convertIPv4] reads the first four bytes and no other: with
    fewer than four it panics, with more the rest is ignored. *)
Theorem convertIPv4_bounds :
  (forall ip, (List.length ip < 4)%nat -> convertIPv4 ip = None)
  /\ (forall a b c d rest,
         convertIPv4 (a :: b :: c :: d :: rest) = Some (dotted a b c d)).
Proof.
  split.
  - intros ip H. unfold convertIPv4.
    destruct ip as [|a [|b [|c [|d ip]]]]; cbn [List.length] in H; try lia.
    + reflexivity.
    + change (Go.index [a] 0) with (Some a). cbn [bind].
      rewrite appendInt_octet. cbn [bind]. reflexivity.
    + change (Go.index [a; b] 0) with (Some a).
      change (Go.index [a; b] 1) with (Some b). cbn [bind].
      rewrite appendInt_octet. cbn [bind].
      rewrite appendInt_octet. cbn [bind]. reflexivity.
    + change (Go.index [a; b; c] 0) with (Some a).
      change (Go.index [a; b; c] 1) with (Some b).
      change (Go.index [a; b; c] 2) with (Some c). cbn [bind].
      rewrite appendInt_octet. cbn [bind].
      rewrite appendInt_octet. cbn [bind].
      rewrite appendInt_octet. cbn [bind]. reflexivity.
  - intros a b c d rest. unfold convertIPv4.
    set (ip := a :: b :: c :: d :: rest).
    assert (L : (3 < List.length ip)%nat) by (cbn; lia).
    pose proof (index_nth ip 0 x00 ltac:(lia)) as I0.
    pose proof (index_nth ip 1 x00 ltac:(lia)) as I1.
    pose proof (index_nth ip 2 x00 ltac:(lia)) as I2.
    pose proof (index_nth ip 3 x00 ltac:(lia)) as I3.
    cbn [Z.of_nat Pos.of_succ_nat Pos.succ nth ip] in I0, I1, I2, I3.
    rewrite I0, I1, I2, I3.
    cbn [bind].
    rewrite appendInt_octet. cbn [bind]. rewrite appendInt_octet. cbn [bind].
    rewrite appendInt_octet. cbn [bind]. rewrite appendInt_octet.
    unfold dotted. cbn [append]. now rewrite !append_assoc.
Qed.

Lemma convertIPv4_bounds_witness :
  convertIPv4 [x0a; x00; x01] = None
  /\ convertIPv4 [x0a; x00; x00; x01; xff] = Some "10.0.0.1".
Proof.
  destruct convertIPv4_bounds as [A B]. split.
  - apply A. cbn. lia.
  - apply B.
Defined.

(** X8. The text of an address of irregular length (not 0, 4 or 16 bytes)
    determines the address. *)
Theorem IPString_irregular_injective (ip ip' : net.IP) :
  ip <> [] -> List.length ip <> 4%nat -> List.length ip <> 16%nat ->
  ip' <> [] -> List.length ip' <> 4%nat -> List.length ip' <> 16%nat ->
  IPString ip = IPString ip' -> ip = ip'.
Proof.
  intros Hne H4 H16 Hne' H4' H16'.
  rewrite (IPString_irregular ip Hne H4 H16).
  rewrite (IPString_irregular ip' Hne' H4' H16').
  intros [= E]. apply map_u8_inj.
  pose proof (decode_hex_dump ip) as D. rewrite E, decode_hex_dump in D.
  now injection D as <-.
Qed.

Lemma IPString_irregular_injective_witness : [x0a; x01] = [x0a; x01].
Proof.
  apply (IPString_irregular_injective [x0a; x01] [x0a; x01]);
    try discriminate; reflexivity.
Defined.

(** ** Reading a colon-hexadecimal text back *)

Lemma fields_word (w rest : string) :
  colon_free w = true -> fields (w ++ String ":" rest) = w :: fields rest.
Proof.
  induction w as [|c w IH]; intros F; cbn [append fields].
  - now rewrite Ascii.eqb_refl.
  - cbn [colon_free] in F. apply andb_true_iff in F. destruct F as [Fc Fw].
    apply negb_true_iff in Fc. now rewrite Fc, (IH Fw).
Qed.

Lemma fields_last (w : string) : colon_free w = true -> fields w = [w].
Proof.
  induction w as [|c w IH]; intros F; cbn [fields]; [reflexivity|].
  cbn [colon_free] in F. apply andb_true_iff in F. destruct F as [Fc Fw].
  apply negb_true_iff in Fc. now rewrite Fc, (IH Fw).
Qed.

Lemma fields_join_then (P : list string) (rest : string) :
  Forall word P -> P <> [] ->
  fields (String.concat ":" P ++ String ":" rest) = (P ++ fields rest)%list.
Proof.
  induction P as [|p [|p2 r] IH]; intros HP Hne; [congruence| |].
  - inversion HP as [|? ? [_ F] _]; subst. cbn [String.concat app].
    now apply fields_word.
  - inversion HP as [|? ? [_ F] HP']; subst.
    rewrite concat_cons2, !append_assoc. cbn [append].
    rewrite (fields_word p _ F). cbn [app]. f_equal.
    apply IH; [exact HP'|discriminate].
Qed.

Lemma fields_join (P : list string) :
  Forall word P -> P <> [] -> fields (String.concat ":" P) = P.
Proof.
  induction P as [|p [|p2 r] IH]; intros HP Hne; [congruence| |].
  - inversion HP as [|? ? [_ F] _]; subst. now apply fields_last.
  - inversion HP as [|? ? [_ F] HP']; subst.
    rewrite concat_cons2. cbn [append].
    rewrite (fields_word p _ F). f_equal.
    apply IH; [exact HP'|discriminate].
Qed.

Lemma word_nonempty (p : string) : word p -> nonempty p = true.
Proof. intros [H _]. destruct p; [congruence|reflexivity]. Qed.

Lemma words_nonempty (P : list string) :
  Forall word P -> forallb nonempty P = true.
Proof.
  induction 1 as [|p P Hp _ IH]; [reflexivity|].
  cbn [forallb]. now rewrite (word_nonempty p Hp), IH.
Qed.

Lemma filter_words (P : list string) : Forall word P -> filter nonempty P = P.
Proof.
  induction 1 as [|p P Hp _ IH]; [reflexivity|].
  cbn [filter]. now rewrite (word_nonempty p Hp), IH.
Qed.

Lemma fields_before_gap (P R : list string) :
  Forall word P -> fields_before (P ++ "" :: R) = P.
Proof.
  induction 1 as [|p P Hp _ IH]; [reflexivity|].
  cbn [app fields_before]. now rewrite (word_nonempty p Hp), IH.
Qed.

Lemma fields_from_gap (P R : list string) :
  Forall word P -> fields_from (P ++ "" :: R) = "" :: R.
Proof.
  induction 1 as [|p P Hp _ IH]; [reflexivity|].
  cbn [app fields_from]. now rewrite (word_nonempty p Hp), IH.
Qed.

Lemma gap_not_all_nonempty (P R : list string) :
  forallb nonempty (P ++ "" :: R) = false.
Proof.
  rewrite forallb_app. cbn [forallb nonempty]. now rewrite andb_false_r.
Qed.

(** The fields of a text with "::". *)
Lemma fields_compressed (P Q : list string) :
  Forall word P -> Forall word Q ->
  exists R,
    fields (String.concat ":" P ++ "::" ++ String.concat ":" Q)
    = (P ++ "" :: R)%list
    /\ filter nonempty R = Q.
Proof.
  intros HP HQ.
  assert (HQs : exists R', fields (String.concat ":" Q) = R'
                           /\ filter nonempty R' = Q).
  { destruct Q as [|q Q].
    - exists [""]. now split.
    - exists (q :: Q). split; [apply fields_join; [exact HQ|discriminate]|].
      now apply filter_words. }
  destruct HQs as (R' & ER & FR).
  change ("::" ++ String.concat ":" Q)
    with (String ":" (String ":" (String.concat ":" Q))).
  destruct P as [|p P].
  - exists ("" :: R'). cbn [String.concat append fields app].
    rewrite !Ascii.eqb_refl, ER. now split.
  - exists R'. rewrite fields_join_then by (try exact HP; discriminate).
    cbn [fields]. rewrite Ascii.eqb_refl, ER. now split.
Qed.

Lemma hex_words (l : list Z) :
  Forall (fun g => hex_text (hex g) g = true) l -> Forall word (map hex l).
Proof.
  induction 1 as [|g l H _ IH]; cbn [map]; constructor; [|exact IH].
  exact (hex_text_word _ _ H).
Qed.

Lemma parse_hex_groups (l : list Z) :
  Forall (fun g => hex_text (hex g) g = true) l ->
  parse_groups (map hex l) = Some l.
Proof.
  induction 1 as [|g l H _ IH]; [reflexivity|].
  cbn [map parse_groups]. rewrite IH.
  unfold hex_text, numeral_text in H. apply andb_true_iff in H.
  destruct H as [_ H].
  destruct (numeral_value hex_digit 16 0 (hex g)) as [v|]; [|discriminate].
  apply Z.eqb_eq in H. now subst.
Qed.

Lemma Forall_firstn_of {A : Type} (P : A -> Prop) (n : nat) (l : list A) :
  Forall P l -> Forall P (firstn n l).
Proof.
  revert l. induction n as [|n IH]; intros l H; [constructor|].
  destruct H; cbn [firstn]; constructor; auto.
Qed.

Lemma Forall_skipn_of {A : Type} (P : A -> Prop) (n : nat) (l : list A) :
  Forall P l -> Forall P (skipn n l).
Proof.
  revert l. induction n as [|n IH]; intros l H; [exact H|].
  destruct H; cbn [skipn]; [constructor|auto].
Qed.

(** Decoding a text with "::" whose run stands for [l] zero groups. *)
Lemma decode_compressed (gs : list Z) (s l : nat) :
  List.length gs = 8%nat -> (s + l <= 8)%nat ->
  Forall (fun g => hex_text (hex g) g = true) gs ->
  decode_ipv6 (String.concat ":" (map hex (firstn s gs)) ++ "::"
               ++ String.concat ":" (map hex (skipn (s + l) gs)))
  = Some (firstn s gs ++ repeat 0 l ++ skipn (s + l) gs)%list.
Proof.
  intros Hlen Hs Hgs.
  pose proof (Forall_firstn_of _ s gs Hgs) as HP.
  pose proof (Forall_skipn_of _ (s + l) gs Hgs) as HQ.
  destruct (fields_compressed _ _ (hex_words _ HP) (hex_words _ HQ))
    as (R & EF & ER).
  unfold decode_ipv6. cbv zeta. rewrite EF, gap_not_all_nonempty.
  rewrite fields_before_gap, fields_from_gap by (now apply hex_words).
  cbn [filter nonempty]. rewrite ER.
  rewrite !parse_hex_groups by assumption.
  rewrite length_firstn, length_skipn, Hlen.
  replace (8 - Nat.min s 8 - (8 - (s + l)))%nat with l by lia.
  reflexivity.
Qed.

Lemma decode_plain (gs : list Z) :
  gs <> [] ->
  Forall (fun g => hex_text (hex g) g = true) gs ->
  decode_ipv6 (String.concat ":" (map hex gs)) = Some gs.
Proof.
  intros Hne Hgs. unfold decode_ipv6. cbv zeta.
  assert (Hm : map hex gs <> []) by (destruct gs; [congruence|discriminate]).
  rewrite (fields_join _ (hex_words _ Hgs) Hm).
  rewrite words_nonempty by (now apply hex_words).
  now apply parse_hex_groups.
Qed.

(** ** The text of a sixteen-byte address determines its groups *)

(** The search returns -1, -1 or the bounds of a run of zero groups. *)
Lemma search_result_run (ip : net.IP) :
  List.length ip = 16%nat ->
  exists e0 e1,
    find_zero_run 9 ip 0 (-1) (-1) = Some (e0, e1) /\
    ((e0 = -1 /\ e1 = -1) \/
     exists s l, zero_run (zero_groups ip) s l = true /\
                 e0 = 2 * Z.of_nat s /\ e1 = 2 * Z.of_nat (s + l)).
Proof.
  intros Hlen. rewrite (search_on_pattern ip Hlen).
  pose proof (search_check_all (zero_groups ip) (zero_groups_length ip)) as T.
  unfold search_check in T. apply andb_true_iff in T. destruct T as [_ T].
  destruct (find_zero_run 9 (pattern_address (zero_groups ip)) 0 (-1) (-1))
    as [[e0 e1]|];
    [|discriminate].
  rewrite !andb_true_iff in T. destruct T as [_ T3].
  exists e0, e1. split; [reflexivity|].
  apply orb_true_iff in T3. destruct T3 as [T3|T3].
  - apply andb_true_iff in T3. destruct T3 as [A B].
    apply Z.eqb_eq in A. apply Z.eqb_eq in B. now left.
  - right. apply existsb_exists in T3. destruct T3 as [s [_ T3]].
    apply existsb_exists in T3. destruct T3 as [l [_ T3]].
    destruct (in_range s l e0 e1) eqn:R; [|discriminate].
    unfold longest_run_b in T3.
    destruct (zero_run (zero_groups ip) s l) eqn:Hrun; [|discriminate].
    unfold in_range in R. apply andb_true_iff in R. destruct R as [R1 R2].
    apply Z.eqb_eq in R1. apply Z.eqb_eq in R2.
    exists s, l. now split.
Qed.

(** The groups of a run are zero. *)
Lemma zero_run_groups (ip : net.IP) (s l : nat) :
  List.length ip = 16%nat ->
  zero_run (zero_groups ip) s l = true ->
  groups ip = (firstn s (groups ip) ++ repeat 0 l ++ skipn (s + l) (groups ip))%list.
Proof.
  intros Hlen H. pose proof (zero_run_bounds _ _ _ H) as [Hl Hs].
  unfold zero_run in H.
  destruct ((1 <=? l)%nat && (s + l <=? 8)%nat); [|discriminate].
  rewrite !andb_true_iff in H. destruct H as [[H _] _].
  rewrite forallb_forall in H.
  apply nth_ext with (d := 0) (d' := 0).
  - rewrite !length_app, length_firstn, repeat_length, length_skipn,
      (groups_length ip). lia.
  - rewrite (groups_length ip). intros k Hk.
    destruct (Nat.ltb_spec k s) as [Hks|Hks].
    + rewrite app_nth1 by (rewrite length_firstn, (groups_length ip); lia).
      now rewrite nth_firstn, (proj2 (Nat.ltb_lt k s) Hks).
    + rewrite app_nth2 by (rewrite length_firstn, (groups_length ip); lia).
      rewrite length_firstn, (groups_length ip).
      replace (Nat.min s 8) with s by lia.
      destruct (Nat.ltb_spec (k - s) l) as [Hkl|Hkl].
      * rewrite app_nth1 by (rewrite repeat_length; lia).
        rewrite nth_repeat.
        assert (Hin : In k (seq s l)) by (apply in_seq; lia).
        specialize (H k Hin). unfold zero_at in H.
        rewrite (nth_zero_groups ip Hlen) in H by lia.
        apply Z.eqb_eq in H. now rewrite (nth_groups ip) by lia.
      * rewrite app_nth2 by (rewrite repeat_length; lia).
        rewrite repeat_length, nth_skipn. f_equal. lia.
Qed.

(** The text of [convertIPv6], read back, gives the groups. *)
Lemma convertIPv6_decode (ip : net.IP) :
  List.length ip = 16%nat ->
  exists s, convertIPv6 ip = Some s /\ decode_ipv6 s = Some (groups ip).
Proof.
  intros Hlen. unfold convertIPv6.
  destruct (search_result_run ip Hlen) as (e0 & e1 & E & Hcase).
  rewrite E. cbn [bind].
  destruct (e1 - e0 <=? 2) eqn:Hle.
  - rewrite (write_groups_plain ip Hlen). eexists. split; [reflexivity|].
    rewrite <- (concat_segment_0 ip 8). fold (groups ip).
    apply decode_plain; [|apply groups_text].
    intros E0. pose proof (groups_length ip) as L. rewrite E0 in L. discriminate.
  - apply Z.leb_gt in Hle.
    destruct Hcase as [[-> ->]|(s & l & Hrun & -> & ->)]; [lia|].
    pose proof (zero_run_bounds _ _ _ Hrun) as [Hl Hs].
    rewrite (write_groups_compressed ip Hlen s l Hl Hs).
    eexists. split; [reflexivity|].
    rewrite <- (compressed_text ip s l Hs).
    rewrite (decode_compressed (groups ip) s l (groups_length ip) Hs
               (groups_text ip)).
    now rewrite <- (zero_run_groups ip s l Hlen Hrun).
Qed.

(** The groups determine the sixteen bytes. *)
Lemma group_value_inj (a b c d : byte) :
  256 * Go.u8 a + Go.u8 b = 256 * Go.u8 c + Go.u8 d -> a = c /\ b = d.
Proof.
  intros H. pose proof (u8_range a). pose proof (u8_range b).
  pose proof (u8_range c). pose proof (u8_range d).
  split; apply u8_inj; lia.
Qed.

Lemma groups_inj (ip ip' : net.IP) :
  List.length ip = 16%nat -> List.length ip' = 16%nat ->
  groups ip = groups ip' -> ip = ip'.
Proof.
  intros H H' E.
  do 16 (destruct ip as [|? ip]; try discriminate).
  destruct ip; try discriminate.
  do 16 (destruct ip' as [|? ip']; try discriminate).
  destruct ip'; try discriminate.
  unfold groups, group_value in E. cbn [seq map nth Nat.mul Nat.add] in E.
  injection E as E0 E1 E2 E3 E4 E5 E6 E7.
  apply group_value_inj in E0, E1, E2, E3, E4, E5, E6, E7.
  destruct E0, E1, E2, E3, E4, E5, E6, E7. now subst.
Qed.

(** X9. The colon-hexadecimal text of a sixteen-byte address that [To4]
    rejects can be read back: splitting it at the colons and letting
    the empty field stand for the missing zero groups gives the eight
    groups of the address, so the compression loses nothing. *)
Theorem IPString_ipv6_round_trip (ip : net.IP) :
  List.length ip = 16%nat -> net.To4 ip = None ->
  exists s, IPString ip = Some s /\ decode_ipv6 s = Some (groups ip).
Proof.
  intros Hlen H4. rewrite (IPString_16 ip Hlen H4).
  now apply convertIPv6_decode.
Qed.

Lemma IPString_ipv6_round_trip_witness :
  exists s, IPString sample_compressed = Some s
            /\ decode_ipv6 s = Some (groups sample_compressed).
Proof.
  exact (IPString_ipv6_round_trip sample_compressed eq_refl eq_refl).
Defined.

(** X10. Two sixteen-byte addresses that [To4] rejects and that have the
    same text are the same address. *)
Theorem IPString_ipv6_injective (ip ip' : net.IP) :
  List.length ip = 16%nat -> List.length ip' = 16%nat ->
  net.To4 ip = None -> net.To4 ip' = None ->
  IPString ip = IPString ip' -> ip = ip'.
Proof.
  intros Hlen Hlen' H4 H4' E.
  rewrite (IPString_16 ip Hlen H4), (IPString_16 ip' Hlen' H4') in E.
  destruct (convertIPv6_decode ip Hlen) as (s & Es & Ds).
  destruct (convertIPv6_decode ip' Hlen') as (s' & Es' & Ds').
  rewrite Es, Es' in E. injection E as <-.
  rewrite Ds in Ds'.
  apply groups_inj; [exact Hlen|exact Hlen'|congruence].
Qed.

Lemma IPString_ipv6_injective_witness : sample_compressed = sample_compressed.
Proof.
  exact (IPString_ipv6_injective sample_compressed sample_compressed
           eq_refl eq_refl eq_refl eq_refl eq_refl).
Defined.

(** ** What a check can return and do *)

Lemma PortHealthCheck_cases (w : World) (h : HealthCheck) (ip : net.IP) (s : string) :
  IPString ip = Some s ->
  let address := s ++ ":" ++ port h in
  let dial := EvDial (network h) address (timeout h) in
  (exists conn,
      DialTimeout w (network h) address (timeout h) = inl conn
      /\ PortHealthCheck w h ip = Some (None, [dial; EvConnClose conn]))
  \/ (exists code msg,
         PortHealthCheck w h ip = Some (failure code msg, [dial])
         /\ In code [4; 64]).
Proof.
  intros E. cbv zeta. unfold PortHealthCheck. rewrite E. cbn [lift bindR].
  destruct (DialTimeout w (network h) (s ++ ":" ++ port h) (timeout h))
    as [conn|err].
  - left. exists conn. now split.
  - right. destruct (is_timeout err).
    + exists 64, ("timeout when making TCP connection: " ++ Error err).
      split; [reflexivity|cbn; tauto].
    + exists 4, ("failure to make TCP connection: " ++ Error err).
      split; [reflexivity|cbn; tauto].
Qed.

Lemma reads_only (body : list ReadResult) (events : list Event) :
  read_to_error body events ->
  forall e, In e events -> exists r, e = EvRead r.
Proof.
  intros (before & last & rest & -> & _) e H.
  apply in_app_or in H. destruct H as [H|H].
  - apply in_map_iff in H. destruct H as (r & <- & _). now exists r.
  - destruct H as [<-|[]]. now exists last.
Qed.

Lemma HTTPHealthCheck_cases (w : World) (h : HealthCheck) (ip : net.IP) (s : string) :
  IPString ip = Some s ->
  let raw := "http://" ++ s ++ ":" ++ port h ++ uri h in
  (exists err,
      url_Parse w raw = inr err
      /\ HTTPHealthCheck w h ip
         = Some (failure (-1) ("failed to parse URL: " ++ Error err), []))
  \/ (exists u,
         url_Parse w raw = inl u
         /\ let req := get_request (set_Host u (strip_trailing_colon (Host u))) in
            (exists resp reads,
                client_Do w (timeout h) req = inl resp
                /\ read_to_error (Body resp) reads
                /\ exists r,
                     HTTPHealthCheck w h ip
                     = Some (r, (EvDo (timeout h) req :: reads ++ [EvBodyClose])%list)
                     /\ (StatusCode resp = 200 -> r = None)
                     /\ (StatusCode resp <> 200 ->
                         exists msg, r = failure 6 msg))
            \/ (exists code msg,
                   HTTPHealthCheck w h ip
                   = Some (failure code msg, [EvDo (timeout h) req])
                   /\ In code [5; 65])).
Proof.
  intros E. cbv zeta. unfold HTTPHealthCheck. rewrite E. cbn [lift bindR].
  destruct (url_Parse w ("http://" ++ s ++ ":" ++ port h ++ uri h)) as [u|err].
  - right. exists u. split; [reflexivity|]. cbv zeta.
    destruct (client_Do w (timeout h)
                (get_request (set_Host u (strip_trailing_colon (Host u)))))
      as [resp|err].
    + left. destruct (noopReadAll_spec (Body resp)) as (reads & R & Hreads).
      exists resp, reads. split; [reflexivity|]. split; [exact Hreads|].
      cbn [emit bindR]. rewrite R. unfold http_StatusOK.
      destruct (Z.eqb_spec (StatusCode resp) 200) as [E200|N200].
      * exists None. split; [reflexivity|]. split; [reflexivity|congruence].
      * eexists. split; [reflexivity|]. split; [congruence|]. intros _. eauto.
    + right. destruct (is_timeout err).
      * exists 65, ("timeout when making HTTP request: " ++ Error err).
        split; [reflexivity|cbn; tauto].
      * exists 5, ("failure to make HTTP request: " ++ Error err).
        split; [reflexivity|cbn; tauto].
  - left. exists err. now split.
Qed.

(** The address that the loop accepts has a dotted text that does not
    start with 127. *)
Lemma qualifies_dotted (x : Addr) :
  qualifies x = true ->
  exists a b c d,
    IPString (addr_IP x) = Some (dotted a b c d) /\ Go.u8 a <> 127.
Proof.
  destruct x as [n|ip zone]; cbn [qualifies addr_IP]; [|discriminate].
  unfold suitable, net.IsLoopback.
  destruct (net.To4 (IP n)) as [q|] eqn:E4;
    [|rewrite andb_false_r; discriminate].
  rewrite andb_true_r. intros H. apply negb_true_iff in H.
  pose proof (To4_length _ _ E4) as Hq.
  do 4 (destruct q as [|? q]; try discriminate).
  destruct q; try discriminate.
  exists b, b0, b1, b2. split; [now apply IPString_To4|].
  unfold net.byte_is in H. cbn [nth_error] in H. now apply Z.eqb_neq in H.
Qed.

Lemma In_EvAddrs (l : list Interface) (e : Event) :
  In e (map EvAddrs l) -> exists i, e = EvAddrs i.
Proof. intros H. apply in_map_iff in H. destruct H as (i & <- & _). eauto. Qed.

(** The check as the probe of the accepted address, or the failure of
    code 3. *)
Lemma CheckInterfaces_cases (w : World) (h : HealthCheck)
  (interfaces : list Interface) :
  (exists x r tp,
      find qualifies (listed w interfaces) = Some x
      /\ qualifies x = true
      /\ probe_of w h (addr_IP x) = Some (r, tp)
      /\ CheckInterfaces w h interfaces
         = Some (r, (map EvAddrs (inspected w interfaces) ++ tp)%list))
  \/ (find qualifies (listed w interfaces) = None
      /\ CheckInterfaces w h interfaces
         = Some (failure 3 "failure to find suitable interface",
                 map EvAddrs interfaces)).
Proof.
  rewrite CheckInterfaces_probe.
  assert (Htotal : forall ip, exists r t, probe_of w h ip = Some (r, t)).
  { intros ip. destruct (probe_of_total w h ip) as (r & t & E & _). eauto. }
  pose proof (check_interfaces_find w (probe_of w h) interfaces Htotal) as H.
  destruct (find qualifies (listed w interfaces)) as [x|] eqn:F.
  - left. destruct H as (r & tp & E & C). exists x, r, tp.
    repeat split; try assumption. now apply find_some in F.
  - right. now split.
Qed.

Lemma probe_of_port (w : World) (h : HealthCheck) :
  uri h = "" -> probe_of w h = PortHealthCheck w h.
Proof. intros E. unfold probe_of. now rewrite E. Qed.

Lemma probe_of_http (w : World) (h : HealthCheck) :
  uri h <> "" -> probe_of w h = HTTPHealthCheck w h.
Proof.
  intros N. unfold probe_of. destruct (uri h) as [|c u]; [congruence|].
  reflexivity.
Qed.

Lemma CheckInterfaces_port_facts (w : World) (h : HealthCheck)
  (interfaces : list Interface) :
  uri h = "" ->
  exists r t,
    CheckInterfaces w h interfaces = Some (r, t)
    /\ code_in r [3; 4; 64]
    /\ (forall to req, ~ In (EvDo to req) t)
    /\ (r = None ->
        exists address conn,
          DialTimeout w (network h) address (timeout h) = inl conn
          /\ In (EvDial (network h) address (timeout h)) t
          /\ In (EvConnClose conn) t).
Proof.
  intros Huri.
  destruct (CheckInterfaces_cases w h interfaces)
    as [(x & r & tp & _ & Q & P & C)|[_ C]].
  - rewrite (probe_of_port w h Huri) in P.
    destruct (qualifies_dotted x Q) as (a & b & c & d & S & _).
    exists r, (map EvAddrs (inspected w interfaces) ++ tp)%list.
    split; [exact C|].
    destruct (PortHealthCheck_cases w h (addr_IP x) _ S)
      as [(conn & D & E)|(code & msg & E & Hcode)];
      rewrite E in P; injection P as <- <-.
    + split; [exact I|]. split.
      * intros to req H. apply in_app_or in H. destruct H as [H|H].
        -- apply In_EvAddrs in H. destruct H as [i H]. discriminate.
        -- cbn in H. intuition discriminate.
      * intros _. eexists _, conn. split; [exact D|].
        split; apply in_or_app; right; cbn; tauto.
    + split; [cbn in *; tauto|]. split.
      * intros to req H. apply in_app_or in H. destruct H as [H|H].
        -- apply In_EvAddrs in H. destruct H as [i H]. discriminate.
        -- cbn in H. intuition discriminate.
      * discriminate.
  - exists (failure 3 "failure to find suitable interface"), (map EvAddrs interfaces).
    split; [exact C|]. split; [cbn; tauto|]. split; [|discriminate].
    intros to req H. apply In_EvAddrs in H. destruct H as [i H]. discriminate.
Qed.

(** X11. With an empty URI a check ends in nil or in a failure of code
    3, 4 or 64 and makes no HTTP request; it returns nil only when a
    dial succeeded, and the connection of that dial is closed. *)
Theorem CheckInterfaces_port_mode (w : World) (h : HealthCheck)
  (interfaces : list Interface) :
  uri h = "" ->
  exists r t,
    CheckInterfaces w h interfaces = Some (r, t)
    /\ code_in r [3; 4; 64]
    /\ (forall to req, ~ In (EvDo to req) t)
    /\ (r = None ->
        exists address conn,
          DialTimeout w (network h) address (timeout h) = inl conn
          /\ In (EvDial (network h) address (timeout h)) t
          /\ In (EvConnClose conn) t).
Proof. apply CheckInterfaces_port_facts. Qed.

Lemma CheckInterfaces_port_mode_witness :
  CheckInterfaces anycast_first port_8080 [eth0]
  = Some (None, [EvAddrs eth0;
                 EvDial "tcp" "10.0.0.2:8080" 1000000000;
                 EvConnClose {| fd := 3 |}]).
Proof.
  destruct (CheckInterfaces_port_mode anycast_first port_8080 [eth0] eq_refl)
    as (r & t & E & _).
  rewrite E. vm_compute in E. now injection E as <- <-.
Defined.

Lemma CheckInterfaces_http_facts (w : World) (h : HealthCheck)
  (interfaces : list Interface) :
  uri h <> "" ->
  exists r t,
    CheckInterfaces w h interfaces = Some (r, t)
    /\ code_in r [-1; 3; 5; 6; 65]
    /\ (forall n a to, ~ In (EvDial n a to) t)
    /\ (r = None ->
        exists req resp,
          client_Do w (timeout h) req = inl resp
          /\ StatusCode resp = 200
          /\ In (EvDo (timeout h) req) t
          /\ In EvBodyClose t).
Proof.
  intros Huri.
  destruct (CheckInterfaces_cases w h interfaces)
    as [(x & r & tp & _ & Q & P & C)|[_ C]].
  - rewrite (probe_of_http w h Huri) in P.
    destruct (qualifies_dotted x Q) as (a & b & c & d & S & _).
    exists r, (map EvAddrs (inspected w interfaces) ++ tp)%list.
    split; [exact C|].
    assert (Hno : forall tp',
               (forall e, In e tp' -> forall n a' to, e <> EvDial n a' to) ->
               forall n a' to,
                 ~ In (EvDial n a' to)
                      (map EvAddrs (inspected w interfaces) ++ tp')%list).
    { intros tp' Htp n a' to H. apply in_app_or in H. destruct H as [H|H].
      - apply In_EvAddrs in H. destruct H as [i H]. discriminate.
      - now apply (Htp _ H n a' to). }
    destruct (HTTPHealthCheck_cases w h (addr_IP x) _ S)
      as [(err & _ & E)|(u & _ & [(resp & reads & D & R & r' & E & H200 & Hn200)
                                 |(code & msg & E & Hcode)])];
      rewrite E in P; injection P as <- <-.
    + split; [cbn; tauto|]. split; [|discriminate].
      apply Hno. intros e [].
    + split; [|split].
      * destruct (Z.eq_dec (StatusCode resp) 200) as [E200|N200].
        -- now rewrite (H200 E200).
        -- destruct (Hn200 N200) as [msg ->]. cbn. tauto.
      * apply Hno. intros e He n a' to ->. cbn in He.
        destruct He as [He|He]; [discriminate|].
        apply in_app_or in He. destruct He as [He|He].
        -- destruct (reads_only _ _ R _ He) as [rr Hr]. discriminate.
        -- cbn in He. intuition discriminate.
      * intros Hr. eexists _, resp. split; [exact D|]. split.
        -- destruct (Z.eq_dec (StatusCode resp) 200) as [E200|N200];
             [exact E200|].
           destruct (Hn200 N200) as [msg Hm]. rewrite Hm in Hr. discriminate.
        -- split; apply in_or_app; right.
           ++ now left.
           ++ right. apply in_or_app. right. now left.
    + split; [cbn in *; tauto|]. split; [|discriminate].
      apply Hno. intros e He n a' to ->. cbn in He. intuition discriminate.
  - exists (failure 3 "failure to find suitable interface"), (map EvAddrs interfaces).
    split; [exact C|]. split; [cbn; tauto|]. split; [|discriminate].
    intros n a to H. apply In_EvAddrs in H. destruct H as [i H]. discriminate.
Qed.

(** X12. With a URI a check ends in nil or in a failure of code -1, 3, 5,
    6 or 65 and dials no connection of its own; it returns nil only
    when a request was answered with status 200, and the body of that
    response is closed. *)
Theorem CheckInterfaces_http_mode (w : World) (h : HealthCheck)
  (interfaces : list Interface) :
  uri h <> "" ->
  exists r t,
    CheckInterfaces w h interfaces = Some (r, t)
    /\ code_in r [-1; 3; 5; 6; 65]
    /\ (forall n a to, ~ In (EvDial n a to) t)
    /\ (r = None ->
        exists req resp,
          client_Do w (timeout h) req = inl resp
          /\ StatusCode resp = 200
          /\ In (EvDo (timeout h) req) t
          /\ In EvBodyClose t).
Proof. apply CheckInterfaces_http_facts. Qed.

Lemma CheckInterfaces_http_mode_witness :
  CheckInterfaces ping_200 ping_check [eth0]
  = Some (None,
          [EvAddrs eth0;
           EvDo 1000000000 (get_request ping_url);
           EvRead (2, None); EvRead (0, Some io_EOF); EvBodyClose]).
Proof.
  destruct (CheckInterfaces_http_mode ping_200 ping_check [eth0])
    as (r & t & E & _); [discriminate|].
  rewrite E. vm_compute in E. now injection E as <- <-.
Defined.

(** X13. Every dial of a check goes to the dotted text of a 4-byte
    address that does not start with 127, followed by a colon and the
    port, over the configured network and with the configured timeout:
    never to a loopback address and never to a colon-hexadecimal text. *)
Theorem CheckInterfaces_dial_target (w : World) (h : HealthCheck)
  (interfaces : list Interface) (r : error) (t : list Event)
  (n address : string) (to : Z) :
  CheckInterfaces w h interfaces = Some (r, t) ->
  In (EvDial n address to) t ->
  exists a b c d,
    address = dotted a b c d ++ ":" ++ port h
    /\ Go.u8 a <> 127
    /\ n = network h
    /\ to = timeout h.
Proof.
  intros E Hin.
  destruct (string_dec (uri h) "") as [Huri|Huri].
  - destruct (CheckInterfaces_cases w h interfaces)
      as [(x & r' & tp & _ & Q & P & C)|[_ C]];
      rewrite C in E; injection E as <- <-.
    + rewrite (probe_of_port w h Huri) in P.
      destruct (qualifies_dotted x Q) as (a & b & c & d & S & Ha).
      apply in_app_or in Hin. destruct Hin as [H|H].
      * apply In_EvAddrs in H. destruct H as [i H]. discriminate.
      * exists a, b, c, d.
        destruct (PortHealthCheck_cases w h (addr_IP x) _ S)
          as [(conn & _ & E)|(code & msg & E & _)];
          rewrite E in P; injection P as <- <-; cbn in H;
          destruct H as [H|H]; try (injection H as <- <- <-; now repeat split);
          intuition discriminate.
    + apply In_EvAddrs in Hin. destruct Hin as [i H]. discriminate.
  - destruct (CheckInterfaces_http_facts w h interfaces Huri)
      as (r' & t' & E' & _ & Hno & _).
    rewrite E' in E. injection E as <- <-. now elim (Hno n address to).
Qed.

Lemma CheckInterfaces_dial_target_witness :
  exists a b c d,
    "10.0.0.2:8080" = dotted a b c d ++ ":" ++ port port_8080
    /\ Go.u8 a <> 127
    /\ "tcp" = network port_8080
    /\ 1000000000 = timeout port_8080.
Proof.
  apply (CheckInterfaces_dial_target anycast_first port_8080 [eth0] None
           [EvAddrs eth0; EvDial "tcp" "10.0.0.2:8080" 1000000000;
            EvConnClose {| fd := 3 |}]).
  - vm_compute. reflexivity.
  - cbn. tauto.
Defined.

(** ** The exit of the command *)

Lemma CheckInterfaces_codes (w : World) (h : HealthCheck)
  (interfaces : list Interface) :
  exists r t,
    CheckInterfaces w h interfaces = Some (r, t) /\ code_in r check_codes.
Proof.
  destruct (string_dec (uri h) "") as [Huri|Huri].
  - destruct (CheckInterfaces_port_facts w h interfaces Huri) as (r & t & E & C & _).
    exists r, t. split; [exact E|]. destruct r as [e|]; [|exact I].
    cbn in *. intuition.
  - destruct (CheckInterfaces_http_facts w h interfaces Huri) as (r & t & E & C & _).
    exists r, t. split; [exact E|]. destruct r as [e|]; [|exact I].
    cbn in *. intuition.
Qed.

Section Loops.

Import main.

Variable check : nat -> Run error.
Hypothesis check_codes_ok :
forall n, exists r t, check n = Some (r, t) /\ code_in r check_codes.

Variable interval : Z.

Lemma readiness_ends (fuel : nat) :
forall n trace,
  (exists t, readiness fuel check interval n trace = Returned None t)
  \/ (exists t, readiness fuel check interval n trace = Running t).
Proof.
induction fuel as [|fuel IH]; intros n trace; cbn [readiness].
- right. eauto.
- destruct (check_codes_ok n) as (r & t & -> & _).
  destruct r as [e|]; [apply IH|]. left. eauto.
Qed.

Lemma liveness_ends (fuel : nat) :
forall n trace,
  (exists e t,
      liveness fuel check interval n trace = Returned (Some (CheckError e)) t
      /\ In (Code e) check_codes)
  \/ (exists t, liveness fuel check interval n trace = Running t).
Proof.
induction fuel as [|fuel IH]; intros n trace; cbn [liveness].
- right. eauto.
- destruct (check_codes_ok n) as (r & t & -> & C).
  destruct r as [e|]; [|apply IH]. left. exists e. eauto.
Qed.

End Loops.

(** How [main] ends on a machine whose interfaces were enumerated, by
    the mode. *)
Lemma main_ends
  (newHealthCheck : string -> string -> string -> Z -> HealthCheck)
  (m : main.Machine) (flags : main.Flags) (interfaces : list Interface) :
  main.Interfaces m = inl interfaces ->
  match poll.mode_of flags with
  | poll.SingleShot =>
      forall fuel,
        (exists t,
            main.main newHealthCheck m flags fuel
            = main.Exited "healthcheck passed" 0 t)
        \/ (exists msg code t,
               main.main newHealthCheck m flags fuel
               = main.Exited ("healthcheck failed: " ++ msg) code t
               /\ In code check_codes)
  | poll.Readiness _ =>
      forall fuel,
        (exists t,
            main.main newHealthCheck m flags fuel
            = main.Exited "healthcheck passed" 0 t)
        \/ (exists t, main.main newHealthCheck m flags fuel = main.Alive t)
  | poll.Liveness _ =>
      forall fuel,
        (exists msg code t,
            main.main newHealthCheck m flags fuel
            = main.Exited ("healthcheck failed: " ++ msg) code t
            /\ In code check_codes)
        \/ (exists t, main.main newHealthCheck m flags fuel = main.Alive t)
  end.
Proof.
  intros Hm. unfold poll.mode_of, main.main, main.realMain. rewrite Hm. cbv zeta.
  set (h := newHealthCheck _ _ _ _).
  set (check := fun n => CheckInterfaces (main.world_at m n) h interfaces).
  assert (Hc : forall n, exists r t, check n = Some (r, t) /\ code_in r check_codes)
    by (intros n; apply CheckInterfaces_codes).
  destruct (main.readinessInterval flags >? 0).
  - intros fuel.
    destruct (readiness_ends check Hc (main.readinessInterval flags) fuel 0%nat [])
      as [[t ->]|[t ->]]; [left|right]; eauto.
  - destruct (main.livenessInterval flags >? 0).
    + intros fuel.
      destruct (liveness_ends check Hc (main.livenessInterval flags) fuel 0%nat [])
        as [(e & t & -> & C)|[t ->]]; [left|right]; eauto.
    + intros fuel. destruct (Hc 0%nat) as (r & t & E & C).
      unfold check in E. cbv beta in E. fold h. cbv beta. rewrite E.
      destruct r as [e|]; [right|left]; cbn [main.of_check]; eauto.
Qed.

(** X14. On a machine whose interfaces were enumerated the command ends
    as its mode allows. In single-shot mode it prints "healthcheck
    passed" and exits with 0, or prints "healthcheck failed: " and the
    message and exits with one of -1, 3, 4, 5, 6, 64, 65. In readiness
    mode it exits only with "healthcheck passed" and 0: the failures of
    the earlier checks are not reported. In liveness mode it exits only
    with a failure. It never crashes. *)
Theorem main_exit_by_mode
  (newHealthCheck : string -> string -> string -> Z -> HealthCheck)
  (m : main.Machine) (flags : main.Flags) (interfaces : list Interface) :
  main.Interfaces m = inl interfaces ->
  match poll.mode_of flags with
  | poll.SingleShot =>
      forall fuel,
        (exists t,
            main.main newHealthCheck m flags fuel
            = main.Exited "healthcheck passed" 0 t)
        \/ (exists msg code t,
               main.main newHealthCheck m flags fuel
               = main.Exited ("healthcheck failed: " ++ msg) code t
               /\ In code [-1; 3; 4; 5; 6; 64; 65])
  | poll.Readiness _ =>
      forall fuel,
        (exists t,
            main.main newHealthCheck m flags fuel
            = main.Exited "healthcheck passed" 0 t)
        \/ (exists t, main.main newHealthCheck m flags fuel = main.Alive t)
  | poll.Liveness _ =>
      forall fuel,
        (exists msg code t,
            main.main newHealthCheck m flags fuel
            = main.Exited ("healthcheck failed: " ++ msg) code t
            /\ In code [-1; 3; 4; 5; 6; 64; 65])
        \/ (exists t, main.main newHealthCheck m flags fuel = main.Alive t)
  end.
Proof. apply main_ends. Qed.

Lemma main_exit_by_mode_witness :
  (exists t,
      main.main NewHealthCheck late_server readiness_flags 3
      = main.Exited "healthcheck passed" 0 t)
  \/ (exists t,
         main.main NewHealthCheck late_server readiness_flags 3 = main.Alive t).
Proof.
  exact (main_exit_by_mode NewHealthCheck late_server readiness_flags [eth0]
           eq_refl 3%nat).
Defined.

(** X15. The command exits with 127 exactly when the interfaces could not
    be enumerated; it has then made no check, in any mode, and printed
    "healthcheck failed(unknown error)failure to get interfaces: " and
    the error. *)
Theorem main_exit_127
  (newHealthCheck : string -> string -> string -> Z -> HealthCheck)
  (m : main.Machine) (flags : main.Flags) (fuel : nat) :
  (forall err,
      main.Interfaces m = inr err ->
      main.main newHealthCheck m flags fuel
      = main.Exited ("healthcheck failed(unknown error)"
                     ++ "failure to get interfaces: " ++ Error err) 127 [])
  /\ (forall out t,
         main.main newHealthCheck m flags fuel = main.Exited out 127 t ->
         exists err, main.Interfaces m = inr err).
Proof.
  split.
  - intros err Hm. unfold main.main, main.realMain. now rewrite Hm.
  - intros out t H. destruct (main.Interfaces m) as [interfaces|err] eqn:Hm;
      [|eauto]. exfalso.
    pose proof (main_ends newHealthCheck m flags interfaces Hm) as E.
    destruct (poll.mode_of flags); specialize (E fuel);
      repeat match goal with
        | H : _ \/ _ |- _ => destruct H
        | H : exists _, _ |- _ => destruct H
        | H : _ /\ _ |- _ => destruct H
        end;
      match goal with
      | H1 : main.main _ _ _ _ = _, H2 : main.main _ _ _ _ = _ |- _ =>
          rewrite H1 in H2; try discriminate; injection H2 as; subst
      end;
      cbn in *; intuition lia.
Qed.

Lemma main_exit_127_witness :
  main.main NewHealthCheck no_interfaces readiness_flags 0
  = main.Exited
      "healthcheck failed(unknown error)failure to get interfaces: route ip+net: netlinkrib: too many open files"
      127 [].
Proof.
  exact (proj1 (main_exit_127 NewHealthCheck no_interfaces readiness_flags 0)
           _ eq_refl).
Defined.

(** ** The earlier command and the helper of the tests *)

Lemma bindP_Next_nil {A B : Type} (a : A) (k : A -> legacy.Proc B) :
  legacy.bindP (legacy.Next a []) k = k a.
Proof. cbn. now destruct (k a). Qed.

Lemma portHealthCheck_ends (env : legacy.Env) (flags : legacy.Flags) (s : string) :
  legacy_end (legacy.portHealthCheck env flags s).
Proof.
  unfold legacy.portHealthCheck. cbv zeta.
  destruct (DialTimeout _ _ _ _) as [conn|err].
  - now left.
  - right. destruct (is_timeout err).
    + exists 64. split; [cbn; tauto|reflexivity].
    + exists 4. split; [cbn; tauto|reflexivity].
Qed.

Lemma httpHealthCheck_ends (env : legacy.Env) (flags : legacy.Flags) (s : string) :
  legacy_end (legacy.httpHealthCheck env flags s).
Proof.
  unfold legacy.httpHealthCheck. cbv zeta.
  destruct (legacy.client_Get _ _ _) as [resp|err].
  - destruct (StatusCode resp =? http_StatusOK).
    + now left.
    + right. exists 6. split; [cbn; tauto|reflexivity].
  - right. destruct (is_timeout err).
    + exists 65. split; [cbn; tauto|reflexivity].
    + exists 5. split; [cbn; tauto|reflexivity].
Qed.

Lemma legacy_probe_ends (env : legacy.Env) (flags : legacy.Flags) (s : string) :
  legacy_end (legacy_probe env flags s).
Proof.
  unfold legacy_probe. destruct (_ >? 0).
  - apply httpHealthCheck_ends.
  - apply portHealthCheck_ends.
Qed.

Lemma legacy_end_bind (p : legacy.Proc unit) (k : unit -> legacy.Proc unit) :
  legacy_end p -> legacy.bindP p k = p.
Proof. intros [->|(code & _ & ->)]; reflexivity. Qed.

Lemma addrs_loop_find (env : legacy.Env) (flags : legacy.Flags) (addrs : list Addr) :
  legacy.addrs_loop env flags addrs
  = match find qualifies addrs with
    | Some a => legacy_probe env flags (legacy.IP_String env (addr_IP a))
    | None => legacy.Next tt []
    end.
Proof.
  induction addrs as [|a addrs IH]; [reflexivity|].
  cbn [legacy.addrs_loop find]. destruct a as [n|ip zone];
    cbn [qualifies addr_IP]; [|now rewrite bindP_Next_nil].
  unfold suitable. destruct (negb (net.IsLoopback (IP n)));
    cbn [andb]; [|now rewrite bindP_Next_nil].
  destruct (net.To4 (IP n)); [|now rewrite bindP_Next_nil].
  unfold legacy_probe. destruct (_ >? 0).
  - apply legacy_end_bind, httpHealthCheck_ends.
  - apply legacy_end_bind, portHealthCheck_ends.
Qed.

Lemma interfaces_loop_find (env : legacy.Env) (flags : legacy.Flags)
  (interfaces : list Interface) :
  legacy.interfaces_loop env flags interfaces
  = match find qualifies (listed (legacy.world env) interfaces) with
    | Some a => legacy_probe env flags (legacy.IP_String env (addr_IP a))
    | None => legacy.Next tt []
    end.
Proof.
  induction interfaces as [|intf rest IH]; [reflexivity|].
  cbn [legacy.interfaces_loop listed flat_map].
  fold (listed (legacy.world env) rest).
  rewrite find_app_first. unfold lookup.
  destruct (Addrs (legacy.world env) intf) as [addrs|err]; [|exact IH].
  rewrite addrs_loop_find. destruct (find qualifies addrs) as [a|].
  - apply legacy_end_bind, legacy_probe_ends.
  - now rewrite bindP_Next_nil.
Qed.

Lemma legacy_main_find (env : legacy.Env) (flags : legacy.Flags)
  (interfaces : list Interface) :
  legacy.Interfaces env = inl interfaces ->
  legacy.main env flags
  = match find qualifies (listed (legacy.world env) interfaces) with
    | Some a => legacy_probe env flags (legacy.IP_String env (addr_IP a))
    | None =>
        legacy.Exit ["healthcheck failed: failure to find suitable interface"] 3
    end.
Proof.
  intros H. unfold legacy.main. rewrite H, interfaces_loop_find.
  destruct (find qualifies (listed (legacy.world env) interfaces)) as [a|].
  - apply legacy_end_bind, legacy_probe_ends.
  - reflexivity.
Qed.

Lemma first_IPv4_find (S : net.IP -> string) (addrs : list Addr) :
  first_IPv4 S addrs
  = option_map (fun a => S (addr_IP a)) (find qualifies addrs).
Proof.
  induction addrs as [|a addrs IH]; [reflexivity|].
  cbn [first_IPv4 find]. destruct a as [n|ip zone];
    cbn [qualifies addr_IP]; [|exact IH].
  unfold suitable. destruct (negb (net.IsLoopback (IP n))); cbn [andb];
    [|exact IH].
  destruct (net.To4 (IP n)); [reflexivity|exact IH].
Qed.

Lemma getNonLoopbackIP_find (S : net.IP -> string) (w : World)
  (interfaces : list Interface) :
  getNonLoopbackIP S w interfaces
  = option_map (fun a => S (addr_IP a)) (find qualifies (listed w interfaces)).
Proof.
  induction interfaces as [|intf rest IH]; [reflexivity|].
  cbn [getNonLoopbackIP listed flat_map]. fold (listed w rest).
  rewrite find_app_first. unfold lookup.
  destruct (Addrs w intf) as [addrs|err]; [|exact IH].
  rewrite first_IPv4_find. now destruct (find qualifies addrs).
Qed.

Lemma qualifies_To4 (x : Addr) :
  qualifies x = true -> net.To4 (addr_IP x) <> None.
Proof.
  destruct x as [n|ip zone]; cbn [qualifies addr_IP]; [|discriminate].
  unfold suitable. destruct (net.To4 (IP n)); [discriminate|].
  now rewrite andb_false_r.
Qed.

(** X16. The earlier command always exits, and with one line: "healthcheck
    passed" and status 0, or "healthcheck failed: " with the reason of
    its status, one of 1, 3, 4, 5, 6, 64, 65. It never falls off the end
    of [main], and its checks never return to the loop. *)
Theorem legacy_main_exits (env : legacy.Env) (flags : legacy.Flags) :
  legacy.main env flags = legacy.Exit ["healthcheck passed"] 0
  \/ exists code,
       In code [1; 3; 4; 5; 6; 64; 65]
       /\ legacy.main env flags
          = legacy.Exit ["healthcheck failed: " ++ legacy_reason code] code.
Proof.
  destruct (legacy.Interfaces env) as [interfaces|err] eqn:H.
  - rewrite (legacy_main_find env flags interfaces H).
    destruct (find qualifies (listed (legacy.world env) interfaces)) as [a|].
    + apply legacy_probe_ends.
    + right. exists 3. split; [cbn; tauto|reflexivity].
  - right. exists 1. split; [cbn; tauto|].
    unfold legacy.main. now rewrite H.
Qed.

(** X17. The earlier command checks one address, the first of type
    [*net.IPNet] that is not a loopback address and is expressible in
    four bytes, in interface-enumeration order, and ends with the end of
    that check; without such an address it exits with status 3. *)
Theorem legacy_main_first_address (env : legacy.Env) (flags : legacy.Flags)
  (interfaces : list Interface) :
  legacy.Interfaces env = inl interfaces ->
  legacy.main env flags
  = match find qualifies (listed (legacy.world env) interfaces) with
    | Some a =>
        if Z.of_nat (String.length (legacy.uri flags)) >? 0
        then legacy.httpHealthCheck env flags (legacy.IP_String env (addr_IP a))
        else legacy.portHealthCheck env flags (legacy.IP_String env (addr_IP a))
    | None =>
        legacy.Exit ["healthcheck failed: failure to find suitable interface"] 3
    end.
Proof.
  intros H. rewrite (legacy_main_find env flags interfaces H).
  destruct (find qualifies (listed (legacy.world env) interfaces)); [|reflexivity].
  unfold legacy_probe. now destruct (_ >? 0).
Qed.

Lemma legacy_main_first_address_witness :
  legacy.main (legacy_env late_server (fun _ _ => inr io_EOF) IPString_text)
              (legacy_flags readiness_flags)
  = legacy.Exit ["healthcheck failed: failure to make TCP request"] 4.
Proof.
  exact (legacy_main_first_address
           (legacy_env late_server (fun _ _ => inr io_EOF) IPString_text)
           (legacy_flags readiness_flags) [eth0] eq_refl).
Defined.

(** X18. Without a URI the earlier command and the command in single-shot
    mode exit with the same status on the same machine, when the
    interfaces were enumerated and [String] gives an address that is
    expressible in four bytes the text of [IPString]; with status 0
    they print the same line. *)
Theorem legacy_agrees_port (m : main.Machine) (flags : main.Flags)
  (interfaces : list Interface)
  (client_Get : Z -> string -> Response + GoError)
  (IP_String : net.IP -> string) (fuel : nat) :
  main.Interfaces m = inl interfaces ->
  poll.mode_of flags = poll.SingleShot ->
  main.uri flags = "" ->
  (forall ip, net.To4 ip <> None -> IPString ip = Some (IP_String ip)) ->
  exists code line line' t,
    legacy.main (legacy_env m client_Get IP_String) (legacy_flags flags)
    = legacy.Exit [line] code
    /\ main.main NewHealthCheck m flags fuel = main.Exited line' code t
    /\ (code = 0 -> line = line').
Proof.
  intros Hm Hmode Huri HS.
  rewrite (legacy_main_find (legacy_env m client_Get IP_String)
             (legacy_flags flags) interfaces Hm).
  unfold main.main, main.realMain. rewrite Hm. cbv zeta.
  unfold poll.mode_of in Hmode.
  destruct (main.readinessInterval flags >? 0); [discriminate|].
  destruct (main.livenessInterval flags >? 0); [discriminate|].
  set (h := NewHealthCheck _ _ _ _).
  assert (Hh : uri h = "") by exact Huri.
  cbn [legacy_env legacy.world].
  destruct (CheckInterfaces_cases (main.world_at m 0) h interfaces)
    as [(x & r & tp & F & Q & P & C)|[F C]]; rewrite F, C.
  - rewrite (probe_of_port _ h Hh) in P.
    unfold legacy_probe, legacy_flags. cbn [legacy.uri legacy.IP_String].
    rewrite Huri. cbn [String.length Z.of_nat Z.gtb Z.compare].
    unfold legacy.portHealthCheck, PortHealthCheck in *.
    rewrite (HS (addr_IP x) (qualifies_To4 x Q)) in P. cbn [lift bindR] in P.
    unfold legacy_env.
    cbn [legacy.world legacy.network legacy.port legacy.timeout legacy.IP_String].
    change (main.network flags) with (network h).
    change (main.port flags) with (port h).
    change (main.timeout flags) with (timeout h).
    destruct (DialTimeout (main.world_at m 0) (network h)
                (IP_String (addr_IP x) ++ ":" ++ port h) (timeout h))
      as [conn|err].
    + injection P as <- <-. exists 0. do 3 eexists.
      split; [reflexivity|]. split; reflexivity.
    + destruct (is_timeout err); injection P as <- <-.
      * exists 64. do 3 eexists. split; [reflexivity|].
        split; [reflexivity|discriminate].
      * exists 4. do 3 eexists. split; [reflexivity|].
        split; [reflexivity|discriminate].
  - exists 3. do 3 eexists. split; [reflexivity|].
    split; [reflexivity|discriminate].
Qed.

Lemma IPString_text_agrees (ip : net.IP) :
  net.To4 ip <> None -> IPString ip = Some (IPString_text ip).
Proof. intros _. unfold IPString_text. now destruct (IPString_total ip) as [s ->]. Qed.

Lemma legacy_agrees_port_witness :
  exists code line line' t,
    legacy.main (legacy_env late_server (fun _ _ => inr io_EOF) IPString_text)
                (legacy_flags single_shot_flags)
    = legacy.Exit [line] code
    /\ main.main NewHealthCheck late_server single_shot_flags 1
       = main.Exited line' code t
    /\ (code = 0 -> line = line').
Proof.
  exact (legacy_agrees_port late_server single_shot_flags [eth0]
           (fun _ _ => inr io_EOF) IPString_text 1
           eq_refl eq_refl eq_refl IPString_text_agrees).
Defined.

(** X19. The address that the tests listen on is the address that the
    check dials: when [getNonLoopbackIP] returns a text, a check
    without URI dials that text, a colon and the port; when it fails for
    want of an address, the check fails with code 3. *)
Theorem test_address_is_probed (IP_String : net.IP -> string) (w : World)
  (h : HealthCheck) (interfaces : list Interface) :
  (forall ip, net.To4 ip <> None -> IPString ip = Some (IP_String ip)) ->
  uri h = "" ->
  match getNonLoopbackIP IP_String w interfaces with
  | Some s =>
      exists r tp,
        CheckInterfaces w h interfaces
        = Some (r, (map EvAddrs (inspected w interfaces)
                    ++ EvDial (network h) (s ++ ":" ++ port h) (timeout h) :: tp)%list)
  | None =>
      CheckInterfaces w h interfaces
      = Some (failure 3 "failure to find suitable interface",
              map EvAddrs interfaces)
  end.
Proof.
  intros HS Huri. rewrite getNonLoopbackIP_find.
  destruct (CheckInterfaces_cases w h interfaces)
    as [(x & r & tp & F & Q & P & C)|[F C]]; rewrite F, C; cbn [option_map];
    [|reflexivity].
  rewrite (probe_of_port w h Huri) in P.
  destruct (PortHealthCheck_cases w h (addr_IP x) _
              (HS (addr_IP x) (qualifies_To4 x Q)))
    as [(conn & _ & E)|(code & msg & E & _)];
    rewrite E in P; injection P as <- <-; eauto.
Qed.

Lemma test_address_is_probed_witness :
  getNonLoopbackIP IPString_text anycast_first [eth0] = Some "10.0.0.2"
  /\ exists r tp,
       CheckInterfaces anycast_first port_8080 [eth0]
       = Some (r, (map EvAddrs (inspected anycast_first [eth0])
                   ++ EvDial "tcp" "10.0.0.2:8080" 1000000000 :: tp)%list).
Proof.
  split; [vm_compute; reflexivity|].
  exact (test_address_is_probed IPString_text anycast_first port_8080 [eth0]
           IPString_text_agrees eq_refl).
Defined.
